(** * FreeForm whiteboard: the canvas interaction engine

    A shallow embedding of the pure and state-passing parts of
    [Whiteboard.tsx] (both revisions of the component that the repository
    carries) together with the properties the specification states about
    them.

    Conventions.
    - A JavaScript [number] is modelled as an exact rational ([Q]); every
      literal of the source (0.1, 0.9, 1.1, 1.2, 5, 1500, 1000, ...) is a
      rational.  [Math.sqrt] and the canvas text metrics are not part of the
      repository: they are taken as parameters.
    - React state is a record; a handler is a function from the state it
      closes over to the state after all its [setX] calls were applied.
    - [Array.prototype.findIndex] returns [-1] when nothing matches; here it
      returns [None].
    - A property that is absent ([undefined]) is [None]. *)

From Stdlib Require Import QArith Qminmax Qabs Qround Lqa ZArith Lia Ascii String.
From stdpp Require Import gmap strings list.

Abbreviation number := Q (only parsing).

(** ** Data model ([types.ts]) *)

Inductive Tool :=
| pen | line | rectangle | circle | arrow | eraser | text_tool
| object_eraser | laser | lasso
| select (* used by the toolbar and the gesture revision of the component *).

Inductive LineType := solid | dashed.

#[global] Instance Tool_eq_dec : EqDecision Tool.
Proof. solve_decision. Defined.

Record Point := mkPoint { x : number; y : number }.

Record DrawEvent := mkDrawEvent {
  type : string;
  tool : Tool;
  color : string;
  lineWidth : number;
  lineType : LineType;
  points : list Point;
  timestamp : number;
  id : string;
  clientId : option string;
  text : option string;
  fontSize : option number;
  imageData : option string;
  imageWidth : option number;
  imageHeight : option number
}.

Record ToolOptions := mkToolOptions {
  opt_tool : Tool;
  opt_color : string;
  opt_lineWidth : number;
  opt_lineType : LineType
}.

(** ** JavaScript operators on numbers and optional values *)

Definition Qltb (a b : number) : bool := negb (Qle_bool b a).
Definition Qgtb (a b : number) : bool := Qltb b a.
Definition Qgeb (a b : number) : bool := Qle_bool b a.

Infix "<?" := Qltb : Q_scope.
Infix "<=?" := Qle_bool : Q_scope.
Infix ">?" := Qgtb : Q_scope.
Infix ">=?" := Qgeb : Q_scope.
Infix "=?" := Qeq_bool : Q_scope.

(** Truthiness of an optional string: [undefined] and the empty string are
    falsy. *)
Definition truthy_str (s : option string) : bool :=
  match s with
  | Some s' => negb (String.eqb s' "")
  | None => false
  end.

(** [v || d] on an optional number: [undefined] and [0] are falsy. *)
Definition num_or (v : option number) (d : number) : number :=
  match v with
  | Some n => if (n =? 0)%Q then d else n
  | None => d
  end.

(** [Array.prototype.findIndex]. *)
Fixpoint findIndex {A} (p : A → bool) (l : list A) : option nat :=
  match l with
  | [] => None
  | a :: l' => if p a then Some 0%nat else S <$> findIndex p l'
  end.

(** ** Component state ([useState] / [useRef] cells of [Whiteboard]) *)

Record LaserEntry := mkLaserEntry { element : DrawEvent; opacity : number }.

Record Whiteboard := mkWhiteboard {
  isDrawing : bool;
  currentPoints : list Point;
  elements : list DrawEvent;
  offset : Point;
  isPanning : bool;
  panStart : Point;
  laserElements : gmap string LaserEntry;
  zoom : number;
  lastPinchDistance : option number;
  deletedElements : gset string;
  selectedElementIds : gset string;
  lassoPath : list Point;
  isDragging : bool;
  dragStart : option Point
}.

Definition setElements (f : list DrawEvent → list DrawEvent) (w : Whiteboard) :=
  mkWhiteboard (isDrawing w) (currentPoints w) (f (elements w)) (offset w)
    (isPanning w) (panStart w) (laserElements w) (zoom w)
    (lastPinchDistance w) (deletedElements w) (selectedElementIds w)
    (lassoPath w) (isDragging w) (dragStart w).

Definition setLaserElements
    (f : gmap string LaserEntry → gmap string LaserEntry) (w : Whiteboard) :=
  mkWhiteboard (isDrawing w) (currentPoints w) (elements w) (offset w)
    (isPanning w) (panStart w) (f (laserElements w)) (zoom w)
    (lastPinchDistance w) (deletedElements w) (selectedElementIds w)
    (lassoPath w) (isDragging w) (dragStart w).

Definition setOffset (o : Point) (w : Whiteboard) :=
  mkWhiteboard (isDrawing w) (currentPoints w) (elements w) o
    (isPanning w) (panStart w) (laserElements w) (zoom w)
    (lastPinchDistance w) (deletedElements w) (selectedElementIds w)
    (lassoPath w) (isDragging w) (dragStart w).

Definition setZoom (z : number) (w : Whiteboard) :=
  mkWhiteboard (isDrawing w) (currentPoints w) (elements w) (offset w)
    (isPanning w) (panStart w) (laserElements w) z
    (lastPinchDistance w) (deletedElements w) (selectedElementIds w)
    (lassoPath w) (isDragging w) (dragStart w).

Definition setLastPinchDistance (d : option number) (w : Whiteboard) :=
  mkWhiteboard (isDrawing w) (currentPoints w) (elements w) (offset w)
    (isPanning w) (panStart w) (laserElements w) (zoom w)
    d (deletedElements w) (selectedElementIds w)
    (lassoPath w) (isDragging w) (dragStart w).

Definition setIsDrawing (b : bool) (w : Whiteboard) :=
  mkWhiteboard b (currentPoints w) (elements w) (offset w)
    (isPanning w) (panStart w) (laserElements w) (zoom w)
    (lastPinchDistance w) (deletedElements w) (selectedElementIds w)
    (lassoPath w) (isDragging w) (dragStart w).

Definition setCurrentPoints (ps : list Point) (w : Whiteboard) :=
  mkWhiteboard (isDrawing w) ps (elements w) (offset w)
    (isPanning w) (panStart w) (laserElements w) (zoom w)
    (lastPinchDistance w) (deletedElements w) (selectedElementIds w)
    (lassoPath w) (isDragging w) (dragStart w).

Definition setIsPanning (b : bool) (w : Whiteboard) :=
  mkWhiteboard (isDrawing w) (currentPoints w) (elements w) (offset w)
    b (panStart w) (laserElements w) (zoom w)
    (lastPinchDistance w) (deletedElements w) (selectedElementIds w)
    (lassoPath w) (isDragging w) (dragStart w).

Definition setDeletedElements (s : gset string) (w : Whiteboard) :=
  mkWhiteboard (isDrawing w) (currentPoints w) (elements w) (offset w)
    (isPanning w) (panStart w) (laserElements w) (zoom w)
    (lastPinchDistance w) s (selectedElementIds w)
    (lassoPath w) (isDragging w) (dragStart w).

Definition setSelectedElementIds (s : gset string) (w : Whiteboard) :=
  mkWhiteboard (isDrawing w) (currentPoints w) (elements w) (offset w)
    (isPanning w) (panStart w) (laserElements w) (zoom w)
    (lastPinchDistance w) (deletedElements w) s
    (lassoPath w) (isDragging w) (dragStart w).

Definition setLassoPath (ps : list Point) (w : Whiteboard) :=
  mkWhiteboard (isDrawing w) (currentPoints w) (elements w) (offset w)
    (isPanning w) (panStart w) (laserElements w) (zoom w)
    (lastPinchDistance w) (deletedElements w) (selectedElementIds w)
    ps (isDragging w) (dragStart w).

Definition setIsDragging (b : bool) (w : Whiteboard) :=
  mkWhiteboard (isDrawing w) (currentPoints w) (elements w) (offset w)
    (isPanning w) (panStart w) (laserElements w) (zoom w)
    (lastPinchDistance w) (deletedElements w) (selectedElementIds w)
    (lassoPath w) b (dragStart w).

Definition setDragStart (p : option Point) (w : Whiteboard) :=
  mkWhiteboard (isDrawing w) (currentPoints w) (elements w) (offset w)
    (isPanning w) (panStart w) (laserElements w) (zoom w)
    (lastPinchDistance w) (deletedElements w) (selectedElementIds w)
    (lassoPath w) (isDragging w) p.

(** The state a freshly mounted component starts from. *)
Definition initialState (initialElements : list DrawEvent) : Whiteboard :=
  mkWhiteboard false [] initialElements (mkPoint 0 0) false (mkPoint 0 0)
    ∅ 1 None ∅ ∅ [] false None.

(** ** Synchronization reconciler (the [useEffect] subscribing to remote
    events) *)

Module Reconciler.

(** The updater passed to [setElements] for a remote event that is not a
    laser event: replace by id, else append. *)
Definition upsert (event : DrawEvent) (prev : list DrawEvent) : list DrawEvent :=
  match findIndex (λ el, String.eqb (id el) (id event)) prev with
  | Some existingIndex => <[existingIndex := event]> prev
  | None => prev ++ [event]
  end.

Definition isLaserEvent (event : DrawEvent) : bool :=
  String.eqb (type event) "laser" || bool_decide (tool event = laser).

Definition onRemoteDrawEvent (event : DrawEvent) (w : Whiteboard) : Whiteboard :=
  if isLaserEvent event then
    setLaserElements (λ prev, <[id event := mkLaserEntry event 1]> prev) w
  else
    setElements (upsert event) w.

Definition removeById (elementId : string) (prev : list DrawEvent) :=
  List.filter (λ el, negb (String.eqb (id el) elementId)) prev.

Definition onRemoteDeleteEvent (elementId : string) (w : Whiteboard) :=
  setElements (removeById elementId) w.

Definition onClearCanvas (w : Whiteboard) : Whiteboard :=
  setElements (λ _, []) w.

Definition onUndoCanvas (elementId : string) (w : Whiteboard) :=
  setElements (removeById elementId) w.

End Reconciler.

(** ** Geometry kernel *)

Record Bounds := mkBounds {
  minX : number; minY : number; maxX : number; maxY : number
}.

(** [Math.pow(b, 2)]. *)
Definition Math_pow2 (b : number) : number := (b * b)%Q.

Module Geometry.
Section WithBuiltins.

(** [Math.sqrt]. *)
Variable sqrt : number → number.

(** The 2D context of the canvas, when the canvas is mounted, reduced to
    what the component reads from it: the [width] that [measureText]
    reports for a text at a font size. *)
Variable ctx : option (number → string → number).

(** The expression the component inlines wherever it needs the distance of
    two points. *)
Definition distance (p q : Point) : number :=
  sqrt (Math_pow2 (x p - x q) + Math_pow2 (y p - y q))%Q.

Definition distanceToLine (point lineStart lineEnd : Point) : number :=
  let A := (x point - x lineStart)%Q in
  let B := (y point - y lineStart)%Q in
  let C := (x lineEnd - x lineStart)%Q in
  let D := (y lineEnd - y lineStart)%Q in
  let dot := (A * C + B * D)%Q in
  let lenSq := (C * C + D * D)%Q in
  let param := if negb (lenSq =? 0)%Q then (dot / lenSq)%Q else (-1)%Q in
  let '(xx, yy) :=
    if (param <? 0)%Q then (x lineStart, y lineStart)
    else if (param >? 1)%Q then (x lineEnd, y lineEnd)
    else ((x lineStart + param * C)%Q, (y lineStart + param * D)%Q) in
  let dx := (x point - xx)%Q in
  let dy := (y point - yy)%Q in
  sqrt (dx * dx + dy * dy)%Q.

(** [isPointNearElement] of the mouse/touch revision of the component. *)
Definition isPointNearElement
    (point : Point) (element : DrawEvent) (threshold : number) : bool :=
  if truthy_str (imageData element) then
    match points element with
    | [] => false
    | pos :: _ =>
      let width := num_or (imageWidth element) 100 in
      let height := num_or (imageHeight element) 100 in
      (x point >=? x pos - threshold)%Q &&
      (x point <=? x pos + width + threshold)%Q &&
      (y point >=? y pos - threshold)%Q &&
      (y point <=? y pos + height + threshold)%Q
    end
  else if bool_decide (tool element = text_tool) then
    match text element, points element, ctx with
    | Some txt, pos :: _, Some measureText =>
      if String.eqb txt "" then false else
      let fontSize := num_or (fontSize element) 24 in
      let textWidth := measureText fontSize txt in
      let textHeight := fontSize in
      (x point >=? x pos - threshold)%Q &&
      (x point <=? x pos + textWidth + threshold)%Q &&
      (y point >=? y pos - textHeight - threshold)%Q &&
      (y point <=? y pos + threshold)%Q
    | _, _, _ => false
    end
  else
    match points element with
    | [] => false
    | start :: _ =>
      let end_ := List.last (points element) start in
      match tool element with
      | pen | eraser =>
        existsb (λ p, (distance p point <? threshold + lineWidth element)%Q)
                (points element)
      | line | arrow =>
        (distanceToLine point start end_ <? threshold + lineWidth element)%Q
      | rectangle =>
        let minX := Qmin (x start) (x end_) in
        let maxX := Qmax (x start) (x end_) in
        let minY := Qmin (y start) (y end_) in
        let maxY := Qmax (y start) (y end_) in
        (x point >=? minX - threshold)%Q &&
        (x point <=? maxX + threshold)%Q &&
        (y point >=? minY - threshold)%Q &&
        (y point <=? maxY + threshold)%Q &&
        ((x point <=? minX + threshold)%Q || (x point >=? maxX - threshold)%Q ||
         (y point <=? minY + threshold)%Q || (y point >=? maxY - threshold)%Q)
      | circle =>
        let center := start in
        let radius := distance end_ center in
        let dist := distance point center in
        (Qabs (dist - radius) <? threshold + lineWidth element)%Q
      | _ => false
      end
    end.

(** The box the rectangle branch of [isPointNearElement] computes from the
    first and the last point of the element; [None] when the element has
    no point. *)
Definition rectangleBox (element : DrawEvent) : option Bounds :=
  match points element with
  | [] => None
  | start :: _ =>
    let end_ := List.last (points element) start in
    Some (mkBounds (Qmin (x start) (x end_)) (Qmin (y start) (y end_))
                   (Qmax (x start) (x end_)) (Qmax (y start) (y end_)))
  end.

(** [isPointNearElement] of the gesture revision: the same function, but
    the circle branch looks at the active tool ([options.tool]). *)
Definition isPointNearElement_gesture (activeTool : Tool)
    (point : Point) (element : DrawEvent) (threshold : number) : bool :=
  if truthy_str (imageData element) then isPointNearElement point element threshold
  else if bool_decide (tool element = text_tool) then
    isPointNearElement point element threshold
  else
    match points element with
    | [] => false
    | start :: _ =>
      let end_ := List.last (points element) start in
      match tool element with
      | circle =>
        let center := start in
        let radius := distance end_ center in
        let dist := distance point center in
        if bool_decide (activeTool = select) || bool_decide (activeTool = text_tool)
        then (dist <=? radius + threshold)%Q
        else (Qabs (dist - radius) <? threshold + lineWidth element)%Q
      | _ => isPointNearElement point element threshold
      end
    end.

(** One step of the [forEach] that accumulates the coordinate-wise minimum
    and maximum. *)
Definition growBounds (b : Bounds) (p : Point) : Bounds :=
  mkBounds (Qmin (minX b) (x p)) (Qmin (minY b) (y p))
           (Qmax (maxX b) (x p)) (Qmax (maxY b) (y p)).

(** [getElementBounds].  The accumulators of the last branch start at
    [Infinity] and [-Infinity]; the list is not empty there, and
    [Math.min(Infinity, v) = v = Math.max(-Infinity, v)], so after the first
    point they hold its coordinates: the fold starts from there. *)
Definition getElementBounds (element : DrawEvent) : option Bounds :=
  match points element with
  | [] => None
  | pos :: rest =>
    if truthy_str (imageData element) then
      let width := num_or (imageWidth element) 100 in
      let height := num_or (imageHeight element) 100 in
      Some (mkBounds (x pos) (y pos) (x pos + width)%Q (y pos + height)%Q)
    else if bool_decide (tool element = text_tool) && truthy_str (text element) then
      match ctx with
      | None => None
      | Some measureText =>
        let fontSize := num_or (fontSize element) 24 in
        let width := measureText fontSize (default ""%string (text element)) in
        Some (mkBounds (x pos) (y pos - fontSize)%Q (x pos + width)%Q (y pos))
      end
    else
      Some (fold_left growBounds rest (mkBounds (x pos) (y pos) (x pos) (y pos)))
  end.

(** The body of the [for] loop of [isPointInPolygon]: [pj] is
    [polygon[j]], the vertex visited just before [polygon[i]] (the last
    vertex, for [i = 0]). *)
Definition edgeCrosses (point pi pj : Point) : bool :=
  xorb (y pi >? y point)%Q (y pj >? y point)%Q &&
  (x point <? (x pj - x pi) * (y point - y pi) / (y pj - y pi) + x pi)%Q.

Fixpoint rayCast (point pj : Point) (rest : list Point) (inside : bool) : bool :=
  match rest with
  | [] => inside
  | pi :: rest' =>
    rayCast point pi rest' (if edgeCrosses point pi pj then negb inside else inside)
  end.

Definition isPointInPolygon (point : Point) (polygon : list Point) : bool :=
  if (length polygon <? 3)%nat then false
  else
    match polygon with
    | [] => false
    | p0 :: _ => rayCast point (List.last polygon p0) polygon false
    end.

Definition corners (bounds : Bounds) : list Point :=
  [ mkPoint (minX bounds) (minY bounds);
    mkPoint (maxX bounds) (minY bounds);
    mkPoint (minX bounds) (maxY bounds);
    mkPoint (maxX bounds) (maxY bounds) ].

Definition isElementInLasso (element : DrawEvent) (lassoPolygon : list Point) : bool :=
  if (length lassoPolygon <? 3)%nat then false
  else
    match getElementBounds element with
    | None => false
    | Some bounds => existsb (λ corner, isPointInPolygon corner lassoPolygon) (corners bounds)
    end.

End WithBuiltins.




End Geometry.

(** ** The parity test, as the specification words it *)

Module LassoSpec.

(** The edges of a closed polygon: every vertex with the next one, and the
    last vertex with the first. *)
Definition polygonEdges (polygon : list Point) : list (Point * Point) :=
  match polygon with
  | [] => []
  | first :: rest => zip polygon (rest ++ [first])
  end.

(** The ray that leaves [p] towards larger [x] hits the edge between [a] and
    [b].  With [lo] the end of the edge whose [y] is the smaller and [hi]
    the other end: the height of [p] is at least that of [lo] and strictly
    less than that of [hi] (so a vertex on the ray counts for one of its two
    edges), and [p] has a strictly smaller [x] than the point of the edge at
    the height of [p] (the comparison is cross-multiplied by the height of
    the edge, which is positive then). *)
Definition rayHitsEdge (p a b : Point) : bool :=
  let lo := if (y a <=? y b)%Q then a else b in
  let hi := if (y a <=? y b)%Q then b else a in
  (y lo <=? y p)%Q && (y p <? y hi)%Q
  && ((x p - x lo) * (y hi - y lo) <? (y p - y lo) * (x hi - x lo))%Q.

(** The number of edges of the polygon that the ray hits. *)
Definition crossings (p : Point) (polygon : list Point) : nat :=
  length (List.filter (λ e, rayHitsEdge p e.1 e.2) (polygonEdges polygon)).

(** The ray-casting parity test: never inside a polygon of fewer than 3
    vertices; otherwise inside when the ray hits an odd number of edges. *)
Definition insidePolygon (p : Point) (polygon : list Point) : bool :=
  (3 <=? length polygon)%nat && Nat.odd (crossings p polygon).

End LassoSpec.

(** ** Viewport transform *)

(** What the handlers read from [canvas.getBoundingClientRect()]. *)
Record DOMRect := mkDOMRect {
  rect_left : number; rect_top : number; rect_width : number; rect_height : number
}.

Module Viewport.

(** Equality of points, coordinate by coordinate, as numbers. *)
Definition pointEq (p q : Point) : Prop := (x p == x q)%Q ∧ (y p == y q)%Q.

(** [getMousePos] without the DOM: from a position relative to the canvas
    (screen) to world coordinates, under the offset [o] and the zoom [z]. *)
Definition toWorld (o : Point) (z : number) (screen : Point) : Point :=
  mkPoint ((x screen - x o) / z)%Q ((y screen - y o) / z)%Q.

(** The transform the render pass applies ([translate(offset)], then
    [scale(zoom)]): world to screen. *)
Definition toScreen (o : Point) (z : number) (world : Point) : Point :=
  mkPoint (x world * z + x o)%Q (y world * z + y o)%Q.

(** The rule of the specification, in its words: zooming to [newZoom]
    toward the screen point [anchor] sets
    [offset' = anchor - (anchor - offset) * (newZoom / zoom)]. *)
Definition zoomAt_spec (anchor : Point) (newZoom : number) (w : Whiteboard) : Whiteboard :=
  setZoom newZoom
    (setOffset (mkPoint (x anchor - (x anchor - x (offset w)) * (newZoom / zoom w))%Q
                        (y anchor - (y anchor - y (offset w)) * (newZoom / zoom w))%Q) w).

(** [handleWheel] (mouse/touch revision). [canvas] is [None] when
    [canvasRef.current] is null. *)
Definition handleWheel (canvas : option DOMRect)
    (clientX clientY deltaY : number) (w : Whiteboard) : Whiteboard :=
  match canvas with
  | None => w
  | Some rect =>
    let mouseX := (clientX - rect_left rect)%Q in
    let mouseY := (clientY - rect_top rect)%Q in
    let delta := if (deltaY >? 0)%Q then 0.9%Q else 1.1%Q in
    let newZoom := Qmin (Qmax 0.1 (zoom w * delta)) 5 in
    let scale := (newZoom / zoom w)%Q in
    setZoom newZoom
      (setOffset (mkPoint (mouseX - (mouseX - x (offset w)) * scale)%Q
                          (mouseY - (mouseY - y (offset w)) * scale)%Q) w)
  end.

Definition handleZoomChange (canvas : option DOMRect)
    (newZoom : number) (w : Whiteboard) : Whiteboard :=
  match canvas with
  | None => w
  | Some rect =>
    let centerX := (rect_width rect / 2)%Q in
    let centerY := (rect_height rect / 2)%Q in
    let scale := (newZoom / zoom w)%Q in
    setZoom newZoom
      (setOffset (mkPoint (centerX - (centerX - x (offset w)) * scale)%Q
                          (centerY - (centerY - y (offset w)) * scale)%Q) w)
  end.

Definition handleZoomIn (canvas : option DOMRect) (w : Whiteboard) :=
  handleZoomChange canvas (Qmin (zoom w * 1.2) 5) w.

Definition handleZoomOut (canvas : option DOMRect) (w : Whiteboard) :=
  handleZoomChange canvas (Qmax (zoom w / 1.2) 0.1) w.

Definition handleZoomReset (canvas : option DOMRect) (w : Whiteboard) :=
  handleZoomChange canvas 1 w.

(** The [onChange] of the zoom slider; [value] is
    [parseFloat(e.target.value)]. *)
Definition onSliderChange (canvas : option DOMRect) (value : number) (w : Whiteboard) :=
  handleZoomChange canvas value w.

(** The two-finger branch of [handleTouchMove] (mouse/touch revision),
    [None] when that branch is not the one taken.  The pan at its end
    overwrites the offset the pinch computed. *)
Definition handleTouchMove_pinch (sqrt : number → number) (canvas : option DOMRect)
    (touch1 touch2 : Point) (w : Whiteboard) : option Whiteboard :=
  if isPanning w then
    let distance :=
      sqrt (Math_pow2 (x touch2 - x touch1) + Math_pow2 (y touch2 - y touch1))%Q in
    let w1 :=
      match lastPinchDistance w with
      | Some last =>
        if (last =? 0)%Q then w else
        let scale := (distance / last)%Q in
        let newZoom := Qmin (Qmax 0.1 (zoom w * scale)) 5 in
        let w' :=
          match canvas with
          | None => w
          | Some rect =>
            let centerX := ((x touch1 + x touch2) / 2 - rect_left rect)%Q in
            let centerY := ((y touch1 + y touch2) / 2 - rect_top rect)%Q in
            let zoomScale := (newZoom / zoom w)%Q in
            setZoom newZoom
              (setOffset (mkPoint (centerX - (centerX - x (offset w)) * zoomScale)%Q
                                  (centerY - (centerY - y (offset w)) * zoomScale)%Q) w)
          end in
        setLastPinchDistance (Some distance) w'
      | None => w
      end in
    Some (setOffset (mkPoint (x touch1 - x (panStart w))%Q
                             (y touch1 - y (panStart w))%Q) w1)
  else None.

(** The [memo] the gesture library threads through a pinch. *)
Record PinchMemo := mkPinchMemo { initialZoom : number; initialOffset : Point }.

(** [onPinch] (gesture revision): the state after the handler and the
    memo it returns ([None] for [undefined]: the library then keeps the
    memo it had). *)
Definition onPinch (canvas : option DOMRect) (cx cy ms : number) (first : bool)
    (memo : PinchMemo) (w : Whiteboard) : Whiteboard * option PinchMemo :=
  match canvas with
  | None => (w, None)
  | Some rect =>
    if first then (w, Some (mkPinchMemo (zoom w) (offset w)))
    else
      let newZoom := Qmin (Qmax 0.1 (initialZoom memo * ms)) 5 in
      let pinchX := (cx - rect_left rect)%Q in
      let pinchY := (cy - rect_top rect)%Q in
      let worldX := ((pinchX - x (initialOffset memo)) / initialZoom memo)%Q in
      let worldY := ((pinchY - y (initialOffset memo)) / initialZoom memo)%Q in
      let newOffsetX := (pinchX - worldX * newZoom)%Q in
      let newOffsetY := (pinchY - worldY * newZoom)%Q in
      (setOffset (mkPoint newOffsetX newOffsetY) (setZoom newZoom w), None)
  end.

(** [onWheel] (gesture revision). *)
Definition onWheel (canvas : option DOMRect) (clientX clientY dx dy : number)
    (ctrlKey : bool) (w : Whiteboard) : Whiteboard :=
  if ctrlKey then
    match canvas with
    | None => w
    | Some rect =>
      let mouseX := (clientX - rect_left rect)%Q in
      let mouseY := (clientY - rect_top rect)%Q in
      let newZoom := Qmin (Qmax 0.1 (zoom w * (if (dy >? 0)%Q then 0.9 else 1.1))) 5 in
      let scale := (newZoom / zoom w)%Q in
      setZoom newZoom
        (setOffset (mkPoint (mouseX - (mouseX - x (offset w)) * scale)%Q
                            (mouseY - (mouseY - y (offset w)) * scale)%Q) w)
    end
  else
    setOffset (mkPoint (x (offset w) - dx)%Q (y (offset w) - dy)%Q) w.

(** Every input that reaches a [setZoom] call, in either revision. *)
Inductive ZoomInput :=
| Wheel (canvas : option DOMRect) (clientX clientY deltaY : number)
| TouchPinch (sqrt : number → number) (canvas : option DOMRect) (touch1 touch2 : Point)
| GesturePinch (canvas : option DOMRect) (cx cy ms : number) (first : bool)
    (memo : PinchMemo)
| GestureWheel (canvas : option DOMRect) (clientX clientY dx dy : number) (ctrlKey : bool)
| ZoomInButton (canvas : option DOMRect)
| ZoomOutButton (canvas : option DOMRect)
| ZoomResetButton (canvas : option DOMRect)
| Slider (canvas : option DOMRect) (value : number).

(** The handler each input runs.  The branches of [handleTouchMove] other
    than the two-finger one do not call [setZoom]: the state is left as it
    is for them. *)
Definition step (i : ZoomInput) (w : Whiteboard) : Whiteboard :=
  match i with
  | Wheel canvas cX cY dY => handleWheel canvas cX cY dY w
  | TouchPinch sqrt canvas t1 t2 =>
    default w (handleTouchMove_pinch sqrt canvas t1 t2 w)
  | GesturePinch canvas cx cy ms first memo =>
    (onPinch canvas cx cy ms first memo w).1
  | GestureWheel canvas cX cY dx dy ctrl => onWheel canvas cX cY dx dy ctrl w
  | ZoomInButton canvas => handleZoomIn canvas w
  | ZoomOutButton canvas => handleZoomOut canvas w
  | ZoomResetButton canvas => handleZoomReset canvas w
  | Slider canvas value => onSliderChange canvas value w
  end.

(** The zoom slider is [<input type="range" min="0.1" max="5" step="0.1">]:
    the values it can report lie between its [min] and its [max]. *)
Definition sliderRange (i : ZoomInput) : Prop :=
  match i with
  | Slider _ value => (0.1 <= value ∧ value <= 5)%Q
  | _ => True
  end.

Definition run (inputs : list ZoomInput) (w : Whiteboard) : Whiteboard :=
  fold_left (λ w i, step i w) inputs w.

Definition zoomInRange (w : Whiteboard) : Prop := (0.1 <= zoom w ∧ zoom w <= 5)%Q.

End Viewport.

(** ** Ephemeral decay scheduler (the [setInterval] effect) *)

Module Decay.

Definition fadeStart : number := 1500.
Definition fadeDuration : number := 1000.

(** The callback of [newMap.forEach], on the pair of the mutable locals
    [newMap] and [hasChanges].  [now] is what [Date.now()] returns when the
    callback runs. *)
Definition fadeEntry (now : number) (key : string) (value : LaserEntry)
    (acc : gmap string LaserEntry * bool) : gmap string LaserEntry * bool :=
  let '(newMap, hasChanges) := acc in
  let age := (now - timestamp (element value))%Q in
  if (age >? fadeStart + fadeDuration)%Q then
    (delete key newMap, true)
  else if (age >? fadeStart)%Q then
    let fadeProgress := ((age - fadeStart) / fadeDuration)%Q in
    let newOpacity := (1 - fadeProgress)%Q in
    if negb (opacity value =? newOpacity)%Q then
      (<[key := mkLaserEntry (element value) newOpacity]> newMap, true)
    else (newMap, hasChanges)
  else (newMap, hasChanges).

(** The updater passed to [setLaserElements] on every tick.  [Date.now()]
    is read once per entry: [clock key] is its value when the entry stored
    under [key] is visited. *)
Definition tick (clock : string → number) (prev : gmap string LaserEntry)
    : gmap string LaserEntry :=
  let '(newMap, hasChanges) :=
    map_fold (λ key value acc, fadeEntry (clock key) key value acc) (prev, false) prev in
  if hasChanges then newMap else prev.

Definition onInterval (clock : string → number) (w : Whiteboard) : Whiteboard :=
  setLaserElements (tick clock) w.

(** Successive ticks, the earliest first. *)
Definition ticks (clocks : list (string → number))
    (prev : gmap string LaserEntry) : gmap string LaserEntry :=
  fold_left (λ m clock, tick clock m) clocks prev.

(** What one tick does to one entry, read off [fadeEntry]: [None] when the
    entry is deleted. *)
Definition faded (now : number) (value : LaserEntry) : option LaserEntry :=
  let age := (now - timestamp (element value))%Q in
  if (age >? fadeStart + fadeDuration)%Q then None
  else if (age >? fadeStart)%Q then
    let newOpacity := (1 - (age - fadeStart) / fadeDuration)%Q in
    if negb (opacity value =? newOpacity)%Q
    then Some (mkLaserEntry (element value) newOpacity)
    else Some value
  else Some value.

End Decay.

(** ** Gesture commit *)

(** Calls of the [onDrawEvent] and [onDeleteElement] props. *)
Inductive Outbound :=
| SendDraw (event : DrawEvent)
| SendDelete (elementId : string).

Module Gesture.
Section WithBuiltins.

Variable ctx : option (number → string → number).

(** [handleMouseUp] (mouse/touch revision): the state after the handler and
    the calls it made to the props.  [now] is [Date.now()] and [newId] the
    string [`${Date.now()}-${Math.random()}`]. *)
Definition handleMouseUp (options : ToolOptions) (now : number) (newId : string)
    (w : Whiteboard) : Whiteboard * list Outbound :=
  if isPanning w then (setIsPanning false w, [])
  else if bool_decide (opt_tool options = lasso) && isDragging w then
    (setDragStart None (setIsDragging false w),
     SendDraw <$> List.filter (λ el, bool_decide (id el ∈ selectedElementIds w))
                              (elements w))
  else if bool_decide (opt_tool options = lasso) && isDrawing w
          && (2 <? length (lassoPath w))%nat then
    let selected : gset string :=
      list_to_set (id <$> List.filter
                     (λ el, Geometry.isElementInLasso ctx el (lassoPath w))
                     (elements w)) in
    (setIsDrawing false (setLassoPath [] (setSelectedElementIds selected w)), [])
  else if bool_decide (opt_tool options = object_eraser) then
    (setDeletedElements ∅ (setIsDrawing false w), [])
  else if negb (isDrawing w) then (w, [])
  else
    let '(w', sent) :=
      if (0 <? length (currentPoints w))%nat then
        let drawEvent :=
          mkDrawEvent
            (if bool_decide (opt_tool options = laser) then "laser" else "draw")
            (opt_tool options) (opt_color options) (opt_lineWidth options)
            (opt_lineType options) (currentPoints w) now newId
            None None None None None None in
        (if bool_decide (opt_tool options = laser) then
           setLaserElements (λ prev, <[id drawEvent := mkLaserEntry drawEvent 1]> prev) w
         else
           setElements (λ prev, prev ++ [drawEvent]) w,
         [SendDraw drawEvent])
      else (w, []) in
    (setCurrentPoints [] (setIsDrawing false w'), sent).

End WithBuiltins.
End Gesture.

(** ** Sample data for the worked examples *)

Module Samples.

(** A stand-in for [Math.sqrt] that computes: the integer square root of
    numerator times denominator, over the denominator.  It is exact on the
    squares of integers. *)
Definition approxSqrt (q : number) : number :=
  let r := Qred q in
  (inject_Z (Z.sqrt (Qnum r * Zpos (Qden r))) / inject_Z (Zpos (Qden r)))%Q.

(** A stand-in for the text metrics: half the font size per character. *)
Definition sampleCtx : option (number → string → number) :=
  Some (λ fontSize txt, (fontSize * inject_Z (Z.of_nat (String.length txt)) / 2)%Q).

Definition stroke (ident : string) (t : Tool) (ps : list Point) : DrawEvent :=
  mkDrawEvent "draw" t "#000000" 4 solid ps 0 ident None None None None None None.

Definition penA : DrawEvent := stroke "a" pen [mkPoint 0 0; mkPoint 1 1].
Definition penB : DrawEvent := stroke "b" pen [mkPoint 5 5; mkPoint 6 7].
Definition penC : DrawEvent := stroke "c" pen [mkPoint 9 9].
(** A remote edit of [penA]: same id, other content. *)
Definition lineA : DrawEvent := stroke "a" line [mkPoint 0 0; mkPoint 8 8].

Definition rectSmall : DrawEvent := stroke "r1" rectangle [mkPoint 2 2; mkPoint 4 4].
Definition rectBig : DrawEvent :=
  stroke "r2" rectangle [mkPoint (-10) (-10); mkPoint 30 30].
Definition rectHundred : DrawEvent :=
  stroke "r3" rectangle [mkPoint 0 0; mkPoint 100 100].

Definition triangle : list Point := [mkPoint 0 0; mkPoint 12 0; mkPoint 0 12].

(** A laser stroke stamped at time 0. *)
Definition laserStroke : DrawEvent :=
  mkDrawEvent "laser" laser "#ff0000" 4 solid [mkPoint 1 1; mkPoint 2 2] 0 "l1"
    None None None None None None.

Definition laserOptions : ToolOptions := mkToolOptions laser "#ff0000" 4 solid.
Definition lassoOptions : ToolOptions := mkToolOptions lasso "#000000" 4 solid.

(** The laser tool in the middle of a stroke. *)
Definition laserInFlight : Whiteboard :=
  setCurrentPoints [mkPoint 1 1; mkPoint 2 2] (setIsDrawing true (initialState [penA])).

(** The lasso tool in the middle of a gesture around [rectSmall]. *)
Definition lassoInFlight : Whiteboard :=
  setLassoPath triangle (setIsDrawing true (initialState [rectSmall])).

Definition canvasRect : DOMRect := mkDOMRect 0 0 800 600.

Definition zoomInputs : list Viewport.ZoomInput :=
  [ Viewport.Wheel (Some canvasRect) 100 100 (-1);
    Viewport.ZoomInButton (Some canvasRect);
    Viewport.Slider (Some canvasRect) 5;
    Viewport.ZoomInButton (Some canvasRect);
    Viewport.GesturePinch (Some canvasRect) 10 10 (1 # 100) false
      (Viewport.mkPinchMemo 5 (mkPoint 0 0));
    Viewport.ZoomOutButton (Some canvasRect);
    Viewport.GestureWheel (Some canvasRect) 10 10 0 3 true ].

End Samples.

(** ** The nearest point of a segment *)

Module Segment.

(** The point [(xx, yy)] that [distanceToLine] computes before it takes the
    distance: the body of the function up to its last three lines. *)
Definition closest (point lineStart lineEnd : Point) : Point :=
  let A := (x point - x lineStart)%Q in
  let B := (y point - y lineStart)%Q in
  let C := (x lineEnd - x lineStart)%Q in
  let D := (y lineEnd - y lineStart)%Q in
  let dot := (A * C + B * D)%Q in
  let lenSq := (C * C + D * D)%Q in
  let param := if negb (lenSq =? 0)%Q then (dot / lenSq)%Q else (-1)%Q in
  if (param <? 0)%Q then mkPoint (x lineStart) (y lineStart)
  else if (param >? 1)%Q then mkPoint (x lineEnd) (y lineEnd)
  else mkPoint (x lineStart + param * C)%Q (y lineStart + param * D)%Q.

(** The squared distance of two points, as the last lines of
    [distanceToLine] write it under the square root. *)
Definition sqDist (p q : Point) : number :=
  ((x p - x q) * (x p - x q) + (y p - y q) * (y p - y q))%Q.

(** The point of the segment from [a] to [b] at parameter [s]. *)
Definition along (a b : Point) (s : number) : Point :=
  mkPoint (x a + s * (x b - x a))%Q (y a + s * (y b - y a))%Q.

End Segment.

(** ** Pointer handlers of the mouse/touch revision *)

(** The text-input cells of the component, the hover cell and the
    [lastMousePosRef] cell, next to the cells of [Whiteboard]. *)
Record Editor := mkEditor {
  board : Whiteboard;
  textInputPos : option Point;
  textInputValue : string;
  editingTextId : option string;
  hoveredElementId : option string;
  lastMousePos : Point
}.

Definition withBoard (f : Whiteboard → Whiteboard) (ed : Editor) : Editor :=
  mkEditor (f (board ed)) (textInputPos ed) (textInputValue ed) (editingTextId ed)
    (hoveredElementId ed) (lastMousePos ed).

Definition setTextInput (pos : option Point) (value : string) (editing : option string)
    (ed : Editor) : Editor :=
  mkEditor (board ed) pos value editing (hoveredElementId ed) (lastMousePos ed).

Definition setHoveredElementId (h : option string) (ed : Editor) : Editor :=
  mkEditor (board ed) (textInputPos ed) (textInputValue ed) (editingTextId ed)
    h (lastMousePos ed).

Definition setLastMousePos (p : Point) (ed : Editor) : Editor :=
  mkEditor (board ed) (textInputPos ed) (textInputValue ed) (editingTextId ed)
    (hoveredElementId ed) p.

Definition setPanStart (p : Point) (w : Whiteboard) :=
  mkWhiteboard (isDrawing w) (currentPoints w) (elements w) (offset w)
    (isPanning w) p (laserElements w) (zoom w)
    (lastPinchDistance w) (deletedElements w) (selectedElementIds w)
    (lassoPath w) (isDragging w) (dragStart w).

Definition initialEditor (initialElements : list DrawEvent) : Editor :=
  mkEditor (initialState initialElements) None "" None None (mkPoint 0 0).

(** What the handlers read from a [MouseEvent]. *)
Record MouseEvent := mkMouseEvent {
  ev_button : Z;
  ev_shiftKey : bool;
  ev_clientX : number;
  ev_clientY : number
}.

(** [{ ...el, points: ps }]. *)
Definition withPoints (ps : list Point) (el : DrawEvent) : DrawEvent :=
  mkDrawEvent (type el) (tool el) (color el) (lineWidth el) (lineType el) ps
    (timestamp el) (id el) (clientId el) (text el) (fontSize el)
    (imageData el) (imageWidth el) (imageHeight el).

(** [h?.id || null]. *)
Definition idOrNull (h : option DrawEvent) : option string :=
  match h with
  | Some el => if String.eqb (id el) "" then None else Some (id el)
  | None => None
  end.

Module Pointer.
Section WithBuiltins.

Variable sqrt : number → number.
Variable ctx : option (number → string → number).

(** [canvasRef.current], as the bounding rectangle it reports. *)
Variable canvas : option DOMRect.

Variable options : ToolOptions.

(** [getMousePos]. *)
Definition getMousePos (clientX clientY : number) (w : Whiteboard) : Point :=
  match canvas with
  | None => mkPoint 0 0
  | Some rect =>
    mkPoint ((clientX - rect_left rect - x (offset w)) / zoom w)%Q
            ((clientY - rect_top rect - y (offset w)) / zoom w)%Q
  end.

(** [[...elements].reverse().find(hit)]: the most recent element that
    [hit] accepts. *)
Definition topmost (hit : DrawEvent → bool) (els : list DrawEvent) : option DrawEvent :=
  List.find hit (rev els).

(** The updater that moves the selected elements by [(dx, dy)]. *)
Definition translateSelected (selected : gset string) (dx dy : number)
    (prev : list DrawEvent) : list DrawEvent :=
  (λ el, if bool_decide (id el ∈ selected)
         then withPoints ((λ p, mkPoint (x p + dx)%Q (y p + dy)%Q) <$> points el) el
         else el) <$> prev.

Definition handleMouseDown (e : MouseEvent) (ed : Editor) : Editor * list Outbound :=
  let w := board ed in
  if bool_decide (ev_button e = 1%Z)
     || (bool_decide (ev_button e = 0%Z) && ev_shiftKey e) then
    (withBoard (λ w, setPanStart (mkPoint (ev_clientX e - x (offset w))%Q
                                          (ev_clientY e - y (offset w))%Q)
                       (setIsPanning true w)) ed, [])
  else if negb (bool_decide (ev_button e = 0%Z)) then (ed, [])
  else
    let point := getMousePos (ev_clientX e) (ev_clientY e) w in
    match opt_tool options with
    | lasso =>
      let clickedSelected :=
        topmost (λ el, bool_decide (id el ∈ selectedElementIds w)
                       && Geometry.isPointNearElement sqrt ctx point el 10)
                (elements w) in
      match clickedSelected with
      | Some _ =>
        if (0 <? size (selectedElementIds w))%nat then
          (withBoard (λ w, setDragStart (Some point) (setIsDragging true w)) ed, [])
        else
          (withBoard (λ w, setSelectedElementIds ∅
                             (setLassoPath [point] (setIsDrawing true w))) ed, [])
      | None =>
        (withBoard (λ w, setSelectedElementIds ∅
                           (setLassoPath [point] (setIsDrawing true w))) ed, [])
      end
    | text_tool =>
      let clickedText :=
        topmost (λ el, bool_decide (tool el = text_tool)
                       && Geometry.isPointNearElement sqrt ctx point el 5)
                (elements w) in
      match clickedText with
      | Some clicked =>
        (setTextInput (head (points clicked))
           (if truthy_str (text clicked) then default ""%string (text clicked)
            else ""%string)
           (Some (id clicked)) ed, [])
      | None => (setTextInput (Some point) "" None ed, [])
      end
    | object_eraser =>
      let clickedElement :=
        topmost (λ el, Geometry.isPointNearElement sqrt ctx point el 15) (elements w) in
      match clickedElement with
      | Some clicked =>
        (withBoard (λ w, setElements
                           (λ prev, List.filter
                                      (λ el, negb (String.eqb (id el) (id clicked))) prev)
                           (setDeletedElements {[ id clicked ]} (setIsDrawing true w)))
                   ed,
         [SendDelete (id clicked)])
      | None =>
        (withBoard (λ w, setDeletedElements ∅ (setIsDrawing true w)) ed, [])
      end
    | _ =>
      (withBoard (λ w, setCurrentPoints [point] (setIsDrawing true w)) ed, [])
    end.

(** The last statement of [handleMouseMove], on the working path.  When the
    path is empty and the tool is not a freehand one, [prev[0]] is
    [undefined] and the handler stores [[undefined, point]]: a list of
    points cannot hold that, and the result is [None], for a state that
    leaves the model (not for a handler that fails). *)
Definition extendPath (t : Tool) (point : Point) (prev : list Point)
    : option (list Point) :=
  match t with
  | pen | eraser | laser => Some (prev ++ [point])
  | _ => match prev with
         | p0 :: _ => Some [p0; point]
         | [] => None
         end
  end.

(** Where [handleMouseMove] stands after its hover part: it has returned
    ([Returned]), or it goes on to the working path ([Drawing]). *)
Inductive MoveStep :=
| Returned (r : Editor * list Outbound)
| Drawing (point : Point) (r : Editor * list Outbound).

(** [handleMouseMove] up to and including [if (!isDrawing) return]. *)
Definition handleMouseMove_hover (e : MouseEvent) (ed : Editor) : MoveStep :=
  let w := board ed in
  if isPanning w then
    Returned (withBoard (setOffset (mkPoint (ev_clientX e - x (panStart w))%Q
                                            (ev_clientY e - y (panStart w))%Q)) ed, [])
  else
    let point := getMousePos (ev_clientX e) (ev_clientY e) w in
    let ed := setLastMousePos point ed in
    let dragging :=
      if bool_decide (opt_tool options = lasso) && isDragging w
      then dragStart w else None in
    match dragging with
    | Some start =>
      let dx := (x point - x start)%Q in
      let dy := (y point - y start)%Q in
      Returned (withBoard (λ w, setDragStart (Some point)
                                  (setElements
                                     (translateSelected (selectedElementIds w) dx dy) w))
                          ed, [])
    | None =>
      let r :=
        match opt_tool options with
        | object_eraser =>
          let hoveredElement :=
            topmost (λ el, Geometry.isPointNearElement sqrt ctx point el 15)
                    (elements w) in
          let ed := setHoveredElementId (idOrNull hoveredElement) ed in
          match hoveredElement with
          | Some hovered =>
            if isDrawing w && negb (bool_decide (id hovered ∈ deletedElements w)) then
              (withBoard
                 (λ w, setElements
                         (λ prev, List.filter
                                    (λ el, negb (String.eqb (id el) (id hovered))) prev)
                         (setDeletedElements ({[ id hovered ]} ∪ deletedElements w) w))
                 ed,
               [SendDelete (id hovered)])
            else (ed, [])
          | None => (ed, [])
          end
        | text_tool =>
          let hoveredText :=
            topmost (λ el, bool_decide (tool el = text_tool)
                           && Geometry.isPointNearElement sqrt ctx point el 5)
                    (elements w) in
          (setHoveredElementId (idOrNull hoveredText) ed, [])
        | _ => (setHoveredElementId None ed, [])
        end in
      if negb (isDrawing w) then Returned r else Drawing point r
    end.

(** [handleMouseMove].  The result is [None] where the handler, which always
    completes, stores a working path that holds [undefined] (a move while
    drawing with an empty path and a tool that is not freehand, as in a drag
    of the object eraser): the state then leaves the model.  Up to that
    last statement the handler is [handleMouseMove_hover], which is total. *)
Definition handleMouseMove (e : MouseEvent) (ed : Editor)
    : option (Editor * list Outbound) :=
  match handleMouseMove_hover e ed with
  | Returned r => Some r
  | Drawing point (ed, sent) =>
    if bool_decide (opt_tool options = lasso) then
      Some (withBoard (λ w, setLassoPath (lassoPath w ++ [point]) w) ed, sent)
    else
      match extendPath (opt_tool options) point (currentPoints (board ed)) with
      | Some path => Some (withBoard (setCurrentPoints path) ed, sent)
      | None => None
      end
  end.

(** [handleMouseUp], on the cells of [Editor]. *)
Definition handleMouseUp (now : number) (newId : string) (ed : Editor)
    : Editor * list Outbound :=
  let r := Gesture.handleMouseUp ctx options now newId (board ed) in
  (withBoard (λ _, r.1) ed, r.2).

(** A stream of pointer moves, the earliest first, with the calls to the
    props in the order they were made. *)
Fixpoint moves (es : list MouseEvent) (ed : Editor) : option (Editor * list Outbound) :=
  match es with
  | [] => Some (ed, [])
  | e :: es' =>
    match handleMouseMove e ed with
    | Some (ed', sent) =>
      match moves es' ed' with
      | Some (ed'', sent') => Some (ed'', sent ++ sent')
      | None => None
      end
    | None => None
    end
  end.

(** One gesture: pointer down, moves, pointer up. *)
Definition gesture (down : MouseEvent) (es : list MouseEvent)
    (now : number) (newId : string) (ed : Editor) : option (Editor * list Outbound) :=
  let '(ed1, sent1) := handleMouseDown down ed in
  match moves es ed1 with
  | Some (ed2, sent2) =>
    let '(ed3, sent3) := handleMouseUp now newId ed2 in
    Some (ed3, sent1 ++ sent2 ++ sent3)
  | None => None
  end.

End WithBuiltins.
End Pointer.

(** The tools whose gesture draws a path: they take the last branch of
    [handleMouseDown] and, unless the tool is the laser, commit to the
    element list. *)
Definition drawsElement (t : Tool) : Prop :=
  t = pen ∨ t = eraser ∨ t = line ∨ t = rectangle ∨ t = circle ∨ t = arrow.

Definition freehand (t : Tool) : bool :=
  match t with pen | eraser | laser => true | _ => false end.

(** The working path after a pointer down at [p0] and moves through [ps]. *)
Definition workingPath (t : Tool) (p0 : Point) (ps : list Point) : list Point :=
  if freehand t then p0 :: ps
  else match ps with
       | [] => [p0]
       | q :: _ => [p0; List.last ps q]
       end.

(** Two lists of points with the same coordinates, as numbers. *)
Definition pointsEq (ps qs : list Point) : Prop := Forall2 Viewport.pointEq ps qs.

(** Two elements that differ at most in how the coordinates of their points
    are written. *)
Definition eventEq (e1 e2 : DrawEvent) : Prop :=
  withPoints [] e1 = withPoints [] e2 ∧ pointsEq (points e1) (points e2).

(** [el'] is [el] moved by [(dx, dy)]: it has as many points, each the point
    of [el] at the same place with [dx] added to its [x] and [dy] to its
    [y], and nothing else differs. *)
Definition movedBy (dx dy : number) (el el' : DrawEvent) : Prop :=
  withPoints [] el' = withPoints [] el ∧
  Forall2 (λ p p', (x p' == x p + dx)%Q ∧ (y p' == y p + dy)%Q) (points el) (points el').

(** What a drag by [(dx, dy)] is to do to an element, given the selection:
    move it when its id is selected, leave it as it is otherwise. *)
Definition draggedBy (selected : gset string) (dx dy : number) (el el' : DrawEvent)
    : Prop :=
  if bool_decide (id el ∈ selected) then movedBy dx dy el el' else el' = el.

(** ** Text input *)

(** [{ ...el, text: t }], [{ ...el, fontSize: f }] and
    [{ ...el, timestamp: t }]. *)
Definition withText (t : option string) (el : DrawEvent) : DrawEvent :=
  mkDrawEvent (type el) (tool el) (color el) (lineWidth el) (lineType el) (points el)
    (timestamp el) (id el) (clientId el) t (fontSize el)
    (imageData el) (imageWidth el) (imageHeight el).

Definition withFontSize (f : option number) (el : DrawEvent) : DrawEvent :=
  mkDrawEvent (type el) (tool el) (color el) (lineWidth el) (lineType el) (points el)
    (timestamp el) (id el) (clientId el) (text el) f
    (imageData el) (imageWidth el) (imageHeight el).

Definition withTimestamp (t : number) (el : DrawEvent) : DrawEvent :=
  mkDrawEvent (type el) (tool el) (color el) (lineWidth el) (lineType el) (points el)
    t (id el) (clientId el) (text el) (fontSize el)
    (imageData el) (imageWidth el) (imageHeight el).

(** The updater [prev.map(el => el.id === ident ? replacement : el)]. *)
Definition replaceById (ident : string) (replacement : DrawEvent)
    (prev : list DrawEvent) : list DrawEvent :=
  (λ el, if String.eqb (id el) ident then replacement else el) <$> prev.

Module TextEdit.
Section WithBuiltins.

(** Whether [s.trim()] is the empty string. *)
Variable isBlank : string → bool.

Variable options : ToolOptions.

Definition closeInput (ed : Editor) : Editor := setTextInput None "" None ed.

(** The text element both revisions build for a new text. *)
Definition newText (pos : Point) (value : string) (now : number) (ident : string)
    : DrawEvent :=
  mkDrawEvent "draw" text_tool (opt_color options) (opt_lineWidth options)
    (opt_lineType options) [pos] now ident None (Some value)
    (Some (opt_lineWidth options * 6)%Q) None None None.

(** [editingTextId], when it is truthy. *)
Definition editing (ed : Editor) : option string :=
  match editingTextId ed with
  | Some ident => if String.eqb ident "" then None else Some ident
  | None => None
  end.

(** [handleTextSubmit] of the mouse/touch revision. *)
Definition handleTextSubmit (now : number) (newId : string) (ed : Editor)
    : Editor * list Outbound :=
  match textInputPos ed with
  | None => (ed, [])
  | Some pos =>
    match isBlank (textInputValue ed), editing ed with
    | true, Some ident =>
      (closeInput (withBoard (setElements (Reconciler.removeById ident)) ed),
       [SendDelete ident])
    | true, None => (closeInput ed, [])
    | false, Some ident =>
      let drawEvent := newText pos (textInputValue ed) now ident in
      (closeInput (withBoard (setElements (replaceById ident drawEvent)) ed),
       [SendDraw drawEvent])
    | false, None =>
      let drawEvent := newText pos (textInputValue ed) now newId in
      (closeInput (withBoard (setElements (λ prev, prev ++ [drawEvent])) ed),
       [SendDraw drawEvent])
    end
  end.

(** [handleTextSubmit] of the gesture revision, where a shape can carry a
    caption. *)
Definition handleTextSubmit_gesture (now : number) (newId : string) (ed : Editor)
    : Editor * list Outbound :=
  match textInputPos ed with
  | None => (ed, [])
  | Some pos =>
    match isBlank (textInputValue ed), editing ed with
    | true, Some ident =>
      match List.find (λ el, String.eqb (id el) ident) (elements (board ed)) with
      | Some el =>
        if bool_decide (tool el = text_tool) then
          (closeInput (withBoard (setElements (Reconciler.removeById ident)) ed),
           [SendDelete ident])
        else
          let updatedElement := withText None el in
          (closeInput (withBoard (setElements (replaceById ident updatedElement)) ed),
           [SendDraw updatedElement])
      | None => (closeInput ed, [])
      end
    | true, None => (closeInput ed, [])
    | false, Some ident =>
      match List.find (λ el, String.eqb (id el) ident) (elements (board ed)) with
      | Some existingElement =>
        if negb (bool_decide (tool existingElement = text_tool)) then
          let updatedElement :=
            withFontSize (Some (num_or (fontSize existingElement) 16))
              (withText (Some (textInputValue ed)) existingElement) in
          (closeInput (withBoard (setElements (replaceById ident updatedElement)) ed),
           [SendDraw updatedElement])
        else
          let drawEvent :=
            withTimestamp now
              (withPoints [pos] (withText (Some (textInputValue ed)) existingElement)) in
          (closeInput (withBoard (setElements (replaceById ident drawEvent)) ed),
           [SendDraw drawEvent])
      | None => (closeInput ed, [])
      end
    | false, None =>
      let drawEvent := newText pos (textInputValue ed) now newId in
      (closeInput (withBoard (setElements (λ prev, prev ++ [drawEvent])) ed),
       [SendDraw drawEvent])
    end
  end.

End WithBuiltins.
End TextEdit.

(** ** Selection: deleting the selected elements, switching tools *)

Module Selection.

(** [deleteSelectedItems].  [onDeleteElement] is called once per selected
    id, in the iteration order of the set, which the model does not fix. *)
Definition deleteSelectedItems (w : Whiteboard) : Whiteboard * list Outbound :=
  if (size (selectedElementIds w) =? 0)%nat then (w, [])
  else
    (setSelectedElementIds ∅
       (setElements
          (λ prev, List.filter (λ el, negb (bool_decide (id el ∈ selectedElementIds w))) prev)
          w),
     SendDelete <$> base.elements (selectedElementIds w)).

(** The [keydown] listener: [typing] is whether the text input is open. *)
Definition handleKeyDown (key : string) (typing : bool) (w : Whiteboard)
    : Whiteboard * list Outbound :=
  if (String.eqb key "Delete" || String.eqb key "Backspace")
     && (0 <? size (selectedElementIds w))%nat then
    if typing then (w, []) else deleteSelectedItems w
  else (w, []).

(** The effect that runs when [options.tool] changes. *)
Definition onToolChange (t : Tool) (w : Whiteboard) : Whiteboard :=
  if negb (bool_decide (t = lasso)) then
    setDragStart None (setIsDragging false (setLassoPath [] (setSelectedElementIds ∅ w)))
  else w.

End Selection.

(** ** The socket hook and the message routing of the application *)

Module Transport.

(** A message, by the fields the client writes and reads; a field that is
    absent is [None].  [JSON.stringify] followed by [JSON.parse] gives these
    fields back as they were. *)
Record Message := mkMessage {
  msg_type : string;
  msg_data : option DrawEvent;
  msg_elementId : option string
}.

(** [{ ...event, clientId }]. *)
Definition withClientId (c : string) (event : DrawEvent) : DrawEvent :=
  mkDrawEvent (type event) (tool event) (color event) (lineWidth event)
    (lineType event) (points event) (timestamp event) (id event) (Some c)
    (text event) (fontSize event) (imageData event) (imageWidth event)
    (imageHeight event).

(** [sendMessage]: what goes on the wire; [isOpen] is whether the socket
    exists and its [readyState] is [OPEN]. *)
Definition sendMessage (isOpen : bool) (message : Message) : list Message :=
  if isOpen then [message] else [].

Definition sendDrawEvent (isOpen : bool) (clientId : string) (event : DrawEvent)
    : list Message :=
  let eventWithClientId := withClientId clientId event in
  sendMessage isOpen
    (mkMessage
       (if String.eqb (type event) "laser" || bool_decide (tool event = laser)
        then "laser" else "draw")
       (Some eventWithClientId) None).

Definition deleteElement (isOpen : bool) (elementId : string) : list Message :=
  sendMessage isOpen (mkMessage "delete" None (Some elementId)).

Definition clearCanvas (isOpen : bool) : list Message :=
  sendMessage isOpen (mkMessage "clear" None None).

Definition undo (isOpen : bool) : list Message :=
  sendMessage isOpen (mkMessage "undo" None None).

(** The [onDrawEvent] and [onDeleteElement] props of the whiteboard are
    [sendDrawEvent] and [deleteElement]. *)
Definition transmit (isOpen : bool) (clientId : string) (o : Outbound) : list Message :=
  match o with
  | SendDraw event => sendDrawEvent isOpen clientId event
  | SendDelete elementId => deleteElement isOpen elementId
  end.

(** The four handlers the application registers with [onMessage], each
    wrapping one subscription of the whiteboard.  The result is [None] when
    the handler throws: a draw or laser message without [data] makes the
    whiteboard read [event.type] of [undefined]. *)
Definition drawHandler (data : Message) (w : Whiteboard) : option Whiteboard :=
  if String.eqb (msg_type data) "draw" || String.eqb (msg_type data) "laser" then
    match msg_data data with
    | Some event => Some (Reconciler.onRemoteDrawEvent event w)
    | None => None
    end
  else Some w.

(** With [elementId] undefined the filter [el.id !== elementId] keeps every
    element. *)
Definition deleteHandler (data : Message) (w : Whiteboard) : Whiteboard :=
  if String.eqb (msg_type data) "delete" then
    match msg_elementId data with
    | Some elementId => Reconciler.onRemoteDeleteEvent elementId w
    | None => setElements (λ prev, prev) w
    end
  else w.

Definition clearHandler (data : Message) (w : Whiteboard) : Whiteboard :=
  if String.eqb (msg_type data) "clear" then Reconciler.onClearCanvas w else w.

Definition undoHandler (data : Message) (w : Whiteboard) : Whiteboard :=
  if String.eqb (msg_type data) "undo" && truthy_str (msg_elementId data) then
    match msg_elementId data with
    | Some elementId => Reconciler.onUndoCanvas elementId w
    | None => w
    end
  else w.

(** [messageHandlers.current.forEach(handler => handler(data))], the branch
    of [onmessage] for a message whose type is not ['init'], with the
    handlers in the order the whiteboard subscribes.  An ['init'] message
    never reaches the handlers (see [onmessage]): [dispatch] says nothing
    about it. *)
Definition dispatch (data : Message) (w : Whiteboard) : option Whiteboard :=
  match drawHandler data w with
  | Some w1 => Some (undoHandler data (clearHandler data (deleteHandler data w1)))
  | None => None
  end.

(** What [ws.onmessage] does with a parsed message.  An ['init'] message is
    kept by the hook, which calls [setCanvasState] (and [setClientId]) and no
    handler: the whiteboard then takes its elements from the new canvas
    state, which this model does not follow further.  Any other message goes
    to the handlers. *)
Inductive Received :=
| KeptByHook
| Handled (w : option Whiteboard).

Definition onmessage (data : Message) (w : Whiteboard) : Received :=
  if String.eqb (msg_type data) "init" then KeptByHook
  else Handled (dispatch data w).

(** The messages of a list, one after the other. *)
Fixpoint replay (ms : list Message) (w : Whiteboard) : option Whiteboard :=
  match ms with
  | [] => Some w
  | m :: ms' =>
    match dispatch m w with
    | Some w' => replay ms' w'
    | None => None
    end
  end.

End Transport.

(** ** Resizing a selected element (gesture revision) *)

Module Resize.

(** [type ResizeHandle = 'tl' | 'tr' | 'bl' | 'br' | 'start' | 'end']. *)
Inductive ResizeHandle := tl | tr | bl | br | start | end_.

#[global] Instance ResizeHandle_eq_dec : EqDecision ResizeHandle.
Proof. solve_decision. Defined.

(** The string a handle is at run time. *)
Definition handleName (h : ResizeHandle) : string :=
  match h with
  | tl => "tl" | tr => "tr" | bl => "bl" | br => "br"
  | start => "start" | end_ => "end"
  end.

(** [s.includes(c)] for a one-character [c]. *)
Fixpoint includes (s : string) (c : Ascii.ascii) : bool :=
  match s with
  | EmptyString => false
  | String a s' => Ascii.eqb a c || includes s' c
  end.

Section WithBuiltins.

Variable ctx : option (number → string → number).

(** [getResizeHandleAtPoint]: the outer [None] is the [TypeError] of reading
    [start.x] when a line or an arrow has no points; the inner one is
    [null]. *)
Definition getResizeHandleAtPoint (zoom : number) (point : Point) (element : DrawEvent)
    : option (option ResizeHandle) :=
  let threshold := (15 / zoom)%Q in
  if bool_decide (tool element = line) || bool_decide (tool element = arrow) then
    match points element with
    | [] => None
    | start_ :: _ =>
      let end_pt := List.last (points element) start_ in
      if (Qabs (x point - x start_) <? threshold)%Q
         && (Qabs (y point - y start_) <? threshold)%Q then Some (Some start)
      else if (Qabs (x point - x end_pt) <? threshold)%Q
              && (Qabs (y point - y end_pt) <? threshold)%Q then Some (Some end_)
      else Some None
    end
  else
    match Geometry.getElementBounds ctx element with
    | None => Some None
    | Some bounds =>
      if (Qabs (x point - minX bounds) <? threshold)%Q
         && (Qabs (y point - minY bounds) <? threshold)%Q then Some (Some tl)
      else if (Qabs (x point - maxX bounds) <? threshold)%Q
              && (Qabs (y point - minY bounds) <? threshold)%Q then Some (Some tr)
      else if (Qabs (x point - minX bounds) <? threshold)%Q
              && (Qabs (y point - maxY bounds) <? threshold)%Q then Some (Some bl)
      else if (Qabs (x point - maxX bounds) <? threshold)%Q
              && (Qabs (y point - maxY bounds) <? threshold)%Q then Some (Some br)
      else Some None
    end.

(** The body of the [map] callback of the resize branch of [onDrag], for the
    element whose id is [resizingElementId]. *)
Definition resized (resizeHandle : ResizeHandle) (point : Point) (el : DrawEvent)
    : DrawEvent :=
  match Geometry.getElementBounds ctx el with
  | None => el
  | Some bounds =>
    let name := handleName resizeHandle in
    let minX := if includes name "l"%char then x point else minX bounds in
    let maxX := if includes name "r"%char then x point else maxX bounds in
    let minY := if includes name "t"%char then y point else minY bounds in
    let maxY := if includes name "b"%char then y point else maxY bounds in
    let maxX := if (maxX - minX <? 10)%Q then (minX + 10)%Q else maxX in
    let maxY := if (maxY - minY <? 10)%Q then (minY + 10)%Q else maxY in
    let newPoints :=
      if bool_decide (tool el = rectangle) || bool_decide (tool el = circle)
         || truthy_str (imageData el) then
        [mkPoint minX minY; mkPoint maxX maxY]
      else if bool_decide (tool el = line) || bool_decide (tool el = arrow) then
        match resizeHandle with
        | start => point :: List.tl (points el)
        | end_ => List.removelast (points el) ++ [point]
        | _ => points el
        end
      else points el in
    withPoints newPoints el
  end.

(** The updater of that branch. *)
Definition resize (resizeHandle : ResizeHandle) (resizingElementId : string)
    (point : Point) (prev : list DrawEvent) : list DrawEvent :=
  (λ el, if String.eqb (id el) resizingElementId
         then resized resizeHandle point el else el) <$> prev.

End WithBuiltins.
End Resize.

(** ** Pasting from the clipboard *)

Module Paste.
Section WithOptions.

Variable options : ToolOptions.

(** The size [img.onload] computes for an image of [width] by [height]:
    at most 800 on the longer side. *)
Definition fit (width height : number) : number * number :=
  let maxSize := 800%Q in
  if (width >? maxSize)%Q || (height >? maxSize)%Q then
    if (width >? height)%Q then (maxSize, (height / width) * maxSize)%Q
    else ((width / height) * maxSize, maxSize)%Q
  else (width, height).

(** [reader.onload] followed by [img.onload] for an image item: [imageData]
    is what the reader produced, [imgWidth] and [imgHeight] the size of the
    decoded image. *)
Definition pasteImage (imageData : option string) (imgWidth imgHeight : number)
    (now : number) (newId : string) (ed : Editor) : Editor * list Outbound :=
  if negb (truthy_str imageData) then (ed, [])
  else
    let '(width, height) := fit imgWidth imgHeight in
    let pasteX := (x (lastMousePos ed) - width / 2)%Q in
    let pasteY := (y (lastMousePos ed) - height / 2)%Q in
    let drawEvent :=
      mkDrawEvent "draw" pen (opt_color options) (opt_lineWidth options)
        (opt_lineType options) [mkPoint pasteX pasteY] now newId None None None
        imageData (Some width) (Some height) in
    (withBoard (setElements (λ prev, prev ++ [drawEvent])) ed, [SendDraw drawEvent]).

(** The callback of [getAsString] for a ['text/plain'] item. *)
Definition pasteText (text : string) (now : number) (newId : string) (ed : Editor)
    : Editor * list Outbound :=
  let pasteX := x (lastMousePos ed) in
  let pasteY := y (lastMousePos ed) in
  let drawEvent :=
    mkDrawEvent "draw" text_tool (opt_color options) (opt_lineWidth options)
      (opt_lineType options) [mkPoint pasteX pasteY] now newId None (Some text)
      (Some (opt_lineWidth options * 6)%Q) None None None in
  (withBoard (setElements (λ prev, prev ++ [drawEvent])) ed, [SendDraw drawEvent]).

End WithOptions.
End Paste.

(** ** The background pattern *)

Module Background.

(** [BackgroundStyle] of [types.ts]. *)
Inductive BackgroundStyle := blank | grid | dots | lines.

(** What is drawn on top of the white fill, in world coordinates (the
    context is translated by the offset and scaled by the zoom): a segment
    from [moveTo] to [lineTo], or a dot.  The coordinates are multiples of
    50 computed from [Math.floor] and [Math.ceil]: integers. *)
Inductive Stroke :=
| Segment (x0 y0 x1 y1 : Z)
| Dot (cx cy : Z).

(** [for (let v = start; v <= end_; v += 50)]: the values [v] takes.  The
    loop ends by its condition before the fuel runs out when the fuel is at
    least [end_ - start + 1]. *)
Fixpoint loop (fuel : nat) (v end_ : Z) : list Z :=
  match fuel with
  | O => []
  | S fuel' => if (v <=? end_)%Z then v :: loop fuel' (v + 50)%Z end_ else []
  end.

Definition steps (start end_ : Z) : list Z :=
  loop (Z.to_nat (end_ - start + 1)) start end_.

(** [drawBackground], for a zoom that is not 0 ([None] otherwise: the
    divisions then leave the rationals). *)
Definition drawBackground (style : BackgroundStyle) (width height : number)
    (offset : Point) (zoom : number) : option (list Stroke) :=
  match style with
  | blank => Some []
  | _ =>
    if (zoom =? 0)%Q then None else
    let startX := (Qfloor ((- x offset / zoom) / 50) * 50)%Z in
    let startY := (Qfloor ((- y offset / zoom) / 50) * 50)%Z in
    let endX := (Qceiling ((width - x offset) / zoom / 50) * 50)%Z in
    let endY := (Qceiling ((height - y offset) / zoom / 50) * 50)%Z in
    match style with
    | grid =>
      Some (((λ vx, Segment vx startY vx endY) <$> steps startX endX)
            ++ ((λ vy, Segment startX vy endX vy) <$> steps startY endY))
    | dots =>
      Some (vx ← steps startX endX; vy ← steps startY endY; [Dot vx vy])
    | lines =>
      Some ((λ vy, Segment startX vy endX vy) <$> steps startY endY)
    | blank => Some []
    end
  end.

(** A world point that the transform of the render pass puts on the canvas. *)
Definition visible (width height : number) (offset : Point) (zoom : number)
    (world : Point) : Prop :=
  let s := Viewport.toScreen offset zoom world in
  (0 <= x s ∧ x s <= width ∧ 0 <= y s ∧ y s <= height)%Q.

End Background.

(** ** More sample data: editors in the middle of a gesture *)

Module Scenes.

(** A stroke that lost its points. *)
Definition emptyStroke : DrawEvent := Samples.stroke "e" pen [].

(** A pasted image of 40 by 20 at (10, 10). *)
Definition image : DrawEvent :=
  mkDrawEvent "draw" pen "#000000" 4 solid [mkPoint 10 10] 0 "img" None None None
    (Some "data:image/png;base64,AAAA"%string) (Some 40%Q) (Some 20%Q).

(** A circle of radius 50 around the origin. *)
Definition circleBig : DrawEvent :=
  Samples.stroke "c1" circle [mkPoint 0 0; mkPoint 30 40].

Definition penOptions : ToolOptions := mkToolOptions pen "#000000" 4 solid.
Definition eraserOptions : ToolOptions := mkToolOptions object_eraser "#000000" 4 solid.

Definition middleDown : MouseEvent := mkMouseEvent 1 false 10 10.
Definition leftDown : MouseEvent := mkMouseEvent 0 false 10 10.
Definition moveTo (clientX clientY : number) : MouseEvent :=
  mkMouseEvent 0 false clientX clientY.

(** The lasso tool dragging the selected [penA] from the origin. *)
Definition dragging : Editor :=
  withBoard
    (λ w, setDragStart (Some (mkPoint 0 0))
            (setIsDragging true (setSelectedElementIds {[ "a"%string ]} w)))
    (initialEditor [Samples.penA; Samples.penB]).

(** The object eraser in the middle of a drag. *)
Definition erasing : Editor :=
  withBoard (setIsDrawing true) (initialEditor [Samples.penA; Samples.penB]).

(** The text input open on the caption of [rectSmall]. *)
Definition captioning : Editor :=
  setTextInput (Some (mkPoint 3 3)) "hello" (Some "r1"%string)
    (initialEditor [Samples.rectSmall; Samples.penB]).

(** A rectangle that has only its bottom-right corner inside
    [Samples.triangle]. *)
Definition rectCornerIn : DrawEvent :=
  Samples.stroke "r4" rectangle [mkPoint (-5) (-5); mkPoint 3 3].

(** A lasso of four vertices around [Samples.rectSmall]. *)
Definition square : list Point :=
  [mkPoint 0 0; mkPoint 10 0; mkPoint 10 10; mkPoint 0 10].

(** A small pasted image, 5 by 5 at the origin. *)
Definition imageSmall : DrawEvent :=
  mkDrawEvent "draw" pen "#000000" 4 solid [mkPoint 0 0] 0 "img5" None None None
    (Some "data:image/png;base64,AAAA"%string) (Some 5%Q) (Some 5%Q).

(** The whiteboard after a remote laser stroke stamped at time 0. *)
Definition laserShown : Whiteboard :=
  Reconciler.onRemoteDrawEvent Samples.laserStroke (initialState [Samples.penA]).

(** A stand-in for the emptiness test after [trim]: exact on strings without
    white space. *)
Definition blankIfEmpty (s : string) : bool := String.eqb s "".

End Scenes.

(** * Properties *)

(** ** Helper lemmas: comparisons *)

Lemma Qltb_lt (a b : Q) : (a <? b)%Q = true ↔ (a < b)%Q.
Proof.
  unfold Qltb. rewrite negb_true_iff, <- not_true_iff_false, Qle_bool_iff.
  split; [apply Qnot_le_lt | apply Qlt_not_le].
Qed.

Lemma Qltb_ge (a b : Q) : (a <? b)%Q = false ↔ (b <= a)%Q.
Proof. unfold Qltb. rewrite negb_false_iff. apply Qle_bool_iff. Qed.

Lemma Qgtb_gt (a b : Q) : (a >? b)%Q = true ↔ (b < a)%Q.
Proof. apply Qltb_lt. Qed.

Lemma Qgtb_le (a b : Q) : (a >? b)%Q = false ↔ (a <= b)%Q.
Proof. apply Qltb_ge. Qed.

Lemma Qgeb_ge (a b : Q) : (a >=? b)%Q = true ↔ (b <= a)%Q.
Proof. apply Qle_bool_iff. Qed.



Lemma Qeqb_neq (a b : Q) : (a =? b)%Q = false ↔ ¬ (a == b)%Q.
Proof. rewrite <- not_true_iff_false, Qeq_bool_iff. tauto. Qed.

(** ** Helper lemmas: [findIndex] *)

Lemma findIndex_Some {A} (p : A → bool) (l : list A) (i : nat) :
  findIndex p l = Some i →
  ∃ a, l !! i = Some a ∧ p a = true ∧
       ∀ j b, (j < i)%nat → l !! j = Some b → p b = false.
Proof.
  revert i. induction l as [|a l IH]; intros i; simpl; [discriminate|].
  destruct (p a) eqn:Hpa.
  - intros [= <-]. exists a. repeat split; auto. intros j b Hj. lia.
  - destruct (findIndex p l) as [k|]; simpl; [|discriminate].
    intros [= <-]. destruct (IH k eq_refl) as (a' & Hl & Hp & Hmin).
    exists a'. repeat split; auto.
    intros [|j] b Hj; simpl.
    + intros [= <-]. exact Hpa.
    + apply Hmin. lia.
Qed.

Lemma findIndex_None {A} (p : A → bool) (l : list A) :
  findIndex p l = None ↔ ∀ a, a ∈ l → p a = false.
Proof.
  induction l as [|a l IH]; simpl.
  - split; [intros _ a Ha; inversion Ha | reflexivity].
  - destruct (p a) eqn:Hpa.
    + split; [discriminate|]. intros H. rewrite (H a) in Hpa; [discriminate|]. left.
    + destruct (findIndex p l) as [k|]; simpl.
      * split; [discriminate|]. intros H.
        assert (Some k = None) as [=]. apply IH. intros b Hb. apply H. by right.
      * split; [|reflexivity]. intros _ b Hb.
        apply elem_of_cons in Hb as [->|Hb]; [exact Hpa|].
        by apply IH.
Qed.

Lemma findIndex_id_Some (ident : string) (l : list DrawEvent) :
  ident ∈ id <$> l →
  ∃ i, findIndex (λ el, String.eqb (id el) ident) l = Some i.
Proof.
  intros Hin. destruct (findIndex _ l) as [i|] eqn:Hf; [eauto|].
  exfalso. apply list_elem_of_fmap in Hin as (el & -> & Hel).
  rewrite findIndex_None in Hf. specialize (Hf el Hel).
  simpl in Hf. by rewrite String.eqb_refl in Hf.
Qed.

Lemma findIndex_id_None (ident : string) (l : list DrawEvent) :
  ident ∉ id <$> l →
  findIndex (λ el, String.eqb (id el) ident) l = None.
Proof.
  intros Hnin. apply findIndex_None. intros el Hel. simpl.
  apply String.eqb_neq. intros Heq. apply Hnin.
  apply list_elem_of_fmap. eauto.
Qed.

(** ** The reconciler *)

Lemma upsert_present (event : DrawEvent) (prev : list DrawEvent) :
  id event ∈ id <$> prev →
  ∃ i el, prev !! i = Some el ∧ id el = id event ∧
          (∀ j el', (j < i)%nat → prev !! j = Some el' → id el' ≠ id event) ∧
          Reconciler.upsert event prev = <[i := event]> prev.
Proof.
  intros Hin. destruct (findIndex_id_Some _ _ Hin) as [i Hi].
  destruct (findIndex_Some _ _ _ Hi) as (el & Hl & Hp & Hmin).
  exists i, el. unfold Reconciler.upsert. rewrite Hi.
  repeat split; auto.
  - by apply String.eqb_eq.
  - intros j el' Hj Hl'. apply String.eqb_neq. eapply (Hmin j); eauto.
Qed.

Lemma upsert_absent (event : DrawEvent) (prev : list DrawEvent) :
  id event ∉ id <$> prev → Reconciler.upsert event prev = prev ++ [event].
Proof.
  intros Hnin. unfold Reconciler.upsert. by rewrite findIndex_id_None.
Qed.

Lemma upsert_ids_present (event : DrawEvent) (prev : list DrawEvent) :
  id event ∈ id <$> prev → id <$> Reconciler.upsert event prev = id <$> prev.
Proof.
  intros Hin. destruct (upsert_present _ _ Hin) as (i & el & Hl & Hid & _ & ->).
  rewrite list_fmap_insert. apply list_insert_id.
  by rewrite list_lookup_fmap, Hl, <- Hid.
Qed.

(** C1.  Upsert semantics of the remote-draw handler.  For a remote draw
    event that is not a laser event: when an element with the id of the event
    is in the list, the handler overwrites the first such element, at its own
    index, and the length of the list does not change; when no element has
    that id, the event is appended and the length grows by exactly one. *)
Theorem onRemoteDrawEvent_upsert (event : DrawEvent) (w : Whiteboard) :
  Reconciler.isLaserEvent event = false →
  let w' := Reconciler.onRemoteDrawEvent event w in
  (id event ∈ id <$> elements w →
     length (elements w') = length (elements w) ∧
     ∃ i el, elements w !! i = Some el ∧ id el = id event ∧
             (∀ j el', (j < i)%nat → elements w !! j = Some el' → id el' ≠ id event) ∧
             elements w' = <[i := event]> (elements w) ∧
             elements w' !! i = Some event)
  ∧ (id event ∉ id <$> elements w →
     elements w' = elements w ++ [event] ∧
     length (elements w') = S (length (elements w))).
Proof.
  intros Hl. unfold Reconciler.onRemoteDrawEvent. rewrite Hl. simpl. split.
  - intros Hin. destruct (upsert_present _ _ Hin) as (i & el & Hi & Hid & Hmin & Heq).
    rewrite Heq. split; [apply length_insert|].
    exists i, el. repeat split; auto.
    apply list_lookup_insert_eq. by eapply lookup_lt_Some.
  - intros Hnin. rewrite (upsert_absent _ _ Hnin). split; [done|].
    rewrite length_app. simpl. lia.
Qed.

(** C10.  The remote-draw handler keeps ids unique: from a list with pairwise
    distinct ids, a remote draw event that is not a laser event gives a list
    with pairwise distinct ids. *)
Theorem onRemoteDrawEvent_NoDup (event : DrawEvent) (w : Whiteboard) :
  Reconciler.isLaserEvent event = false →
  NoDup (id <$> elements w) →
  NoDup (id <$> elements (Reconciler.onRemoteDrawEvent event w)).
Proof.
  intros Hl Hnd. unfold Reconciler.onRemoteDrawEvent. rewrite Hl. simpl.
  destruct (decide (id event ∈ id <$> elements w)) as [Hin|Hnin].
  - by rewrite upsert_ids_present.
  - rewrite (upsert_absent _ _ Hnin), fmap_app. simpl.
    apply NoDup_app. repeat split; auto.
    + intros i Hi Hi'. apply list_elem_of_singleton in Hi'. by subst.
    + apply NoDup_singleton.
Qed.

(** ** The decay scheduler *)

Lemma fadeEntry_fold (clock : string → number) (m0 m : gmap string LaserEntry) :
  m ⊆ m0 →
  let r := map_fold (λ key value acc, Decay.fadeEntry (clock key) key value acc)
                    (m0, false) m in
  (∀ k, r.1 !! k = match m !! k with
                   | Some v => Decay.faded (clock k) v
                   | None => m0 !! k
                   end)
  ∧ (r.2 = false → ∀ k v, m !! k = Some v → Decay.faded (clock k) v = Some v).
Proof.
  apply (map_fold_weak_ind (λ r m, m ⊆ m0 →
    (∀ k, r.1 !! k = match m !! k with
                     | Some v => Decay.faded (clock k) v
                     | None => m0 !! k
                     end)
    ∧ (r.2 = false → ∀ k v, m !! k = Some v → Decay.faded (clock k) v = Some v))).
  - intros _. split; [intros k; by rewrite lookup_empty | intros _ k v; by rewrite lookup_empty].
  - intros i v m' [newMap hasChanges] Hi IH Hsub.
    assert (m0 !! i = Some v) as H0.
    { eapply lookup_weaken; [|exact Hsub]. apply lookup_insert_eq. }
    destruct IH as [IH1 IH2].
    { etrans; [|exact Hsub]. by apply insert_subseteq. }
    simpl in IH1, IH2.
    assert (newMap !! i = Some v) as Hcur by (by rewrite IH1, Hi).
    unfold Decay.fadeEntry, Decay.faded.
    destruct (_ >? _)%Q eqn:Hold; simpl.
    + split; [|discriminate]. intros k.
      destruct (decide (i = k)) as [<-|Hne].
      * by rewrite lookup_delete_eq, lookup_insert_eq, Hold.
      * rewrite lookup_delete_ne, lookup_insert_ne by done. apply IH1.
    + destruct (_ >? Decay.fadeStart)%Q eqn:Hfade; simpl.
      * destruct (negb _) eqn:Hneq; simpl.
        -- split; [|discriminate]. intros k.
           destruct (decide (i = k)) as [<-|Hne].
           ++ by rewrite !lookup_insert_eq, Hold, Hfade, Hneq.
           ++ rewrite !lookup_insert_ne by done. apply IH1.
        -- split.
           ++ intros k. destruct (decide (i = k)) as [<-|Hne].
              ** by rewrite lookup_insert_eq, Hold, Hfade, Hneq.
              ** rewrite lookup_insert_ne by done. apply IH1.
           ++ intros Hc k v'. destruct (decide (i = k)) as [<-|Hne].
              ** rewrite lookup_insert_eq. intros [= <-]. by rewrite Hold, Hfade, Hneq.
              ** rewrite lookup_insert_ne by done. by apply IH2.
      * split.
        -- intros k. destruct (decide (i = k)) as [<-|Hne].
           ++ by rewrite lookup_insert_eq, Hold, Hfade.
           ++ rewrite lookup_insert_ne by done. apply IH1.
        -- intros Hc k v'. destruct (decide (i = k)) as [<-|Hne].
           ++ rewrite lookup_insert_eq. intros [= <-]. by rewrite Hold, Hfade.
           ++ rewrite lookup_insert_ne by done. by apply IH2.
Qed.

Lemma tick_lookup (clock : string → number) (prev : gmap string LaserEntry) (k : string) :
  Decay.tick clock prev !! k = prev !! k ≫= Decay.faded (clock k).
Proof.
  unfold Decay.tick.
  destruct (fadeEntry_fold clock prev prev) as [H1 H2]; [done|].
  destruct (map_fold _ _ _) as [newMap hasChanges]. simpl in H1, H2.
  destruct hasChanges.
  - rewrite H1. by destruct (prev !! k).
  - destruct (prev !! k) as [v|] eqn:Hk; simpl; [|done].
    symmetry. by eapply H2.
Qed.

Lemma faded_early (now : number) (v : LaserEntry) :
  (now - timestamp (element v) <= 1500)%Q → Decay.faded now v = Some v.
Proof.
  intros H. unfold Decay.faded, Decay.fadeStart, Decay.fadeDuration.
  destruct (_ >? 1500 + 1000)%Q eqn:H1; [apply Qgtb_gt in H1; lra|].
  destruct (_ >? 1500)%Q eqn:H2; [apply Qgtb_gt in H2; lra|]. done.
Qed.

Lemma faded_mid (now : number) (v : LaserEntry) :
  (1500 < now - timestamp (element v))%Q →
  (now - timestamp (element v) <= 2500)%Q →
  ∃ o, Decay.faded now v = Some (mkLaserEntry (element v) o) ∧
       (o == 1 - (now - timestamp (element v) - 1500) / 1000)%Q.
Proof.
  intros Hlo Hhi. unfold Decay.faded, Decay.fadeStart, Decay.fadeDuration.
  destruct (_ >? 1500 + 1000)%Q eqn:H1; [apply Qgtb_gt in H1; lra|].
  destruct (_ >? 1500)%Q eqn:H2; [|apply Qgtb_le in H2; lra].
  destruct (negb _) eqn:Hneq.
  - eexists. split; [reflexivity|]. reflexivity.
  - apply negb_false_iff, Qeq_bool_iff in Hneq.
    destruct v as [e o]. simpl in *. exists o. split; [reflexivity | exact Hneq].
Qed.

Lemma faded_late (now : number) (v : LaserEntry) :
  (2500 < now - timestamp (element v))%Q → Decay.faded now v = None.
Proof.
  intros H. unfold Decay.faded, Decay.fadeStart, Decay.fadeDuration.
  destruct (_ >? 1500 + 1000)%Q eqn:H1; [done|]. apply Qgtb_le in H1. lra.
Qed.

Lemma faded_element (now : number) (v v' : LaserEntry) :
  Decay.faded now v = Some v' → element v' = element v.
Proof.
  unfold Decay.faded. repeat case_match; intros [= <-]; done.
Qed.

Lemma ticks_snoc (clocks : list (string → number)) (clock : string → number)
    (m : gmap string LaserEntry) :
  Decay.ticks (clocks ++ [clock]) m = Decay.tick clock (Decay.ticks clocks m).
Proof. unfold Decay.ticks. by rewrite fold_left_app. Qed.

(** While every tick comes no later than [T], and [T] is within the fade
    window of an entry, the entry stays in the map; it stays untouched while
    [T] is before the window. *)
Lemma ticks_keep (clocks : list (string → number)) (T : number) (key : string) :
  ∀ (m : gmap string LaserEntry) (v : LaserEntry),
  m !! key = Some v →
  (∀ c, c ∈ clocks → (c key <= T)%Q) →
  (T - timestamp (element v) <= 2500)%Q →
  ∃ v', Decay.ticks clocks m !! key = Some v' ∧ element v' = element v ∧
        ((T - timestamp (element v) <= 1500)%Q → v' = v).
Proof.
  induction clocks as [|c clocks IH]; intros m v Hm Hc HT.
  - exists v. by repeat split.
  - assert (c key <= T)%Q as HcT by (apply Hc; left).
    assert (∃ v1, Decay.tick c m !! key = Some v1 ∧ element v1 = element v ∧
                  ((T - timestamp (element v) <= 1500)%Q → v1 = v))
      as (v1 & H1 & He & Hsame).
    { rewrite tick_lookup, Hm. simpl.
      destruct (Qlt_le_dec 1500 (c key - timestamp (element v))) as [Hlt|Hle].
      - destruct (faded_mid (c key) v Hlt) as (o & -> & _); [lra|].
        eexists. repeat split. intros; lra.
      - rewrite faded_early by done. eauto. }
    destruct (IH (Decay.tick c m) v1 H1) as (v' & Hv' & He' & Hsame').
    { intros c' Hc'. apply Hc. by right. }
    { by rewrite He. }
    exists v'. simpl. split; [exact Hv'|]. split; [congruence|].
    intros Hle. rewrite <- (Hsame Hle). apply Hsame'. by rewrite He.
Qed.

Lemma ticks_window (clocks : list (string → number)) (clock : string → number)
    (m : gmap string LaserEntry) (key : string) (e : DrawEvent) :
  m !! key = Some (mkLaserEntry e 1) →
  (∀ c, c ∈ clocks → (c key <= clock key)%Q) →
  (timestamp e + 1500 <= clock key)%Q →
  (clock key <= timestamp e + 2500)%Q →
  ∃ o, Decay.ticks (clocks ++ [clock]) m !! key = Some (mkLaserEntry e o) ∧
       (o == 1 - (clock key - timestamp e - 1500) / 1000)%Q.
Proof.
  intros Hm Hc Hlo Hhi. rewrite ticks_snoc, tick_lookup.
  destruct (ticks_keep clocks (clock key) key m _ Hm Hc) as (v' & -> & He & Hsame).
  { simpl. lra. }
  simpl in *.
  destruct (Qlt_le_dec 1500 (clock key - timestamp (element v'))) as [Hlt|Hle].
  - destruct (faded_mid (clock key) v' Hlt) as (o & -> & Ho); [rewrite He; lra|].
    rewrite He in *. exists o. split; [done|]. rewrite Ho. field.
  - rewrite faded_early by done. rewrite Hsame by (rewrite <- He; done).
    exists 1%Q. split; [done|]. rewrite He in Hle.
    assert (clock key - timestamp e - 1500 == 0)%Q as -> by lra. reflexivity.
Qed.

Lemma ticks_element (clocks : list (string → number)) (key : string) :
  ∀ (m : gmap string LaserEntry) (v v' : LaserEntry),
  m !! key = Some v → Decay.ticks clocks m !! key = Some v' →
  element v' = element v.
Proof.
  induction clocks as [|c clocks IH]; intros m v v' Hm Hv'; simpl in Hv'.
  - rewrite Hm in Hv'. by injection Hv' as <-.
  - destruct (Decay.tick c m !! key) as [v1|] eqn:H1.
    + rewrite (IH _ _ _ H1 Hv'). rewrite tick_lookup, Hm in H1.
      by apply faded_element in H1.
    + exfalso. clear IH. revert H1 Hv'. generalize (Decay.tick c m). clear.
      induction clocks as [|c' clocks IH]; intros m' H1 Hv'; simpl in Hv'.
      * congruence.
      * apply (IH (Decay.tick c' m')); [|done].
        by rewrite tick_lookup, H1.
Qed.

(** C2 (as the code has it).  An entry written at [t0] with opacity 1 and
    observed by a tick at time [t], no earlier tick having come later than
    [t]: its opacity is 1 for [t < t0 + 1500]; for [t] from [t0 + 1500] to
    [t0 + 2500], both included, it is [1 - (t - t0 - 1500) / 1000], strictly
    decreasing in [t]; and the entry is absent for [t > t0 + 2500]. *)
Theorem decay_timeline (clocks : list (string → number)) (clock : string → number)
    (m : gmap string LaserEntry) (key : string) (e : DrawEvent) :
  m !! key = Some (mkLaserEntry e 1) →
  (∀ c, c ∈ clocks → (c key <= clock key)%Q) →
  let t0 := timestamp e in
  let t := clock key in
  let m' := Decay.ticks (clocks ++ [clock]) m in
  ((t < t0 + 1500)%Q → m' !! key = Some (mkLaserEntry e 1))
  ∧ ((t0 + 1500 <= t)%Q → (t <= t0 + 2500)%Q →
       ∃ o, m' !! key = Some (mkLaserEntry e o) ∧
            (o == 1 - (t - t0 - 1500) / 1000)%Q)
  ∧ (∀ (clocks2 : list (string → number)) (clock2 : string → number),
       (∀ c, c ∈ clocks2 → (c key <= clock2 key)%Q) →
       (t0 + 1500 <= t)%Q → (t < clock2 key)%Q → (clock2 key <= t0 + 2500)%Q →
       ∃ o o2, m' !! key = Some (mkLaserEntry e o) ∧
               Decay.ticks (clocks2 ++ [clock2]) m !! key = Some (mkLaserEntry e o2) ∧
               (o2 < o)%Q)
  ∧ ((t0 + 2500 < t)%Q → m' !! key = None).
Proof.
  intros Hm Hc t0 t m'. subst t0 t m'. repeat split.
  - intros Hlt. rewrite ticks_snoc, tick_lookup.
    destruct (ticks_keep clocks (clock key) key m _ Hm Hc) as (v' & -> & He & Hsame).
    { simpl. lra. }
    simpl in *. rewrite Hsame by lra. simpl.
    apply faded_early. simpl. lra.
  - intros Hlo Hhi. by apply ticks_window.
  - intros clocks2 clock2 Hc2 Hlo Hlt Hhi.
    destruct (ticks_window clocks clock m key e Hm Hc Hlo) as (o & Ho & Hoeq); [lra|].
    destruct (ticks_window clocks2 clock2 m key e Hm Hc2) as (o2 & Ho2 & Ho2eq); [lra..|].
    exists o, o2. repeat split; auto.
    unfold Qdiv in *. change (/ 1000)%Q with (1 # 1000)%Q in *. lra.
  - intros Hlate. rewrite ticks_snoc, tick_lookup.
    destruct (Decay.ticks clocks m !! key) as [v'|] eqn:Hv'; simpl; [|done].
    apply faded_late. rewrite (ticks_element _ _ _ _ _ Hm Hv'). simpl. lra.
Qed.

(** ** Clearing the canvas *)

(** C4 (as the code has it).  The clear handler empties the element list and
    writes nothing else: the selection set and the lasso path (and the laser
    map) are the ones the component had before the event. *)
Theorem onClearCanvas_elements_only (w : Whiteboard) :
  let w' := Reconciler.onClearCanvas w in
  elements w' = [] ∧
  selectedElementIds w' = selectedElementIds w ∧
  lassoPath w' = lassoPath w ∧
  laserElements w' = laserElements w.
Proof. by repeat split. Qed.

(** ** Laser strokes *)

Lemma handleMouseUp_laser_elements (ctx : option (number → string → number))
    (options : ToolOptions) (now : number) (newId : string) (w : Whiteboard) :
  opt_tool options = laser →
  elements (Gesture.handleMouseUp ctx options now newId w).1 = elements w.
Proof.
  intros Ht. unfold Gesture.handleMouseUp. rewrite Ht. simpl.
  destruct (isPanning w); [done|].
  destruct (isDrawing w); simpl; [|done].
  destruct (0 <? length (currentPoints w))%nat; done.
Qed.

Lemma handleMouseUp_laser_commit (ctx : option (number → string → number))
    (options : ToolOptions) (now : number) (newId : string) (w : Whiteboard) :
  opt_tool options = laser →
  isPanning w = false → isDrawing w = true → currentPoints w ≠ [] →
  let drawEvent :=
    mkDrawEvent "laser" laser (opt_color options) (opt_lineWidth options)
      (opt_lineType options) (currentPoints w) now newId
      None None None None None None in
  Gesture.handleMouseUp ctx options now newId w =
    (setCurrentPoints [] (setIsDrawing false
       (setLaserElements (λ prev, <[newId := mkLaserEntry drawEvent 1]> prev) w)),
     [SendDraw drawEvent]).
Proof.
  intros Ht Hp Hd Hpts. unfold Gesture.handleMouseUp. rewrite Ht, Hp, Hd. simpl.
  destruct (currentPoints w) as [|p ps] eqn:Hcp; [done|]. reflexivity.
Qed.

(** What the interval does to one entry of the laser map: it removes the
    entry when it sees it more than 2500 ms after the timestamp of its
    stroke, and keeps it until then, with opacity 0 at exactly 2500 ms. *)
Lemma onInterval_entry (clock : string → number) (w : Whiteboard) (key : string)
    (v : LaserEntry) :
  laserElements w !! key = Some v →
  ((2500 < clock key - timestamp (element v))%Q →
   laserElements (Decay.onInterval clock w) !! key = None)
  ∧ ((clock key - timestamp (element v) <= 2500)%Q →
     ∃ v', laserElements (Decay.onInterval clock w) !! key = Some v'
           ∧ element v' = element v
           ∧ ((clock key - timestamp (element v) == 2500)%Q → (opacity v' == 0)%Q)).
Proof.
  intros Hv. unfold Decay.onInterval. cbn [laserElements setLaserElements].
  rewrite tick_lookup, Hv. cbn [mbind option_bind]. split.
  - apply faded_late.
  - intros Hin.
    destruct (Qlt_le_dec 1500 (clock key - timestamp (element v))) as [Hmid|Hearly].
    + destruct (faded_mid (clock key) v Hmid Hin) as (o & -> & Ho).
      eexists. split; [reflexivity|]. split; [reflexivity|].
      intros Hage. cbn [opacity]. rewrite Ho, Hage. reflexivity.
    + rewrite faded_early by done. exists v. split; [done|]. split; [done|].
      intros Hage. lra.
Qed.

(** C8 (amended).  Laser strokes never enter the persistent element list.
    With the laser tool, [handleMouseUp] leaves the list as it was, and the
    stroke it commits goes into the laser map with opacity 1; a remote laser
    event does the same; the interval of the decay does not write the list
    either.  The interval removes an entry of the laser map of the component
    when it sees it more than 2500 ms after the timestamp of its stroke, and
    not before: at exactly 2500 ms the opacity is 0 and the entry is still in
    the map.  So the stroke a gesture committed, and the one a remote event
    brought, are in the map at every run of the interval up to 2500 ms after
    their timestamp and gone at a run after that; and once a tick has
    brought the opacity of an entry to 0, any later tick removes the
    entry. *)
Theorem laser_never_persisted :
  (∀ ctx options now newId w,
     opt_tool options = laser →
     let r := Gesture.handleMouseUp ctx options now newId w in
     elements r.1 = elements w ∧
     (isPanning w = false → isDrawing w = true → currentPoints w ≠ [] →
      ∃ drawEvent,
        type drawEvent = "laser"%string ∧ tool drawEvent = laser ∧
        id drawEvent = newId ∧ timestamp drawEvent = now ∧
        points drawEvent = currentPoints w ∧
        laserElements r.1 = <[newId := mkLaserEntry drawEvent 1]> (laserElements w)))
  ∧ (∀ event w,
       Reconciler.isLaserEvent event = true →
       let w' := Reconciler.onRemoteDrawEvent event w in
       elements w' = elements w ∧
       laserElements w' = <[id event := mkLaserEntry event 1]> (laserElements w))
  ∧ (∀ clock w, elements (Decay.onInterval clock w) = elements w)
  ∧ (∀ clock w key v,
       laserElements w !! key = Some v →
       ((2500 < clock key - timestamp (element v))%Q →
        laserElements (Decay.onInterval clock w) !! key = None)
       ∧ ((clock key - timestamp (element v) <= 2500)%Q →
          ∃ v', laserElements (Decay.onInterval clock w) !! key = Some v'
                ∧ element v' = element v
                ∧ ((clock key - timestamp (element v) == 2500)%Q →
                   (opacity v' == 0)%Q)))
  ∧ (∀ ctx options now newId w clock,
       opt_tool options = laser →
       isPanning w = false → isDrawing w = true → currentPoints w ≠ [] →
       let committed := (Gesture.handleMouseUp ctx options now newId w).1 in
       ((2500 < clock newId - now)%Q →
        laserElements (Decay.onInterval clock committed) !! newId = None)
       ∧ ((clock newId - now <= 2500)%Q →
          is_Some (laserElements (Decay.onInterval clock committed) !! newId)))
  ∧ (∀ event w clock,
       Reconciler.isLaserEvent event = true →
       let shown := Reconciler.onRemoteDrawEvent event w in
       ((2500 < clock (id event) - timestamp event)%Q →
        laserElements (Decay.onInterval clock shown) !! id event = None)
       ∧ ((clock (id event) - timestamp event <= 2500)%Q →
          is_Some (laserElements (Decay.onInterval clock shown) !! id event)))
  ∧ (∀ clock (m : gmap string LaserEntry) key v,
       m !! key = Some v →
       (2500 < clock key - timestamp (element v))%Q →
       Decay.tick clock m !! key = None)
  ∧ (∀ clock clock' (m : gmap string LaserEntry) key e v,
       m !! key = Some (mkLaserEntry e 1) →
       Decay.tick clock m !! key = Some v →
       (opacity v == 0)%Q →
       (clock key < clock' key)%Q →
       Decay.tick clock' (Decay.tick clock m) !! key = None).
Proof.
  split; [|split; [|split; [|split; [|split; [|split; [|split]]]]]].
  - intros ctx options now newId w Htool r. subst r. split.
    + by apply handleMouseUp_laser_elements.
    + intros Hp Hd Hpts. eexists.
      rewrite (handleMouseUp_laser_commit ctx options now newId w) by done.
      simpl. by repeat split.
  - intros event w Hlaser w'. subst w'.
    unfold Reconciler.onRemoteDrawEvent. by rewrite Hlaser.
  - reflexivity.
  - intros clock w key v Hv. by apply onInterval_entry.
  - intros ctx options now newId w clock Htool Hp Hd Hpts committed. subst committed.
    rewrite (handleMouseUp_laser_commit ctx options now newId w) by done.
    cbn [fst].
    match goal with
    | |- context [Decay.onInterval clock ?c] =>
        destruct (onInterval_entry clock c newId
                    (mkLaserEntry
                       (mkDrawEvent "laser" laser (opt_color options)
                          (opt_lineWidth options) (opt_lineType options)
                          (currentPoints w) now newId None None None None None None) 1))
          as [Hgone Hkept]; [apply lookup_insert_eq|]
    end.
    split; [exact Hgone|]. intros Hin. destruct (Hkept Hin) as (v' & -> & _). by eexists.
  - intros event w clock Hlaser shown. subst shown.
    destruct (onInterval_entry clock (Reconciler.onRemoteDrawEvent event w) (id event)
                (mkLaserEntry event 1)) as [Hgone Hkept].
    { unfold Reconciler.onRemoteDrawEvent. rewrite Hlaser. apply lookup_insert_eq. }
    split; [exact Hgone|]. intros Hin. destruct (Hkept Hin) as (v' & -> & _). by eexists.
  - intros clock m key v Hm Hlate. rewrite tick_lookup, Hm. simpl.
    by apply faded_late.
  - intros clock clock' m key e v Hm Hv Hzero Hlt.
    rewrite tick_lookup, Hv. simpl. apply faded_late.
    rewrite tick_lookup, Hm in Hv. simpl in Hv.
    pose proof (faded_element _ _ _ Hv) as He. simpl in He. rewrite He.
    destruct (Qlt_le_dec 1500 (clock key - timestamp e)) as [Hmid|Hearly].
    + destruct (Qlt_le_dec 2500 (clock key - timestamp e)) as [Hlate|Hin].
      * rewrite faded_late in Hv by done. discriminate.
      * destruct (faded_mid (clock key) (mkLaserEntry e 1) Hmid Hin) as (o & Ho & Hoeq).
        rewrite Ho in Hv. injection Hv as <-. simpl in *.
        rewrite Hoeq in Hzero.
        unfold Qdiv in *. change (/ 1000)%Q with (1 # 1000)%Q in *. lra.
    + rewrite faded_early in Hv by done. injection Hv as <-. simpl in Hzero.
      exfalso. lra.
Qed.

(** ** The viewport *)

Lemma clampZoom_range (z : number) :
  (0.1 <= Qmin (Qmax 0.1 z) 5)%Q ∧ (Qmin (Qmax 0.1 z) 5 <= 5)%Q.
Proof.
  destruct (Q.max_spec 0.1 z) as [[? Hmax]|[? Hmax]];
  destruct (Q.min_spec (Qmax 0.1 z) 5) as [[? Hmin]|[? Hmin]];
  rewrite Hmin; rewrite ?Hmax in *; split; lra.
Qed.

Lemma handleWheel_range canvas clientX clientY deltaY (w : Whiteboard) :
  Viewport.zoomInRange w →
  Viewport.zoomInRange (Viewport.handleWheel canvas clientX clientY deltaY w).
Proof.
  intros Hw. destruct canvas as [rect|]; [|exact Hw].
  unfold Viewport.zoomInRange. simpl. apply clampZoom_range.
Qed.

Lemma handleWheel_clamps rect clientX clientY deltaY (w : Whiteboard) :
  Viewport.zoomInRange (Viewport.handleWheel (Some rect) clientX clientY deltaY w).
Proof. unfold Viewport.zoomInRange. simpl. apply clampZoom_range. Qed.

Lemma onWheel_range canvas clientX clientY dx dy ctrlKey (w : Whiteboard) :
  Viewport.zoomInRange w →
  Viewport.zoomInRange (Viewport.onWheel canvas clientX clientY dx dy ctrlKey w).
Proof.
  intros Hw. unfold Viewport.onWheel.
  destruct ctrlKey; [|exact Hw]. destruct canvas as [rect|]; [|exact Hw].
  unfold Viewport.zoomInRange. simpl. apply clampZoom_range.
Qed.

Lemma onPinch_range canvas cx cy ms first memo (w : Whiteboard) :
  Viewport.zoomInRange w →
  Viewport.zoomInRange (Viewport.onPinch canvas cx cy ms first memo w).1.
Proof.
  intros Hw. unfold Viewport.onPinch.
  destruct canvas as [rect|]; [|exact Hw]. destruct first; [exact Hw|].
  unfold Viewport.zoomInRange. simpl. apply clampZoom_range.
Qed.

Lemma handleTouchMove_pinch_range sqrt canvas touch1 touch2 (w w' : Whiteboard) :
  Viewport.zoomInRange w →
  Viewport.handleTouchMove_pinch sqrt canvas touch1 touch2 w = Some w' →
  Viewport.zoomInRange w'.
Proof.
  intros Hw. unfold Viewport.handleTouchMove_pinch.
  destruct (isPanning w); [|discriminate]. intros [= <-].
  unfold Viewport.zoomInRange. simpl.
  destruct (lastPinchDistance w) as [last|]; [|exact Hw].
  destruct (last =? 0)%Q; [exact Hw|].
  destruct canvas as [rect|]; [|exact Hw].
  simpl. apply clampZoom_range.
Qed.

Lemma handleZoomChange_zoom canvas newZoom (w : Whiteboard) :
  zoom (Viewport.handleZoomChange canvas newZoom w) =
    match canvas with Some _ => newZoom | None => zoom w end.
Proof. by destruct canvas. Qed.

Lemma handleZoomIn_range canvas (w : Whiteboard) :
  Viewport.zoomInRange w → Viewport.zoomInRange (Viewport.handleZoomIn canvas w).
Proof.
  intros [Hlo Hhi]. unfold Viewport.zoomInRange, Viewport.handleZoomIn.
  rewrite handleZoomChange_zoom. destruct canvas as [rect|]; [|by split].
  destruct (Q.min_spec (zoom w * 1.2) 5) as [[? Hmin]|[? Hmin]];
    rewrite Hmin; split; lra.
Qed.

Lemma handleZoomOut_range canvas (w : Whiteboard) :
  Viewport.zoomInRange w → Viewport.zoomInRange (Viewport.handleZoomOut canvas w).
Proof.
  intros [Hlo Hhi]. unfold Viewport.zoomInRange, Viewport.handleZoomOut.
  rewrite handleZoomChange_zoom. destruct canvas as [rect|]; [|by split].
  destruct (Q.max_spec (zoom w / 1.2) 0.1) as [[? Hmax]|[? Hmax]];
    rewrite Hmax; unfold Qdiv in *; change (/ 1.2)%Q with (10 # 12)%Q in *;
    split; lra.
Qed.

Lemma handleZoomReset_range canvas (w : Whiteboard) :
  Viewport.zoomInRange w → Viewport.zoomInRange (Viewport.handleZoomReset canvas w).
Proof.
  intros Hw. unfold Viewport.zoomInRange, Viewport.handleZoomReset.
  rewrite handleZoomChange_zoom. destruct canvas as [rect|]; [|exact Hw].
  split; lra.
Qed.

Lemma step_range (i : Viewport.ZoomInput) (w : Whiteboard) :
  Viewport.sliderRange i → Viewport.zoomInRange w →
  Viewport.zoomInRange (Viewport.step i w).
Proof.
  intros Hs Hw. destruct i; simpl.
  - by apply handleWheel_range.
  - destruct (Viewport.handleTouchMove_pinch _ _ _ _ _) as [w'|] eqn:Hp; simpl;
      [by eapply handleTouchMove_pinch_range | exact Hw].
  - by apply onPinch_range.
  - by apply onWheel_range.
  - by apply handleZoomIn_range.
  - by apply handleZoomOut_range.
  - by apply handleZoomReset_range.
  - unfold Viewport.onSliderChange, Viewport.zoomInRange.
    rewrite handleZoomChange_zoom. destruct canvas; [exact Hs | exact Hw].
Qed.

(** The zoom stays in [[0.1, 5]] along any sequence of zoom inputs in which
    the values the slider reports lie in that interval. *)
Lemma zoom_clamp_invariant (inputs : list Viewport.ZoomInput) (w : Whiteboard) :
  Viewport.zoomInRange w →
  Forall Viewport.sliderRange inputs →
  (0.1 <= zoom (Viewport.run inputs w))%Q ∧ (zoom (Viewport.run inputs w) <= 5)%Q.
Proof.
  intros Hw Hs. revert w Hw.
  induction Hs as [|i inputs Hi _ IH]; intros w Hw; [exact Hw|].
  simpl. apply IH. by apply step_range.
Qed.


Lemma clampZoom_nonzero (z : number) : ¬ (Qmin (Qmax 0.1 z) 5 == 0)%Q.
Proof. destruct (clampZoom_range z). lra. Qed.

Lemma handleWheel_zoomAt rect clientX clientY deltaY (w : Whiteboard) :
  Viewport.handleWheel (Some rect) clientX clientY deltaY w =
  Viewport.zoomAt_spec
    (mkPoint (clientX - rect_left rect) (clientY - rect_top rect))
    (Qmin (Qmax 0.1 (zoom w * (if (deltaY >? 0)%Q then 0.9 else 1.1))) 5) w.
Proof. reflexivity. Qed.

Lemma handleZoomChange_zoomAt rect newZoom (w : Whiteboard) :
  Viewport.handleZoomChange (Some rect) newZoom w =
  Viewport.zoomAt_spec (mkPoint (rect_width rect / 2) (rect_height rect / 2)) newZoom w.
Proof. reflexivity. Qed.

Lemma zoomAt_screen_fixed (anchor : Point) (newZoom : number) (w : Whiteboard) :
  ¬ (zoom w == 0)%Q →
  let w' := Viewport.zoomAt_spec anchor newZoom w in
  Viewport.pointEq
    (Viewport.toScreen (offset w') (zoom w')
       (Viewport.toWorld (offset w) (zoom w) anchor))
    anchor.
Proof. intros Hz. split; simpl; field; exact Hz. Qed.

Lemma zoomAt_world_fixed (anchor : Point) (newZoom : number) (w : Whiteboard) :
  ¬ (zoom w == 0)%Q → ¬ (newZoom == 0)%Q →
  let w' := Viewport.zoomAt_spec anchor newZoom w in
  Viewport.pointEq (Viewport.toWorld (offset w') (zoom w') anchor)
                   (Viewport.toWorld (offset w) (zoom w) anchor).
Proof. intros Hz Hn. split; simpl; field; by split. Qed.

(** C7.  Zoom toward an anchor.  From a viewport whose zoom is not 0, the
    rule [offset' = anchor - (anchor - offset) * (newZoom / zoom)] keeps the
    world point under the screen anchor under it, for every new zoom, and
    the world point read back at the anchor is the same when the new zoom is
    not 0.  [handleWheel] (anchor: the pointer), [handleZoomChange] (anchor:
    the centre of the canvas) and [onPinch] (anchor: the pinch origin,
    viewport: the one the pinch started from) follow the rule; so from offset
    (0, 0) and zoom 1, zooming to 2 keeps the world point at the anchor
    there. *)
Theorem zoom_anchor_fixed :
  (∀ anchor newZoom w,
     ¬ (zoom w == 0)%Q →
     let w' := Viewport.zoomAt_spec anchor newZoom w in
     Viewport.pointEq
       (Viewport.toScreen (offset w') (zoom w')
          (Viewport.toWorld (offset w) (zoom w) anchor)) anchor
     ∧ (¬ (newZoom == 0)%Q →
        Viewport.pointEq (Viewport.toWorld (offset w') (zoom w') anchor)
                         (Viewport.toWorld (offset w) (zoom w) anchor)))
  ∧ (∀ rect clientX clientY deltaY w,
       ¬ (zoom w == 0)%Q →
       let anchor := mkPoint (clientX - rect_left rect) (clientY - rect_top rect) in
       let w' := Viewport.handleWheel (Some rect) clientX clientY deltaY w in
       Viewport.pointEq
         (Viewport.toScreen (offset w') (zoom w')
            (Viewport.toWorld (offset w) (zoom w) anchor)) anchor
       ∧ Viewport.pointEq (Viewport.toWorld (offset w') (zoom w') anchor)
                          (Viewport.toWorld (offset w) (zoom w) anchor))
  ∧ (∀ rect newZoom w,
       ¬ (zoom w == 0)%Q →
       let anchor := mkPoint (rect_width rect / 2) (rect_height rect / 2) in
       let w' := Viewport.handleZoomChange (Some rect) newZoom w in
       Viewport.pointEq
         (Viewport.toScreen (offset w') (zoom w')
            (Viewport.toWorld (offset w) (zoom w) anchor)) anchor)
  ∧ (∀ rect cx cy ms memo w,
       ¬ (Viewport.initialZoom memo == 0)%Q →
       let anchor := mkPoint (cx - rect_left rect) (cy - rect_top rect) in
       let w' := (Viewport.onPinch (Some rect) cx cy ms false memo w).1 in
       Viewport.pointEq
         (Viewport.toScreen (offset w') (zoom w')
            (Viewport.toWorld (Viewport.initialOffset memo) (Viewport.initialZoom memo)
               anchor)) anchor
       ∧ Viewport.pointEq
           (Viewport.toWorld (offset w') (zoom w') anchor)
           (Viewport.toWorld (Viewport.initialOffset memo) (Viewport.initialZoom memo)
              anchor))
  ∧ (∀ rect initialElements,
       let w := initialState initialElements in
       let anchor := mkPoint (rect_width rect / 2) (rect_height rect / 2) in
       let w' := Viewport.handleZoomChange (Some rect) 2 w in
       offset w = mkPoint 0 0 ∧ zoom w = 1%Q ∧ zoom w' = 2%Q ∧
       Viewport.pointEq
         (Viewport.toScreen (offset w') (zoom w')
            (Viewport.toWorld (offset w) (zoom w) anchor)) anchor).
Proof.
  split; [|split; [|split; [|split]]].
  - intros anchor newZoom w Hz w'. split.
    + by apply zoomAt_screen_fixed.
    + intros Hn. by apply zoomAt_world_fixed.
  - intros rect clientX clientY deltaY w Hz anchor w'. subst w'.
    rewrite handleWheel_zoomAt. split.
    + by apply zoomAt_screen_fixed.
    + apply zoomAt_world_fixed; [exact Hz | apply clampZoom_nonzero].
  - intros rect newZoom w Hz anchor w'. subst w'.
    rewrite handleZoomChange_zoomAt. by apply zoomAt_screen_fixed.
  - intros rect cx cy ms memo w Hz anchor w'. subst w' anchor. split.
    + split; simpl; ring.
    + pose proof (clampZoom_nonzero (Viewport.initialZoom memo * ms)) as Hn.
      split; simpl; field; by split.
  - intros rect initialElements w anchor w'. subst w'.
    repeat split; simpl; field.
Qed.

(** ** The geometry kernel *)

(** C9.  Degenerate segment.  For every point [P] and every point [A],
    [distanceToLine P A A] is the distance of [P] and [A]: the squared length
    is 0, the division is skipped, the parameter stays at [-1] and the
    nearest point is the start of the segment. *)
Theorem distanceToLine_degenerate (sqrt : number → number) (P A : Point) :
  Geometry.distanceToLine sqrt P A A = Geometry.distance sqrt P A.
Proof.
  unfold Geometry.distanceToLine, Geometry.distance, Math_pow2.
  assert (((x A - x A) * (x A - x A) + (y A - y A) * (y A - y A) =? 0)%Q = true)
    as -> by (apply Qeq_bool_iff; ring).
  reflexivity.
Qed.

Lemma isPointNearElement_gesture_rectangle sqrt ctx activeTool point element threshold :
  tool element = rectangle →
  Geometry.isPointNearElement_gesture sqrt ctx activeTool point element threshold =
  Geometry.isPointNearElement sqrt ctx point element threshold.
Proof.
  intros Ht. unfold Geometry.isPointNearElement_gesture.
  destruct (truthy_str (imageData element)) eqn:Himg; [done|].
  rewrite Ht. simpl.
  destruct (points element) eqn:Hp; [|done].
  unfold Geometry.isPointNearElement. by rewrite Himg, Ht, Hp.
Qed.


(** *** Ray casting *)
















(** The bounds of an element drawn with a shape tool, which keeps its start
    and its end. *)
Lemma getElementBounds_shape (ctx : option (number → string → number))
    (element : DrawEvent) (start end_ : Point) :
  truthy_str (imageData element) = false →
  tool element ≠ text_tool →
  points element = [start; end_] →
  Geometry.getElementBounds ctx element =
    Some (mkBounds (Qmin (x start) (x end_)) (Qmin (y start) (y end_))
                   (Qmax (x start) (x end_)) (Qmax (y start) (y end_))).
Proof.
  intros Himg Ht Hp. unfold Geometry.getElementBounds.
  rewrite Hp, Himg, bool_decide_eq_false_2 by done. reflexivity.
Qed.








(** * Worked examples *)

(** ** The reconciler *)

Example upsert_replaces_in_place :
  Reconciler.upsert Samples.lineA [Samples.penA; Samples.penB]
    = [Samples.lineA; Samples.penB].
Proof. reflexivity. Qed.

Example upsert_appends :
  Reconciler.upsert Samples.penC [Samples.penA; Samples.penB]
    = [Samples.penA; Samples.penB; Samples.penC].
Proof. reflexivity. Qed.

Lemma onRemoteDrawEvent_upsert_witness :
  Reconciler.isLaserEvent Samples.lineA = false ∧
  let w := initialState [Samples.penA; Samples.penB] in
  let w' := Reconciler.onRemoteDrawEvent Samples.lineA w in
  (id Samples.lineA ∈ id <$> elements w →
     length (elements w') = length (elements w) ∧
     ∃ i el, elements w !! i = Some el ∧ id el = id Samples.lineA ∧
             (∀ j el', (j < i)%nat → elements w !! j = Some el' →
                       id el' ≠ id Samples.lineA) ∧
             elements w' = <[i := Samples.lineA]> (elements w) ∧
             elements w' !! i = Some Samples.lineA)
  ∧ (id Samples.lineA ∉ id <$> elements w →
     elements w' = elements w ++ [Samples.lineA] ∧
     length (elements w') = S (length (elements w))).
Proof.
  split; [reflexivity|].
  apply (onRemoteDrawEvent_upsert Samples.lineA
           (initialState [Samples.penA; Samples.penB])).
  reflexivity.
Defined.

Lemma onRemoteDrawEvent_NoDup_witness :
  Reconciler.isLaserEvent Samples.penC = false ∧
  NoDup (id <$> elements (initialState [Samples.penA; Samples.penB])) ∧
  NoDup (id <$> elements (Reconciler.onRemoteDrawEvent Samples.penC
                            (initialState [Samples.penA; Samples.penB]))).
Proof.
  assert (NoDup (id <$> elements (initialState [Samples.penA; Samples.penB]))) as Hnd.
  { apply (bool_decide_unpack _). vm_compute. exact I. }
  split; [reflexivity|]. split; [exact Hnd|].
  apply (onRemoteDrawEvent_NoDup Samples.penC
           (initialState [Samples.penA; Samples.penB])); [reflexivity | exact Hnd].
Defined.

(** ** The decay scheduler *)

(** A tick exactly 2500 ms after the timestamp of an entry leaves the entry
    in the map, with opacity 0. *)
Lemma decay_present_at_2500 :
  (timestamp Samples.laserStroke + 2500 <= 2500)%Q ∧
  ∃ v, Decay.tick (λ _, 2500%Q) {[ "l1"%string := mkLaserEntry Samples.laserStroke 1 ]}
         !! "l1"%string = Some v ∧
       element v = Samples.laserStroke ∧ (opacity v == 0)%Q.
Proof.
  split; [vm_compute; discriminate|].
  rewrite tick_lookup, lookup_singleton_eq. simpl.
  eexists. split; [vm_compute; reflexivity|]. split; reflexivity.
Qed.

Example decay_half_faded :
  ∃ v, Decay.tick (λ _, 2000%Q) {[ "l1"%string := mkLaserEntry Samples.laserStroke 1 ]}
         !! "l1"%string = Some v ∧ (opacity v == 0.5)%Q.
Proof.
  rewrite tick_lookup, lookup_singleton_eq. simpl.
  eexists. split; [vm_compute; reflexivity|]. reflexivity.
Qed.

Example decay_gone_at_2501 :
  Decay.tick (λ _, 2501%Q) {[ "l1"%string := mkLaserEntry Samples.laserStroke 1 ]}
    !! "l1"%string = None.
Proof. rewrite tick_lookup, lookup_singleton_eq. reflexivity. Qed.

Lemma decay_timeline_witness :
  let m : gmap string LaserEntry :=
    {[ "l1"%string := mkLaserEntry Samples.laserStroke 1 ]} in
  let clocks : list (string → number) := [λ _, 100%Q; λ _, 1600%Q] in
  let clock : string → number := λ _, 2000%Q in
  m !! "l1"%string = Some (mkLaserEntry Samples.laserStroke 1) ∧
  (∀ c, c ∈ clocks → (c "l1"%string <= clock "l1"%string)%Q) ∧
  ∃ o, Decay.ticks (clocks ++ [clock]) m !! "l1"%string
         = Some (mkLaserEntry Samples.laserStroke o) ∧
       (o == 1 - (2000 - 0 - 1500) / 1000)%Q.
Proof.
  intros m clocks clock.
  assert (m !! "l1"%string = Some (mkLaserEntry Samples.laserStroke 1)) as Hm
    by apply lookup_singleton_eq.
  assert (∀ c, c ∈ clocks → (c "l1"%string <= clock "l1"%string)%Q) as Hc.
  { intros c Hin. subst clocks clock.
    repeat (apply elem_of_cons in Hin as [->|Hin]);
      [simpl; lra | simpl; lra | by apply elem_of_nil in Hin]. }
  split; [exact Hm|]. split; [exact Hc|].
  apply (proj1 (proj2 (decay_timeline clocks clock m "l1" Samples.laserStroke Hm Hc)));
    vm_compute; discriminate.
Defined.

(** ** Clearing the canvas *)

Example lasso_release_selects :
  selectedElementIds
    (Gesture.handleMouseUp None Samples.lassoOptions 0 "n1" Samples.lassoInFlight).1
  = {[ "r1"%string ]}.
Proof. vm_compute. reflexivity. Qed.

(** After a lasso selected [rectSmall], a clear event empties the list and
    leaves the id in the selection; during a lasso gesture, a clear event
    leaves the path of the gesture. *)
Lemma clear_keeps_selection_and_lasso :
  let selected :=
    (Gesture.handleMouseUp None Samples.lassoOptions 0 "n1" Samples.lassoInFlight).1 in
  elements (Reconciler.onClearCanvas selected) = [] ∧
  selectedElementIds (Reconciler.onClearCanvas selected) = {[ "r1"%string ]} ∧
  selectedElementIds (Reconciler.onClearCanvas selected) ≠ ∅ ∧
  lassoPath (Reconciler.onClearCanvas Samples.lassoInFlight) = Samples.triangle ∧
  lassoPath (Reconciler.onClearCanvas Samples.lassoInFlight) ≠ [].
Proof.
  assert (selectedElementIds
            (Reconciler.onClearCanvas
               (Gesture.handleMouseUp None Samples.lassoOptions 0 "n1"
                  Samples.lassoInFlight).1) = {[ "r1"%string ]}) as Hsel
    by (vm_compute; reflexivity).
  intros selected. subst selected.
  split; [reflexivity|]. split; [exact Hsel|]. split; [|split; [reflexivity|discriminate]].
  rewrite Hsel. intros Hempty.
  assert ("r1"%string ∈ (∅ : gset string)) as Hin
    by (rewrite <- Hempty; by apply elem_of_singleton).
  by apply not_elem_of_empty in Hin.
Qed.

(** ** Laser strokes *)

Example laser_commit_keeps_elements :
  let r := Gesture.handleMouseUp None Samples.laserOptions 7 "7-0.5" Samples.laserInFlight in
  elements r.1 = [Samples.penA] ∧
  (opacity <$> laserElements r.1 !! "7-0.5"%string) = Some 1%Q ∧
  isDrawing r.1 = false ∧ currentPoints r.1 = [].
Proof.
  rewrite (handleMouseUp_laser_commit None Samples.laserOptions 7 "7-0.5"
             Samples.laserInFlight) by done.
  simpl. rewrite lookup_insert_eq. by repeat split.
Qed.

Lemma laser_never_persisted_witness :
  opt_tool Samples.laserOptions = laser ∧
  Reconciler.isLaserEvent Samples.laserStroke = true ∧
  elements (Gesture.handleMouseUp None Samples.laserOptions 7 "7-0.5"
              Samples.laserInFlight).1 = elements Samples.laserInFlight ∧
  elements (Reconciler.onRemoteDrawEvent Samples.laserStroke (initialState [Samples.penA]))
    = [Samples.penA] ∧
  laserElements (Reconciler.onRemoteDrawEvent Samples.laserStroke
                   (initialState [Samples.penA]))
    = <[ "l1"%string := mkLaserEntry Samples.laserStroke 1 ]> ∅.
Proof.
  split; [reflexivity|]. split; [reflexivity|].
  destruct laser_never_persisted as (Hlocal & Hremote & _).
  split.
  - apply (Hlocal None Samples.laserOptions 7%Q "7-0.5"%string Samples.laserInFlight).
    reflexivity.
  - apply (Hremote Samples.laserStroke (initialState [Samples.penA])). reflexivity.
Defined.

(** An entry whose opacity has reached 0 is not removed by that: a run of
    the interval 2500 ms after the timestamp of a remote laser stroke leaves
    the stroke in the laser map with opacity 0, and so does a second run at
    the same clock reading. *)
Lemma laser_kept_at_opacity_zero :
  let once := Decay.onInterval (λ _, 2500%Q) Scenes.laserShown in
  let twice := Decay.onInterval (λ _, 2500%Q) once in
  laserElements Scenes.laserShown !! "l1"%string = Some (mkLaserEntry Samples.laserStroke 1) ∧
  (∃ v, laserElements once !! "l1"%string = Some v ∧
        element v = Samples.laserStroke ∧ (opacity v == 0)%Q) ∧
  (∃ v, laserElements twice !! "l1"%string = Some v ∧
        element v = Samples.laserStroke ∧ (opacity v == 0)%Q) ∧
  laserElements twice !! "l1"%string ≠ None.
Proof.
  intros once twice.
  assert (H0 : laserElements Scenes.laserShown !! "l1"%string
               = Some (mkLaserEntry Samples.laserStroke 1))
    by apply lookup_insert_eq.
  assert (H1 : ∃ v, laserElements once !! "l1"%string = Some v ∧
                    element v = Samples.laserStroke ∧ (opacity v == 0)%Q).
  { subst once. unfold Decay.onInterval. cbn [laserElements setLaserElements].
    rewrite tick_lookup. fold (laserElements Scenes.laserShown). rewrite H0.
    eexists. split; [vm_compute; reflexivity|]. split; reflexivity. }
  assert (H2 : ∃ v, laserElements twice !! "l1"%string = Some v ∧
                    element v = Samples.laserStroke ∧ (opacity v == 0)%Q).
  { destruct H1 as (v & Hv & He & Ho). subst twice.
    unfold Decay.onInterval at 1. cbn [laserElements setLaserElements].
    rewrite tick_lookup. fold (laserElements once). rewrite Hv. cbn [mbind option_bind].
    destruct (faded_mid 2500 v) as (o & -> & Hoeq);
      [rewrite He; vm_compute; reflexivity | rewrite He; vm_compute; discriminate |].
    eexists. split; [reflexivity|]. split; [exact He|].
    cbn [opacity]. rewrite Hoeq, He. vm_compute. reflexivity. }
  split; [exact H0|]. split; [exact H1|]. split; [exact H2|].
  destruct H2 as (v & -> & _). discriminate.
Qed.

(** ** The viewport *)

Example handleZoomChange_does_not_clamp :
  zoom (Viewport.handleZoomChange (Some Samples.canvasRect) 7 (initialState [])) = 7%Q.
Proof. reflexivity. Qed.

Example zoom_run_value :
  (zoom (Viewport.run Samples.zoomInputs (initialState [])) == 0.1)%Q.
Proof. vm_compute. reflexivity. Qed.

Lemma zoom_clamp_invariant_witness :
  Viewport.zoomInRange (initialState []) ∧
  Forall Viewport.sliderRange Samples.zoomInputs ∧
  (0.1 <= zoom (Viewport.run Samples.zoomInputs (initialState [])))%Q ∧
  (zoom (Viewport.run Samples.zoomInputs (initialState [])) <= 5)%Q.
Proof.
  assert (Viewport.zoomInRange (initialState [])) as H0
    by (split; vm_compute; discriminate).
  assert (Forall Viewport.sliderRange Samples.zoomInputs) as Hs.
  { unfold Samples.zoomInputs.
    repeat (apply Forall_cons; split; [first [exact I | split; vm_compute; discriminate]|]).
    apply Forall_nil_2. }
  split; [exact H0|]. split; [exact Hs|].
  exact (zoom_clamp_invariant Samples.zoomInputs (initialState []) H0 Hs).
Defined.



Lemma zoom_anchor_fixed_witness :
  let w := initialState [] in
  let anchor := mkPoint 400 300 in
  let w' := Viewport.handleZoomChange (Some Samples.canvasRect) 2 w in
  ¬ (zoom w == 0)%Q ∧
  Viewport.pointEq
    (Viewport.toScreen (offset w') (zoom w')
       (Viewport.toWorld (offset w) (zoom w) anchor)) anchor.
Proof.
  intros w anchor w'.
  assert (¬ (zoom w == 0)%Q) as Hz by (vm_compute; discriminate).
  split; [exact Hz|].
  destruct zoom_anchor_fixed as (Hrule & _).
  destruct (Hrule anchor 2%Q w Hz) as [Hscreen _].
  split; [rewrite <- (proj1 Hscreen) | rewrite <- (proj2 Hscreen)]; vm_compute; reflexivity.
Defined.

(** ** The geometry kernel *)

Example distanceToLine_3_4_5 :
  Geometry.distanceToLine Samples.approxSqrt (mkPoint 3 4) (mkPoint 0 0) (mkPoint 0 0) = 5%Q.
Proof. reflexivity. Qed.

Example lasso_selects_small_rectangle :
  Geometry.isElementInLasso None Samples.rectSmall Samples.triangle = true.
Proof. reflexivity. Qed.

Example lasso_misses_enclosing_rectangle :
  Geometry.isElementInLasso None Samples.rectBig Samples.triangle = false.
Proof. reflexivity. Qed.

Example rectangle_centre_not_hit :
  Geometry.isPointNearElement Samples.approxSqrt None (mkPoint 50 50)
    Samples.rectHundred 10 = false.
Proof. reflexivity. Qed.

Example rectangle_border_hit :
  Geometry.isPointNearElement Samples.approxSqrt None (mkPoint 5 50)
    Samples.rectHundred 10 = true.
Proof. reflexivity. Qed.


(** One corner is enough, whichever it is: of the bounds of
    [Scenes.rectCornerIn] only the bottom-right corner is inside the
    triangle, and the rectangle is selected. *)
Example lasso_selects_on_bottom_right_corner :
  Geometry.getElementBounds None Scenes.rectCornerIn = Some (mkBounds (-5) (-5) 3 3) ∧
  LassoSpec.insidePolygon (mkPoint (-5) (-5)) Samples.triangle = false ∧
  LassoSpec.insidePolygon (mkPoint 3 (-5)) Samples.triangle = false ∧
  LassoSpec.insidePolygon (mkPoint (-5) 3) Samples.triangle = false ∧
  LassoSpec.insidePolygon (mkPoint 3 3) Samples.triangle = true ∧
  Geometry.isElementInLasso None Scenes.rectCornerIn Samples.triangle = true.
Proof. repeat split; reflexivity. Qed.

(** A lasso of four vertices. *)
Example lasso_of_four_vertices :
  LassoSpec.crossings (mkPoint 2 2) Scenes.square = 1%nat ∧
  Geometry.isPointInPolygon (mkPoint 2 2) Scenes.square = true ∧
  LassoSpec.crossings (mkPoint 11 5) Scenes.square = 0%nat ∧
  Geometry.isPointInPolygon (mkPoint 11 5) Scenes.square = false ∧
  LassoSpec.crossings (mkPoint (-1) 5) Scenes.square = 2%nat ∧
  Geometry.isPointInPolygon (mkPoint (-1) 5) Scenes.square = false ∧
  Geometry.isElementInLasso None Samples.rectSmall Scenes.square = true.
Proof. repeat split; reflexivity. Qed.


(** * Further properties of the component *)

(** ** The reconciler: deletion, re-creation, last writer wins *)

Lemma findIndex_intro {A} (p : A → bool) (l : list A) (i : nat) (a : A) :
  l !! i = Some a → p a = true →
  (∀ j b, (j < i)%nat → l !! j = Some b → p b = false) →
  findIndex p l = Some i.
Proof.
  revert i. induction l as [|b l IH]; intros i Hl Hp Hmin; [done|].
  destruct i as [|i]; simpl in *.
  - injection Hl as ->. by rewrite Hp.
  - rewrite (Hmin 0%nat b) by (done || lia).
    rewrite (IH i Hl Hp); [done|].
    intros j c Hj Hc. apply (Hmin (S j)); [lia | done].
Qed.

Lemma removeById_elem (elementId : string) (prev : list DrawEvent) (el : DrawEvent) :
  el ∈ Reconciler.removeById elementId prev ↔ el ∈ prev ∧ id el ≠ elementId.
Proof.
  unfold Reconciler.removeById. rewrite !list_elem_of_In, filter_In.
  rewrite negb_true_iff, String.eqb_neq. done.
Qed.

Lemma removeById_ids (elementId : string) (prev : list DrawEvent) :
  elementId ∉ id <$> Reconciler.removeById elementId prev.
Proof.
  intros Hin. apply list_elem_of_fmap in Hin as (el & Hid & Hel).
  apply removeById_elem in Hel as [_ Hne]. by apply Hne.
Qed.

Lemma removeById_sublist (elementId : string) (prev : list DrawEvent) :
  sublist (Reconciler.removeById elementId prev) prev.
Proof.
  unfold Reconciler.removeById.
  induction prev as [|el prev IH]; simpl; [constructor|].
  destruct (negb _); by constructor.
Qed.

Lemma removeById_absent (elementId : string) (prev : list DrawEvent) :
  elementId ∉ id <$> prev → Reconciler.removeById elementId prev = prev.
Proof.
  unfold Reconciler.removeById.
  induction prev as [|el prev IH]; intros Hnin; simpl; [done|].
  rewrite fmap_cons, not_elem_of_cons in Hnin. destruct Hnin as [Hne Hnin].
  assert (String.eqb (id el) elementId = false) as -> by (apply String.eqb_neq; congruence).
  simpl. by rewrite IH.
Qed.

(** X1.  A remote delete (and an undo, which runs the same updater) removes every
    element that carries the id and nothing else: the elements with another
    id stay, in the order they had, ids that were pairwise distinct stay so,
    and deleting an id that is not in the list changes nothing. *)
Theorem onRemoteDeleteEvent_removes (elementId : string) (w : Whiteboard) :
  let w' := Reconciler.onRemoteDeleteEvent elementId w in
  (elementId ∉ id <$> elements w') ∧
  (∀ el, el ∈ elements w' ↔ el ∈ elements w ∧ id el ≠ elementId) ∧
  sublist (elements w') (elements w) ∧
  (NoDup (id <$> elements w) → NoDup (id <$> elements w')) ∧
  (elementId ∉ id <$> elements w → elements w' = elements w) ∧
  Reconciler.onUndoCanvas elementId w = w' ∧
  Reconciler.onRemoteDeleteEvent elementId w' = w'.
Proof.
  simpl. split; [apply removeById_ids|]. split; [apply removeById_elem|].
  split; [apply removeById_sublist|]. split.
  { intros Hnd. eapply sublist_NoDup; [exact Hnd|].
    apply fmap_sublist, removeById_sublist. }
  split; [apply removeById_absent|]. split; [done|].
  unfold Reconciler.onRemoteDeleteEvent, setElements. simpl.
  by rewrite (removeById_absent elementId (Reconciler.removeById _ _))
    by apply removeById_ids.
Qed.

(** X2.  Re-creation after deletion: a remote draw event that follows the delete
    of its own id puts the element back, as the last element of the list,
    and it is then the only element with that id. *)
Theorem draw_after_delete_recreates (event : DrawEvent) (w : Whiteboard) :
  Reconciler.isLaserEvent event = false →
  let w' := Reconciler.onRemoteDrawEvent event
              (Reconciler.onRemoteDeleteEvent (id event) w) in
  elements w' = Reconciler.removeById (id event) (elements w) ++ [event] ∧
  List.last (elements w') event = event ∧
  (∀ el, el ∈ elements w' → id el = id event → el = event).
Proof.
  intros Hl. unfold Reconciler.onRemoteDrawEvent. rewrite Hl. simpl.
  rewrite upsert_absent by apply removeById_ids.
  split; [done|]. split; [by rewrite last_last|].
  intros el Hel Hid. apply elem_of_app in Hel as [Hel|Hel].
  - apply removeById_elem in Hel as [_ Hne]. done.
  - by apply list_elem_of_singleton in Hel.
Qed.

Lemma upsert_same_id (e1 e2 : DrawEvent) (prev : list DrawEvent) :
  id e1 = id e2 →
  Reconciler.upsert e2 (Reconciler.upsert e1 prev) = Reconciler.upsert e2 prev.
Proof.
  intros Hid. unfold Reconciler.upsert at 2 3. rewrite Hid.
  destruct (findIndex _ prev) as [i|] eqn:Hf.
  - destruct (findIndex_Some _ _ _ Hf) as (a & Hl & Hp & Hmin).
    pose proof (lookup_lt_Some _ _ _ Hl) as Hlt.
    unfold Reconciler.upsert.
    rewrite (findIndex_intro _ (<[i:=e1]> prev) i e1).
    + by rewrite list_insert_insert_eq.
    + by apply list_lookup_insert_eq.
    + simpl. rewrite Hid. apply String.eqb_refl.
    + intros j b Hj Hb. rewrite list_lookup_insert_ne in Hb by lia. by eapply Hmin.
  - unfold Reconciler.upsert.
    rewrite (findIndex_intro _ (prev ++ [e1]) (length prev) e1).
    + rewrite insert_app_r_alt by lia. by rewrite Nat.sub_diag.
    + by rewrite lookup_app_r, Nat.sub_diag by lia.
    + simpl. rewrite Hid. apply String.eqb_refl.
    + intros j b Hj Hb. rewrite lookup_app_l in Hb by lia.
      rewrite findIndex_None in Hf. apply Hf. by eapply list_elem_of_lookup_2.
Qed.

(** X3.  Last writer wins, per id: of two remote draw events with the same id
    (both laser events, or both not), the component keeps the second alone;
    in particular a remote event that arrives twice has the effect of
    arriving once. *)
Theorem onRemoteDrawEvent_last_writer_wins (e1 e2 : DrawEvent) (w : Whiteboard) :
  id e1 = id e2 →
  Reconciler.isLaserEvent e1 = Reconciler.isLaserEvent e2 →
  Reconciler.onRemoteDrawEvent e2 (Reconciler.onRemoteDrawEvent e1 w)
  = Reconciler.onRemoteDrawEvent e2 w.
Proof.
  intros Hid Hl. unfold Reconciler.onRemoteDrawEvent. rewrite Hl.
  destruct (Reconciler.isLaserEvent e2); unfold setLaserElements, setElements; simpl.
  - by rewrite Hid, insert_insert_eq.
  - by rewrite upsert_same_id.
Qed.

(** ** The decay scheduler: what a tick never does *)

Lemma faded_idempotent (now : number) (v v' : LaserEntry) :
  Decay.faded now v = Some v' → Decay.faded now v' = Some v'.
Proof.
  unfold Decay.faded.
  destruct (_ >? _ + _)%Q eqn:Hold; [discriminate|].
  destruct (_ >? Decay.fadeStart)%Q eqn:Hfade.
  - destruct (negb _) eqn:Hneq; intros [= <-]; simpl; rewrite Hold, Hfade.
    + by rewrite Qeq_bool_refl.
    + by rewrite Hneq.
  - intros [= <-]. by rewrite Hold, Hfade.
Qed.

Lemma faded_opacity (now : number) (v v' : LaserEntry) :
  Decay.faded now v = Some v' →
  ((1500 < now - timestamp (element v))%Q →
     (0 <= opacity v')%Q ∧ (opacity v' < 1)%Q) ∧
  ((now - timestamp (element v) <= 1500)%Q → v' = v).
Proof.
  intros Hf. split.
  - intros Hlo. destruct (Qlt_le_dec 2500 (now - timestamp (element v))) as [Hlate|Hin].
    + rewrite faded_late in Hf by done. discriminate.
    + destruct (faded_mid now v Hlo Hin) as (o & Ho & Hoeq).
      rewrite Ho in Hf. injection Hf as <-. simpl.
      unfold Qdiv in Hoeq. change (/ 1000)%Q with (1 # 1000)%Q in Hoeq. lra.
  - intros Hearly. rewrite faded_early in Hf by done. by injection Hf as <-.
Qed.

(** X4.  A tick only ever removes entries or lowers their opacity: the entries it
    leaves were there before, under the same key and with the same element;
    the opacity of an entry older than 1500 ms is in [[0, 1)] after the tick,
    and a younger entry is left as it is.  So opacities that are all in
    [[0, 1]] stay there. *)
Theorem tick_only_fades (clock : string → number) (prev : gmap string LaserEntry) :
  (∀ key v', Decay.tick clock prev !! key = Some v' →
     ∃ v, prev !! key = Some v ∧ element v' = element v ∧
          ((1500 < clock key - timestamp (element v))%Q →
             (0 <= opacity v')%Q ∧ (opacity v' < 1)%Q) ∧
          ((clock key - timestamp (element v) <= 1500)%Q → v' = v))
  ∧ dom (Decay.tick clock prev) ⊆ dom prev
  ∧ ((∀ key v, prev !! key = Some v → (0 <= opacity v)%Q ∧ (opacity v <= 1)%Q) →
     ∀ key v', Decay.tick clock prev !! key = Some v' →
               (0 <= opacity v')%Q ∧ (opacity v' <= 1)%Q).
Proof.
  assert (∀ key v', Decay.tick clock prev !! key = Some v' →
     ∃ v, prev !! key = Some v ∧ element v' = element v ∧
          ((1500 < clock key - timestamp (element v))%Q →
             (0 <= opacity v')%Q ∧ (opacity v' < 1)%Q) ∧
          ((clock key - timestamp (element v) <= 1500)%Q → v' = v)) as Hmain.
  { intros key v' Hv'. rewrite tick_lookup in Hv'.
    destruct (prev !! key) as [v|]; [|discriminate]. simpl in Hv'.
    exists v. split; [done|]. split; [by eapply faded_element|].
    by apply faded_opacity. }
  split; [exact Hmain|]. split.
  - intros key Hk. apply elem_of_dom in Hk as [v' Hv'].
    destruct (Hmain key v' Hv') as (v & Hv & _). apply elem_of_dom. eauto.
  - intros Hrange key v' Hv'.
    destruct (Hmain key v' Hv') as (v & Hv & _ & Hold & Hyoung).
    destruct (Qlt_le_dec 1500 (clock key - timestamp (element v))) as [Hlt|Hle].
    + destruct (Hold Hlt). split; lra.
    + rewrite (Hyoung Hle). by eapply Hrange.
Qed.

Lemma fadeEntry_fold_unchanged (clock : string → number)
    (m0 m : gmap string LaserEntry) :
  (∀ key v, m !! key = Some v → (clock key - timestamp (element v) <= 1500)%Q) →
  map_fold (λ key value acc, Decay.fadeEntry (clock key) key value acc) (m0, false) m
  = (m0, false).
Proof.
  apply (map_fold_weak_ind (λ r m,
    (∀ key v, m !! key = Some v → (clock key - timestamp (element v) <= 1500)%Q) →
    r = (m0, false))).
  - done.
  - intros key v m' r Hkey IH Hyoung.
    rewrite IH.
    + unfold Decay.fadeEntry, Decay.fadeStart, Decay.fadeDuration.
      pose proof (Hyoung key v (lookup_insert_eq _ _ _)) as Hage.
      destruct (_ >? 1500 + 1000)%Q eqn:H1; [apply Qgtb_gt in H1; lra|].
      destruct (_ >? 1500)%Q eqn:H2; [apply Qgtb_gt in H2; lra|]. done.
    + intros key' v' Hv'. apply Hyoung.
      rewrite lookup_insert_ne; [done|]. intros ->. congruence.
Qed.

(** X5.  A tick that finds no entry older than 1500 ms changes nothing: the loop
    ends with the copy untouched and [hasChanges] still [false], so that the
    updater hands back the very map it was given and React skips the render.
    And a second tick at the same clock readings changes nothing the first
    one did not. *)
Theorem tick_noop_and_idempotent (clock : string → number)
    (prev : gmap string LaserEntry) :
  ((∀ key v, prev !! key = Some v → (clock key - timestamp (element v) <= 1500)%Q) →
     map_fold (λ key value acc, Decay.fadeEntry (clock key) key value acc)
              (prev, false) prev = (prev, false) ∧
     Decay.tick clock prev = prev)
  ∧ Decay.tick clock (Decay.tick clock prev) = Decay.tick clock prev.
Proof.
  split.
  - intros Hyoung. pose proof (fadeEntry_fold_unchanged clock prev prev Hyoung) as Hfold.
    split; [exact Hfold|]. unfold Decay.tick. by rewrite Hfold.
  - apply map_eq. intros key. rewrite !tick_lookup.
    destruct (prev !! key) as [v|]; simpl; [|done].
    destruct (Decay.faded (clock key) v) as [v'|] eqn:Hf; simpl; [|done].
    by eapply faded_idempotent.
Qed.

(** ** The geometry kernel: distance to a segment *)

Lemma distanceToLine_closest (sqrt : number → number) (P A B : Point) :
  Geometry.distanceToLine sqrt P A B = sqrt (Segment.sqDist P (Segment.closest P A B)).
Proof.
  unfold Geometry.distanceToLine, Segment.closest, Segment.sqDist.
  cbv zeta. repeat case_match; simplify_eq; reflexivity.
Qed.

Lemma sqDist_along (P A B : Point) (s : number) :
  (Segment.sqDist P (Segment.along A B s) ==
   Segment.sqDist P A
   - 2 * s * ((x P - x A) * (x B - x A) + (y P - y A) * (y B - y A))
   + s * s * ((x B - x A) * (x B - x A) + (y B - y A) * (y B - y A)))%Q.
Proof. unfold Segment.sqDist, Segment.along. simpl. ring. Qed.

Lemma sq_sum_nonneg (a b : Q) : (0 <= a * a + b * b)%Q.
Proof. nra. Qed.

Lemma closest_cases (P A B : Point) :
  let dot := ((x P - x A) * (x B - x A) + (y P - y A) * (y B - y A))%Q in
  let lenSq := ((x B - x A) * (x B - x A) + (y B - y A) * (y B - y A))%Q in
  ((lenSq == 0)%Q ∧ Segment.closest P A B = A) ∨
  ((0 < lenSq)%Q ∧ (dot < 0)%Q ∧ Segment.closest P A B = A) ∨
  ((0 < lenSq)%Q ∧ (lenSq < dot)%Q ∧ Segment.closest P A B = B) ∨
  ((0 < lenSq)%Q ∧ (0 <= dot)%Q ∧ (dot <= lenSq)%Q ∧
   Segment.closest P A B = Segment.along A B (dot / lenSq)).
Proof.
  intros dot lenSq.
  assert (0 <= lenSq)%Q as Hnn by apply sq_sum_nonneg.
  unfold Segment.closest. cbv zeta. fold dot lenSq.
  destruct (lenSq =? 0)%Q eqn:Hz; simpl.
  - apply Qeq_bool_iff in Hz. left. split; [done|]. by destruct A.
  - apply Qeqb_neq in Hz. assert (0 < lenSq)%Q as Hpos by lra.
    assert (dot / lenSq * lenSq == dot)%Q as Hq by (field; lra).
    destruct (dot / lenSq <? 0)%Q eqn:H0.
    + apply Qltb_lt in H0. right. left.
      split; [done|]. split; [|by destruct A].
      set (q := (dot / lenSq)%Q) in *. clearbody q. nra.
    + apply Qltb_ge in H0. destruct (dot / lenSq >? 1)%Q eqn:H1.
      * apply Qgtb_gt in H1. right. right. left.
        split; [done|]. split; [|by destruct B].
        set (q := (dot / lenSq)%Q) in *. clearbody q. nra.
      * apply Qgtb_le in H1. right. right. right.
        split; [done|]. split; [|split; [|done]];
          set (q := (dot / lenSq)%Q) in *; clearbody q; nra.
Qed.

Lemma sq_nonneg (a : Q) : (0 <= a * a)%Q.
Proof. nra. Qed.

Lemma sq_sum_zero (a b : Q) : (a * a + b * b == 0)%Q → (a == 0)%Q ∧ (b == 0)%Q.
Proof.
  intros H. pose proof (sq_nonneg a). pose proof (sq_nonneg b).
  assert (a * a == 0)%Q as Ha by lra. assert (b * b == 0)%Q as Hb by lra.
  split; [destruct (Qmult_integral _ _ Ha) | destruct (Qmult_integral _ _ Hb)]; done.
Qed.

Lemma quad_min_inner (c dot L q s : Q) :
  (0 < L)%Q → (q * L == dot)%Q →
  (c - 2 * q * dot + q * q * L <= c - 2 * s * dot + s * s * L)%Q.
Proof.
  intros HL Hq. rewrite <- Hq.
  pose proof (sq_nonneg (s - q)) as Hsq.
  assert (0 <= L * ((s - q) * (s - q)))%Q as Hp by (apply Qmult_le_0_compat; lra).
  assert (c - 2 * s * (q * L) + s * s * L - (c - 2 * q * (q * L) + q * q * L)
          == L * ((s - q) * (s - q)))%Q as Hd by ring.
  lra.
Qed.

Lemma quad_min_end (c dot L s : Q) :
  (0 < L)%Q → (L < dot)%Q → (0 <= s)%Q → (s <= 1)%Q →
  (c - 2 * 1 * dot + 1 * 1 * L <= c - 2 * s * dot + s * s * L)%Q.
Proof.
  intros HL Hd Hs0 Hs1.
  assert (0 <= L * (1 - s))%Q as Hls by (apply Qmult_le_0_compat; lra).
  assert (0 <= 2 * dot - L * (1 + s))%Q as Hf
    by (assert (L * (1 + s) == 2 * L - L * (1 - s))%Q as -> by ring; lra).
  assert (0 <= (1 - s) * (2 * dot - L * (1 + s)))%Q as Hp
    by (apply Qmult_le_0_compat; lra).
  assert (c - 2 * s * dot + s * s * L - (c - 2 * 1 * dot + 1 * 1 * L)
          == (1 - s) * (2 * dot - L * (1 + s)))%Q as Hdiff by ring.
  lra.
Qed.

Lemma quad_min_start (c dot L s : Q) :
  (0 < L)%Q → (dot < 0)%Q → (0 <= s)%Q →
  (c <= c - 2 * s * dot + s * s * L)%Q.
Proof.
  intros HL Hd Hs0.
  assert (0 <= s * (- dot))%Q by (apply Qmult_le_0_compat; lra).
  pose proof (sq_nonneg s).
  assert (0 <= s * s * L)%Q by (apply Qmult_le_0_compat; lra).
  assert (2 * s * dot == - (2 * (s * - dot)))%Q as -> by ring. lra.
Qed.

(** X6.  [distanceToLine] is the distance to the nearest point of the segment:
    the point it measures to lies on the segment, and no point of the segment
    is nearer (in squared distance, which is what stands under the square
    root).  When the projection falls before the start or beyond the end,
    the result is the distance to that end. *)
Theorem distanceToLine_nearest (sqrt : number → number) (P A B : Point) :
  let dot := ((x P - x A) * (x B - x A) + (y P - y A) * (y B - y A))%Q in
  let lenSq := ((x B - x A) * (x B - x A) + (y B - y A) * (y B - y A))%Q in
  Geometry.distanceToLine sqrt P A B = sqrt (Segment.sqDist P (Segment.closest P A B))
  ∧ (∃ s, (0 <= s)%Q ∧ (s <= 1)%Q ∧
          Viewport.pointEq (Segment.closest P A B) (Segment.along A B s))
  ∧ (∀ s, (0 <= s)%Q → (s <= 1)%Q →
          (Segment.sqDist P (Segment.closest P A B)
           <= Segment.sqDist P (Segment.along A B s))%Q)
  ∧ ((0 < lenSq)%Q → (dot < 0)%Q →
       Geometry.distanceToLine sqrt P A B = Geometry.distance sqrt P A)
  ∧ ((0 < lenSq)%Q → (lenSq < dot)%Q →
       Geometry.distanceToLine sqrt P A B = Geometry.distance sqrt P B).
Proof.
  intros dot lenSq.
  pose proof (closest_cases P A B) as Hcases. cbv zeta in Hcases. fold dot lenSq in Hcases.
  split; [apply distanceToLine_closest|]. split; [|split; [|split]].
  - destruct Hcases as [(_ & ->)|[(_ & _ & ->)|[(_ & _ & ->)|(Hpos & H0 & H1 & ->)]]].
    + exists 0%Q. repeat split; try lra; simpl; ring.
    + exists 0%Q. repeat split; try lra; simpl; ring.
    + exists 1%Q. repeat split; try lra; simpl; ring.
    + exists (dot / lenSq)%Q.
      assert (dot / lenSq * lenSq == dot)%Q as Hq by (field; lra).
      split; [|split; [|by split]];
        set (q := (dot / lenSq)%Q) in *; clearbody q; nra.
  - intros s Hs0 Hs1. rewrite (sqDist_along P A B s). fold dot lenSq.
    destruct Hcases as [(Hz & ->)|[(Hpos & Hneg & ->)|[(Hpos & Hbig & ->)|(Hpos & H0 & H1 & ->)]]].
    + destruct (sq_sum_zero _ _ Hz) as [HC HD].
      assert (dot == 0)%Q as -> by (subst dot; rewrite HC, HD; ring).
      rewrite Hz. lra.
    + by apply quad_min_start.
    + assert (Segment.sqDist P B == Segment.sqDist P A - 2 * 1 * dot + 1 * 1 * lenSq)%Q
        as -> by (subst dot lenSq; unfold Segment.sqDist; ring).
      by apply quad_min_end.
    + rewrite (sqDist_along P A B (dot / lenSq)). fold dot lenSq.
      apply quad_min_inner; [done|]. field. lra.
  - intros Hpos Hneg. rewrite distanceToLine_closest.
    destruct Hcases as [(Hz & _)|[(_ & _ & ->)|[(_ & Hbig & _)|(_ & H0 & _)]]];
      [lra | reflexivity | lra | lra].
  - intros Hpos Hbig. rewrite distanceToLine_closest.
    destruct Hcases as [(Hz & _)|[(_ & Hneg & _)|[(_ & _ & ->)|(_ & _ & H1 & _)]]];
      [lra | lra | reflexivity | lra].
Qed.

(** ** The geometry kernel: bounds *)

Lemma Qmin_cases (a b : Q) : Qmin a b = a ∨ Qmin a b = b.
Proof.
  unfold Qmin, GenericMinMax.gmin. destruct (a ?= b)%Q; auto.
Qed.

Lemma Qmax_cases (a b : Q) : Qmax a b = a ∨ Qmax a b = b.
Proof.
  unfold Qmax, GenericMinMax.gmax. destruct (a ?= b)%Q; auto.
Qed.

Lemma growBounds_fold (rest : list Point) :
  ∀ b : Bounds,
  let b' := fold_left Geometry.growBounds rest b in
  ((minX b' <= minX b)%Q ∧ (minY b' <= minY b)%Q ∧
   (maxX b <= maxX b')%Q ∧ (maxY b <= maxY b')%Q) ∧
  (∀ p, p ∈ rest → (minX b' <= x p)%Q ∧ (x p <= maxX b')%Q ∧
                   (minY b' <= y p)%Q ∧ (y p <= maxY b')%Q) ∧
  (minX b' = minX b ∨ minX b' ∈ x <$> rest) ∧
  (minY b' = minY b ∨ minY b' ∈ y <$> rest) ∧
  (maxX b' = maxX b ∨ maxX b' ∈ x <$> rest) ∧
  (maxY b' = maxY b ∨ maxY b' ∈ y <$> rest).
Proof.
  induction rest as [|q rest IH]; intros b; simpl.
  - split; [repeat split; lra|]. split; [intros p Hp; by apply elem_of_nil in Hp|].
    repeat split; by left.
  - destruct (IH (Geometry.growBounds b q)) as ((H1 & H2 & H3 & H4) & Hall & Ha & Hb & Hc & Hd).
    simpl in *.
    pose proof (Q.le_min_l (minX b) (x q)). pose proof (Q.le_min_r (minX b) (x q)).
    pose proof (Q.le_min_l (minY b) (y q)). pose proof (Q.le_min_r (minY b) (y q)).
    pose proof (Q.le_max_l (maxX b) (x q)). pose proof (Q.le_max_r (maxX b) (x q)).
    pose proof (Q.le_max_l (maxY b) (y q)). pose proof (Q.le_max_r (maxY b) (y q)).
    split; [repeat split; lra|]. split.
    + intros p Hp. apply elem_of_cons in Hp as [->|Hp]; [repeat split; lra | by apply Hall].
    + repeat split.
      * destruct Ha as [->|Ha]; [|right; by right].
        destruct (Qmin_cases (minX b) (x q)) as [->| ->]; [by left | right; left].
      * destruct Hb as [->|Hb]; [|right; by right].
        destruct (Qmin_cases (minY b) (y q)) as [->| ->]; [by left | right; left].
      * destruct Hc as [->|Hc]; [|right; by right].
        destruct (Qmax_cases (maxX b) (x q)) as [->| ->]; [by left | right; left].
      * destruct Hd as [->|Hd]; [|right; by right].
        destruct (Qmax_cases (maxY b) (y q)) as [->| ->]; [by left | right; left].
Qed.

(** X7.  For an element that is neither an image nor a text and has at least one
    point, [getElementBounds] gives the coordinate-wise minimum and maximum
    of its points: every point is within the bounds, each of the four bounds
    is the coordinate of some point, and the box is not inverted. *)
Theorem getElementBounds_minmax (ctx : option (number → string → number))
    (element : DrawEvent) :
  truthy_str (imageData element) = false →
  bool_decide (tool element = text_tool) && truthy_str (text element) = false →
  points element ≠ [] →
  ∃ bounds,
    Geometry.getElementBounds ctx element = Some bounds ∧
    (∀ p, p ∈ points element →
          (minX bounds <= x p)%Q ∧ (x p <= maxX bounds)%Q ∧
          (minY bounds <= y p)%Q ∧ (y p <= maxY bounds)%Q) ∧
    minX bounds ∈ x <$> points element ∧ maxX bounds ∈ x <$> points element ∧
    minY bounds ∈ y <$> points element ∧ maxY bounds ∈ y <$> points element ∧
    (minX bounds <= maxX bounds)%Q ∧ (minY bounds <= maxY bounds)%Q.
Proof.
  intros Himg Htext Hpts. unfold Geometry.getElementBounds.
  destruct (points element) as [|pos rest]; [done|]. rewrite Himg, Htext.
  eexists. split; [reflexivity|].
  destruct (growBounds_fold rest (mkBounds (x pos) (y pos) (x pos) (y pos)))
    as ((H1 & H2 & H3 & H4) & Hall & Ha & Hb & Hc & Hd).
  simpl in *.
  split; [|split; [|split; [|split; [|split; [|split; lra]]]]].
  - intros p Hp. apply elem_of_cons in Hp as [->|Hp]; [repeat split; lra | by apply Hall].
  - destruct Ha as [->|Ha]; [left | by right].
  - destruct Hc as [->|Hc]; [left | by right].
  - destruct Hb as [->|Hb]; [left | by right].
  - destruct Hd as [->|Hd]; [left | by right].
Qed.

(** X8.  An element without points is inert: it has no bounds, no point is near
    it (in either revision, whatever the threshold and the active tool), and
    no lasso selects it. *)
Theorem no_points_no_hit (sqrt : number → number)
    (ctx : option (number → string → number)) (element : DrawEvent) :
  points element = [] →
  Geometry.getElementBounds ctx element = None ∧
  (∀ point threshold,
     Geometry.isPointNearElement sqrt ctx point element threshold = false) ∧
  (∀ activeTool point threshold,
     Geometry.isPointNearElement_gesture sqrt ctx activeTool point element threshold
     = false) ∧
  (∀ lassoPolygon, Geometry.isElementInLasso ctx element lassoPolygon = false).
Proof.
  intros Hp.
  assert (Geometry.getElementBounds ctx element = None) as Hb
    by (unfold Geometry.getElementBounds; by rewrite Hp).
  assert (∀ point threshold,
     Geometry.isPointNearElement sqrt ctx point element threshold = false) as Hn.
  { intros point threshold. unfold Geometry.isPointNearElement. rewrite Hp.
    destruct (truthy_str _); [done|]. destruct (bool_decide _); [|done].
    by destruct (text element). }
  split; [exact Hb|]. split; [exact Hn|]. split.
  - intros activeTool point threshold. unfold Geometry.isPointNearElement_gesture.
    rewrite Hp, !Hn. by repeat case_match.
  - intros lassoPolygon. unfold Geometry.isElementInLasso. rewrite Hb.
    by destruct (_ <? _)%nat.
Qed.

(** ** The geometry kernel: hit-testing against a box *)

Lemma box_test (px py lx hx ly hy : Q) :
  ((px >=? lx)%Q && (px <=? hx)%Q && (py >=? ly)%Q && (py <=? hy)%Q) = true ↔
  (lx <= px)%Q ∧ (px <= hx)%Q ∧ (ly <= py)%Q ∧ (py <= hy)%Q.
Proof.
  rewrite !andb_true_iff, !Qgeb_ge, !Qle_bool_iff. tauto.
Qed.

(** X9.  Images and texts are hit through their bounds: for an element that
    carries an image, or a text element whose text is not empty, a point is
    near the element exactly when the element has bounds and the point is
    inside them grown by the threshold on the four sides. *)
Theorem image_text_hit_iff_in_bounds (sqrt : number → number)
    (ctx : option (number → string → number))
    (point : Point) (element : DrawEvent) (threshold : number) :
  truthy_str (imageData element) = true ∨
  (tool element = text_tool ∧ truthy_str (text element) = true) →
  Geometry.isPointNearElement sqrt ctx point element threshold = true ↔
  ∃ bounds,
    Geometry.getElementBounds ctx element = Some bounds ∧
    (minX bounds - threshold <= x point)%Q ∧ (x point <= maxX bounds + threshold)%Q ∧
    (minY bounds - threshold <= y point)%Q ∧ (y point <= maxY bounds + threshold)%Q.
Proof.
  intros Hkind. unfold Geometry.isPointNearElement, Geometry.getElementBounds.
  destruct (truthy_str (imageData element)) eqn:Himg.
  - destruct (points element) as [|pos rest].
    + split; [discriminate | intros (? & [=] & _)].
    + rewrite box_test. split.
      * intros H. eexists. split; [reflexivity|]. exact H.
      * intros (bounds & [= <-] & H). exact H.
  - destruct Hkind as [[=]|[Htool Htext]].
    rewrite Htool, Htext, bool_decide_eq_true_2 by done. simpl.
    destruct (text element) as [txt|] eqn:Ht; [|discriminate].
    simpl in Htext. apply negb_true_iff in Htext.
    destruct (points element) as [|pos rest].
    + split; [discriminate | intros (? & [=] & _)].
    + destruct ctx as [measureText|].
      * rewrite Htext, box_test. simpl. split.
        -- intros H. eexists. split; [reflexivity|]. exact H.
        -- intros (bounds & [= <-] & H). exact H.
      * split; [discriminate | intros (? & [=] & _)].
Qed.

(** X10.  The hit region of a rectangle, in both revisions: the box grown by the
    threshold, without the open box shrunk by the threshold.  So a point on
    an edge of the box is hit for every threshold that is not negative. *)
Theorem rectangle_hit_region (sqrt : number → number)
    (ctx : option (number → string → number)) (activeTool : Tool)
    (point : Point) (element : DrawEvent) (threshold : number) (box : Bounds) :
  tool element = rectangle →
  truthy_str (imageData element) = false →
  Geometry.rectangleBox element = Some box →
  (Geometry.isPointNearElement sqrt ctx point element threshold = true ↔
   ((minX box - threshold <= x point)%Q ∧ (x point <= maxX box + threshold)%Q ∧
    (minY box - threshold <= y point)%Q ∧ (y point <= maxY box + threshold)%Q) ∧
   ((x point <= minX box + threshold)%Q ∨ (maxX box - threshold <= x point)%Q ∨
    (y point <= minY box + threshold)%Q ∨ (maxY box - threshold <= y point)%Q))
  ∧ Geometry.isPointNearElement_gesture sqrt ctx activeTool point element threshold
    = Geometry.isPointNearElement sqrt ctx point element threshold
  ∧ ((0 <= threshold)%Q →
     (minX box <= x point)%Q → (x point <= maxX box)%Q →
     (minY box <= y point)%Q → (y point <= maxY box)%Q →
     (x point == minX box ∨ x point == maxX box ∨
      y point == minY box ∨ y point == maxY box)%Q →
     Geometry.isPointNearElement sqrt ctx point element threshold = true).
Proof.
  intros Ht Himg Hbox.
  assert (Geometry.isPointNearElement sqrt ctx point element threshold = true ↔
   ((minX box - threshold <= x point)%Q ∧ (x point <= maxX box + threshold)%Q ∧
    (minY box - threshold <= y point)%Q ∧ (y point <= maxY box + threshold)%Q) ∧
   ((x point <= minX box + threshold)%Q ∨ (maxX box - threshold <= x point)%Q ∨
    (y point <= minY box + threshold)%Q ∨ (maxY box - threshold <= y point)%Q)) as Hiff.
  { unfold Geometry.isPointNearElement, Geometry.rectangleBox in *.
    rewrite Himg, Ht.
    destruct (points element) as [|start rest] eqn:Hp; [done|].
    remember (List.last (start :: rest) start) as end_ eqn:Hend. clear Hend.
    injection Hbox as <-. cbn [minX minY maxX maxY].
    rewrite bool_decide_eq_false_2 by discriminate.
    rewrite andb_true_iff, box_test, !orb_true_iff, !Qgeb_ge, !Qle_bool_iff. tauto. }
  split; [exact Hiff|]. split; [by apply isPointNearElement_gesture_rectangle|].
  intros Hthr Hx1 Hx2 Hy1 Hy2 Hedge. apply Hiff. split; [repeat split; lra|].
  destruct Hedge as [He|[He|[He|He]]];
    [left | right; left | right; right; left | right; right; right]; lra.
Qed.

(** ** The geometry kernel: ray casting outside the box of the polygon *)




Lemma last_cons_default {A} (l : list A) :
  ∀ a d : A, List.last (a :: l) d = List.last l a.
Proof.
  induction l as [|b l IH]; intros a d; [done|].
  change (List.last (a :: b :: l) d) with (List.last (b :: l) d).
  by rewrite !IH.
Qed.




(** ** Pointer gestures *)

Lemma find_rev_Some {A} (hit : A → bool) (els : list A) (el : A) :
  List.find hit (rev els) = Some el ↔
  ∃ l1 l2, els = l1 ++ el :: l2 ∧ hit el = true ∧ Forall (λ e, hit e = false) l2.
Proof.
  induction els as [|a els IH] using rev_ind.
  - simpl. split; [discriminate|]. intros (l1 & l2 & Heq & _). by destruct l1.
  - rewrite rev_app_distr. simpl. destruct (hit a) eqn:Ha.
    + split.
      * intros [= <-]. exists els, []. by repeat split.
      * intros (l1 & l2 & Heq & Hhit & Hall).
        destruct l2 as [|b l2 _] using rev_ind.
        -- apply app_inj_tail in Heq as [_ ->]. done.
        -- rewrite app_comm_cons, app_assoc in Heq. apply app_inj_tail in Heq as [_ ->].
           apply Forall_app in Hall as [_ Hb]. rewrite Forall_singleton in Hb.
           congruence.
    + rewrite IH. split.
      * intros (l1 & l2 & -> & Hhit & Hall). exists l1, (l2 ++ [a]).
        rewrite <- app_assoc. repeat split; auto.
        apply Forall_app. split; [done|]. by apply Forall_singleton.
      * intros (l1 & l2 & Heq & Hhit & Hall).
        destruct l2 as [|b l2 _] using rev_ind.
        -- apply app_inj_tail in Heq as [_ ->]. congruence.
        -- rewrite app_comm_cons, app_assoc in Heq. apply app_inj_tail in Heq as [-> ->].
           apply Forall_app in Hall as [Hall _]. exists l1, l2. by repeat split.
Qed.

Lemma find_rev_None {A} (hit : A → bool) (els : list A) :
  List.find hit (rev els) = None ↔ Forall (λ e, hit e = false) els.
Proof.
  rewrite Forall_forall. split.
  - intros Hnone e He. eapply find_none in Hnone; [done|].
    apply in_rev. rewrite rev_involutive. by apply list_elem_of_In.
  - intros Hall. destruct (List.find hit (rev els)) as [el|] eqn:Hf; [|done].
    apply find_some in Hf as [Hin Hhit]. apply in_rev, list_elem_of_In in Hin.
    rewrite (Hall el Hin) in Hhit. discriminate.
Qed.

Section PointerProperties.

Variable sqrt : number → number.
Variable ctx : option (number → string → number).
Variable canvas : option DOMRect.
Variable options : ToolOptions.

Local Abbreviation handleMouseDown := (Pointer.handleMouseDown sqrt ctx canvas options).
Local Abbreviation handleMouseMove := (Pointer.handleMouseMove sqrt ctx canvas options).
Local Abbreviation handleMouseMove_hover :=
  (Pointer.handleMouseMove_hover sqrt ctx canvas options).
Local Abbreviation handleMouseUp := (Pointer.handleMouseUp ctx options).
Local Abbreviation moves := (Pointer.moves sqrt ctx canvas options).
Local Abbreviation gesture := (Pointer.gesture sqrt ctx canvas options).
Local Abbreviation getMousePos := (Pointer.getMousePos canvas).

Lemma moves_snoc (es : list MouseEvent) (e : MouseEvent) :
  ∀ ed : Editor,
  moves (es ++ [e]) ed =
  match moves es ed with
  | Some (ed', sent) =>
    match handleMouseMove e ed' with
    | Some (ed'', sent') => Some (ed'', sent ++ sent')
    | None => None
    end
  | None => None
  end.
Proof.
  induction es as [|e0 es IH]; intros ed; simpl.
  - destruct (handleMouseMove e ed) as [[ed' sent]|]; [|done].
    by rewrite app_nil_r.
  - destruct (handleMouseMove e0 ed) as [[ed0 sent0]|]; [|done].
    rewrite IH. destruct (moves es ed0) as [[ed1 sent1]|]; [|done].
    destruct (handleMouseMove e ed1) as [[ed2 sent2]|]; [|done].
    by rewrite app_assoc.
Qed.

Lemma moves_panning (es : list MouseEvent) (final : MouseEvent) :
  ∀ ed : Editor,
  isPanning (board ed) = true →
  ∃ ed', moves (es ++ [final]) ed = Some (ed', []) ∧
         board ed' =
           setOffset (mkPoint (ev_clientX final - x (panStart (board ed)))%Q
                              (ev_clientY final - y (panStart (board ed)))%Q) (board ed).
Proof.
  induction es as [|e es IH]; intros ed Hpan; simpl.
  - unfold Pointer.handleMouseMove, Pointer.handleMouseMove_hover. rewrite Hpan.
    eexists. split; reflexivity.
  - unfold Pointer.handleMouseMove at 1, Pointer.handleMouseMove_hover. rewrite Hpan.
    edestruct IH as (ed' & -> & Hb); [|eexists; split; [reflexivity|]].
    + simpl. exact Hpan.
    + rewrite Hb. simpl. destruct (board ed). reflexivity.
Qed.

(** X12.  Panning follows the pointer.  A gesture that starts with the middle
    button, or with the left button and Shift, and moves at least once, ends
    with the offset moved by the displacement of the pointer from the first
    event to the last move; it leaves the zoom, the elements, the selection
    and the laser map alone, calls no prop, and the world point under the
    pointer at the end is the one that was under it at the start. *)
Theorem pan_follows_pointer (down : MouseEvent) (es : list MouseEvent) (final : MouseEvent)
    (now : number) (newId : string) (ed : Editor) :
  ev_button down = 1%Z ∨ (ev_button down = 0%Z ∧ ev_shiftKey down = true) →
  ∃ ed',
    gesture down (es ++ [final]) now newId ed = Some (ed', []) ∧
    Viewport.pointEq (offset (board ed'))
      (mkPoint (x (offset (board ed)) + (ev_clientX final - ev_clientX down))%Q
               (y (offset (board ed)) + (ev_clientY final - ev_clientY down))%Q) ∧
    isPanning (board ed') = false ∧
    zoom (board ed') = zoom (board ed) ∧
    elements (board ed') = elements (board ed) ∧
    selectedElementIds (board ed') = selectedElementIds (board ed) ∧
    laserElements (board ed') = laserElements (board ed) ∧
    (¬ (zoom (board ed) == 0)%Q →
     Viewport.pointEq
       (getMousePos (ev_clientX final) (ev_clientY final) (board ed'))
       (getMousePos (ev_clientX down) (ev_clientY down) (board ed))).
Proof.
  intros Hbtn. unfold Pointer.gesture.
  assert (Pointer.handleMouseDown sqrt ctx canvas options down ed =
          (withBoard (λ w, setPanStart (mkPoint (ev_clientX down - x (offset w))%Q
                                               (ev_clientY down - y (offset w))%Q)
                             (setIsPanning true w)) ed, [])) as ->.
  { unfold Pointer.handleMouseDown.
    destruct Hbtn as [-> | [-> ->]]; reflexivity. }
  edestruct (moves_panning es final) as (ed2 & -> & Hb); [reflexivity|].
  unfold Pointer.handleMouseUp, Gesture.handleMouseUp. rewrite Hb. simpl.
  eexists. split; [reflexivity|]. simpl.
  split; [split; simpl; ring|]. repeat (split; [reflexivity|]).
  intros Hz. unfold Pointer.getMousePos. destruct canvas as [rect|]; [|by split].
  split; simpl; field; done.
Qed.

Lemma shape_path_snoc (p0 : Point) (ps : list Point) (q : Point) :
  match (match ps with [] => [p0] | q0 :: _ => [p0; List.last ps q0] end) with
  | p0' :: _ => Some [p0'; q]
  | [] => None
  end
  = Some (match ps ++ [q] with
          | [] => [p0]
          | q0 :: _ => [p0; List.last (ps ++ [q]) q0]
          end).
Proof.
  destruct ps as [|q0 ps]; [done|].
  destruct ((q0 :: ps) ++ [q]) as [|c l] eqn:E; [done|].
  by rewrite <- E, last_last.
Qed.

Lemma workingPath_snoc (t : Tool) (p0 : Point) (ps : list Point) (q : Point) :
  Pointer.extendPath t q (workingPath t p0 ps) = Some (workingPath t p0 (ps ++ [q])).
Proof.
  unfold workingPath, Pointer.extendPath.
  destruct t; try reflexivity; apply shape_path_snoc.
Qed.

Lemma move_drawing (e : MouseEvent) (ed : Editor) (p0 : Point) (ps : list Point) :
  drawsElement (opt_tool options) →
  isPanning (board ed) = false → isDrawing (board ed) = true →
  currentPoints (board ed) = workingPath (opt_tool options) p0 ps →
  let point := getMousePos (ev_clientX e) (ev_clientY e) (board ed) in
  handleMouseMove e ed =
    Some (withBoard (setCurrentPoints (workingPath (opt_tool options) p0 (ps ++ [point])))
            (setHoveredElementId None (setLastMousePos point ed)), []).
Proof.
  intros Htool Hpan Hdraw Hpath point.
  unfold Pointer.handleMouseMove, Pointer.handleMouseMove_hover.
  rewrite Hpan, Hdraw. fold point.
  destruct Htool as [H|[H|[H|[H|[H|H]]]]]; rewrite H in *;
    rewrite !(bool_decide_eq_false_2 (_ = lasso)) by discriminate;
    cbn -[workingPath Pointer.extendPath];
    rewrite Hpath, (workingPath_snoc _ p0 ps point); reflexivity.
Qed.

Lemma moves_drawing (es : list MouseEvent) :
  ∀ (ed : Editor) (p0 : Point) (ps : list Point),
  drawsElement (opt_tool options) →
  isPanning (board ed) = false → isDrawing (board ed) = true →
  currentPoints (board ed) = workingPath (opt_tool options) p0 ps →
  ∃ ed',
    moves es ed = Some (ed', []) ∧
    board ed' =
      setCurrentPoints
        (workingPath (opt_tool options) p0
           (ps ++ ((λ e, getMousePos (ev_clientX e) (ev_clientY e) (board ed)) <$> es)))
        (board ed).
Proof.
  induction es as [|e es IH]; intros ed p0 ps Htool Hpan Hdraw Hpath.
  - exists ed. split; [done|]. simpl. rewrite app_nil_r, <- Hpath. by destruct (board ed).
  - cbn [Pointer.moves]. rewrite (move_drawing e ed p0 ps) by done.
    set (point := getMousePos (ev_clientX e) (ev_clientY e) (board ed)).
    edestruct (IH (withBoard (setCurrentPoints
                                (workingPath (opt_tool options) p0 (ps ++ [point])))
                     (setHoveredElementId None (setLastMousePos point ed)))
                  p0 (ps ++ [point]))
      as (ed' & -> & Hb); [exact Htool | exact Hpan | exact Hdraw | reflexivity |].
    eexists. split; [reflexivity|].
    rewrite Hb. simpl. rewrite <- app_assoc. simpl.
    destruct (board ed). reflexivity.
Qed.

Lemma handleMouseUp_commit (now : number) (newId : string) (w : Whiteboard) :
  drawsElement (opt_tool options) →
  isPanning w = false → isDrawing w = true → currentPoints w ≠ [] →
  let drawEvent :=
    mkDrawEvent "draw" (opt_tool options) (opt_color options) (opt_lineWidth options)
      (opt_lineType options) (currentPoints w) now newId
      None None None None None None in
  Gesture.handleMouseUp ctx options now newId w =
    (setCurrentPoints [] (setIsDrawing false
       (setElements (λ prev, prev ++ [drawEvent]) w)),
     [SendDraw drawEvent]).
Proof.
  intros Htool Hp Hd Hpts. unfold Gesture.handleMouseUp. rewrite Hp, Hd.
  destruct (currentPoints w) as [|p ps] eqn:Hcp; [done|].
  destruct Htool as [H|[H|[H|[H|[H|H]]]]]; rewrite H; reflexivity.
Qed.

(** X13.  A drawing gesture commits one element.  With the pen, eraser, line,
    rectangle, circle or arrow tool, a left-button gesture (no Shift) that
    starts while the canvas is not being panned appends exactly one element
    and sends it: its points are the world positions of every pointer event
    for the pen and the eraser, and of the first and the last one alone for
    the shapes, however many moves there were. *)
Theorem draw_gesture_commits (down : MouseEvent) (es : list MouseEvent)
    (now : number) (newId : string) (ed : Editor) :
  drawsElement (opt_tool options) →
  ev_button down = 0%Z → ev_shiftKey down = false →
  isPanning (board ed) = false →
  let world e := getMousePos (ev_clientX e) (ev_clientY e) (board ed) in
  let drawEvent :=
    mkDrawEvent "draw" (opt_tool options) (opt_color options) (opt_lineWidth options)
      (opt_lineType options)
      (workingPath (opt_tool options) (world down) (world <$> es))
      now newId None None None None None None in
  ∃ ed',
    gesture down es now newId ed = Some (ed', [SendDraw drawEvent]) ∧
    elements (board ed') = elements (board ed) ++ [drawEvent] ∧
    isDrawing (board ed') = false ∧ currentPoints (board ed') = [] ∧
    laserElements (board ed') = laserElements (board ed) ∧
    (length (points drawEvent) =
       if freehand (opt_tool options) then S (length es)
       else if es is [] then 1 else 2)%nat.
Proof.
  intros Htool Hbtn Hshift Hpan world drawEvent. unfold Pointer.gesture.
  assert (Pointer.handleMouseDown sqrt ctx canvas options down ed =
          (withBoard (λ w, setCurrentPoints [world down] (setIsDrawing true w)) ed, []))
    as ->.
  { unfold Pointer.handleMouseDown. rewrite Hbtn, Hshift. simpl.
    destruct Htool as [H|[H|[H|[H|[H|H]]]]]; rewrite H; reflexivity. }
  edestruct (moves_drawing es) as (ed2 & -> & Hb);
    [exact Htool | exact Hpan | reflexivity | |].
  { simpl. instantiate (1 := []). instantiate (1 := world down).
    unfold workingPath. by destruct (freehand _). }
  unfold Pointer.handleMouseUp.
  assert (workingPath (opt_tool options) (world down) (world <$> es) ≠ []) as Hne.
  { unfold workingPath. destruct (freehand _); [done|]. by destruct (world <$> es). }
  rewrite (handleMouseUp_commit now newId (board ed2)); try done.
  - rewrite Hb. simpl.
    eexists. split; [reflexivity|]. simpl. repeat (split; [reflexivity|]).
    unfold workingPath.
    destruct (freehand _); simpl; [by rewrite length_fmap|]. by destruct es.
  - by rewrite Hb.
  - by rewrite Hb.
  - by rewrite Hb.
Qed.

Lemma eventEq_refl (el : DrawEvent) : eventEq el el.
Proof.
  split; [done|]. unfold pointsEq. induction (points el); constructor; [|done].
  split; reflexivity.
Qed.

Lemma eventEq_trans (e1 e2 e3 : DrawEvent) : eventEq e1 e2 → eventEq e2 e3 → eventEq e1 e3.
Proof.
  intros [H1 P1] [H2 P2]. split; [congruence|]. unfold pointsEq in *.
  revert P2. generalize (points e3). induction P1 as [|p q ps qs Hpq _ IH]; intros rs P2.
  - inversion P2. constructor.
  - inversion P2 as [|? r ? rs' Hqr Hrest]; subst. constructor; [|by apply IH].
    destruct Hpq, Hqr. split; etrans; eauto.
Qed.

Lemma eventEq_id (e1 e2 : DrawEvent) : eventEq e1 e2 → id e1 = id e2.
Proof. intros [H _]. by injection H. Qed.

Lemma shift_pointsEq (ps qs : list Point) (dx dy dx' dy' : number) :
  pointsEq ps qs → (dx == dx')%Q → (dy == dy')%Q →
  pointsEq ((λ p, mkPoint (x p + dx)%Q (y p + dy)%Q) <$> ps)
           ((λ p, mkPoint (x p + dx')%Q (y p + dy')%Q) <$> qs).
Proof.
  intros Hpq Hx Hy. unfold pointsEq in *.
  induction Hpq as [|p q ps qs [Hp1 Hp2] _ IH]; simpl; constructor; [|done].
  split; simpl; lra.
Qed.

Lemma translateSelected_eventEq (sel : gset string) (dx dy dx' dy' : number)
    (l l' : list DrawEvent) :
  Forall2 eventEq l l' → (dx == dx')%Q → (dy == dy')%Q →
  Forall2 eventEq (Pointer.translateSelected sel dx dy l)
                  (Pointer.translateSelected sel dx' dy' l').
Proof.
  intros Hll Hx Hy. unfold Pointer.translateSelected.
  induction Hll as [|e e' l l' He _ IH]; simpl; constructor; [|done].
  rewrite (eventEq_id _ _ He). destruct (bool_decide _); [|done].
  destruct He as [Hrest Hpts]. split.
  - unfold withPoints in *. simpl. injection Hrest as -> -> -> -> -> -> -> -> -> -> -> -> ->.
    reflexivity.
  - simpl. by apply shift_pointsEq.
Qed.

Lemma translateSelected_compose (sel : gset string) (dx1 dy1 dx2 dy2 : number)
    (l : list DrawEvent) :
  Forall2 eventEq
    (Pointer.translateSelected sel dx2 dy2 (Pointer.translateSelected sel dx1 dy1 l))
    (Pointer.translateSelected sel (dx1 + dx2) (dy1 + dy2) l).
Proof.
  unfold Pointer.translateSelected. induction l as [|el l IH]; simpl; constructor; [|done].
  destruct (bool_decide (id el ∈ sel)) eqn:Hsel; simpl; rewrite Hsel; [|apply eventEq_refl].
  split; [done|]. simpl. unfold pointsEq.
  induction (points el) as [|p ps IHp]; simpl; constructor; [|done].
  split; simpl; ring.
Qed.

Lemma translateSelected_ids (sel : gset string) (dx dy : number) (l : list DrawEvent) :
  id <$> Pointer.translateSelected sel dx dy l = id <$> l.
Proof.
  unfold Pointer.translateSelected. rewrite <- list_fmap_compose.
  apply list_fmap_ext. intros i el _. simpl. by destruct (bool_decide _).
Qed.

Lemma Forall2_eventEq_trans (l1 l2 l3 : list DrawEvent) :
  Forall2 eventEq l1 l2 → Forall2 eventEq l2 l3 → Forall2 eventEq l1 l3.
Proof.
  intros H12. revert l3. induction H12 as [|a b l1 l2 Hab _ IH]; intros l3 H23.
  - inversion H23. constructor.
  - inversion H23; subst. constructor; [by eapply eventEq_trans | by apply IH].
Qed.

Lemma Forall2_eventEq_ids (l1 l2 : list DrawEvent) :
  Forall2 eventEq l1 l2 → id <$> l1 = id <$> l2.
Proof.
  induction 1 as [|a b l1 l2 Hab _ IH]; [done|].
  rewrite !fmap_cons. by rewrite (eventEq_id _ _ Hab), IH.
Qed.

Lemma moves_dragging (es : list MouseEvent) :
  ∀ (ed : Editor) (start : Point),
  opt_tool options = lasso →
  isPanning (board ed) = false → isDragging (board ed) = true →
  dragStart (board ed) = Some start →
  ∃ ed' (pos : Point),
    moves es ed = Some (ed', []) ∧
    pos = List.last ((λ e, getMousePos (ev_clientX e) (ev_clientY e) (board ed)) <$> es)
                    start ∧
    Forall2 eventEq (elements (board ed'))
      (Pointer.translateSelected (selectedElementIds (board ed))
         (x pos - x start) (y pos - y start) (elements (board ed))) ∧
    board ed' = setDragStart (Some pos) (setElements (λ _, elements (board ed')) (board ed)).
Proof.
  induction es as [|e es IH]; intros ed start Htool Hpan Hdrag Hstart.
  - exists ed, start. split; [done|]. split; [done|]. split.
    + eapply Forall2_eventEq_trans; [|apply translateSelected_eventEq;
        [apply Forall2_same_length_lookup_2; [done|]; intros i a b Ha Hb;
         rewrite Ha in Hb; injection Hb as <-; apply eventEq_refl
        | instantiate (1 := 0%Q); ring | instantiate (1 := 0%Q); ring]].
      unfold Pointer.translateSelected.
      induction (elements (board ed)) as [|el l IHl]; simpl; constructor; [|done].
      destruct (bool_decide _); [|apply eventEq_refl].
      split; [done|]. simpl. unfold pointsEq.
      induction (points el) as [|p ps IHp]; simpl; constructor; [|done].
      split; simpl; ring.
    + rewrite <- Hstart. by destruct (board ed).
  - cbn [Pointer.moves].
    set (point := getMousePos (ev_clientX e) (ev_clientY e) (board ed)).
    set (ed1 := withBoard (λ w, setDragStart (Some point)
                                  (setElements
                                     (Pointer.translateSelected (selectedElementIds w)
                                        (x point - x start) (y point - y start)) w))
                  (setLastMousePos point ed)).
    assert (handleMouseMove e ed = Some (ed1, [])) as ->.
    { unfold Pointer.handleMouseMove, Pointer.handleMouseMove_hover.
      rewrite Hpan, Htool, Hdrag, Hstart. reflexivity. }
    destruct (IH ed1 point) as (ed' & pos & -> & Hpos & Hel & Hb); [done..|].
    simpl in Hpos, Hel, Hb.
    exists ed', pos. split; [done|]. split.
    { rewrite Hpos, fmap_cons, last_cons_default. reflexivity. }
    split.
    + eapply Forall2_eventEq_trans; [exact Hel|].
      eapply Forall2_eventEq_trans; [apply translateSelected_compose|].
      apply translateSelected_eventEq; [|ring..].
      apply Forall2_same_length_lookup_2; [done|]. intros i a b Ha Hb'.
      rewrite Ha in Hb'. injection Hb' as <-. apply eventEq_refl.
    + rewrite Hb. by destruct (board ed).
Qed.

Lemma movedBy_compose (dx1 dy1 dx2 dy2 dx dy : number) (a b c : DrawEvent) :
  movedBy dx1 dy1 a b → movedBy dx2 dy2 b c →
  (dx == dx1 + dx2)%Q → (dy == dy1 + dy2)%Q →
  movedBy dx dy a c.
Proof.
  intros [Hab Pab] [Hbc Pbc] Hx Hy. split; [congruence|].
  revert Pbc. generalize (points c).
  induction Pab as [|p q ps qs [Hp1 Hp2] _ IH]; intros rs Pbc.
  - inversion Pbc. constructor.
  - inversion Pbc as [|? r ? rs' [Hq1 Hq2] Hrest]; subst.
    constructor; [split; lra | by apply IH].
Qed.

Lemma draggedBy_compose (sel : gset string) (dx1 dy1 dx2 dy2 dx dy : number)
    (a b c : DrawEvent) :
  draggedBy sel dx1 dy1 a b → draggedBy sel dx2 dy2 b c →
  (dx == dx1 + dx2)%Q → (dy == dy1 + dy2)%Q →
  draggedBy sel dx dy a c.
Proof.
  unfold draggedBy. intros Hab Hbc Hx Hy.
  destruct (bool_decide (id a ∈ sel)) eqn:Ha.
  - assert (id b = id a) as Hid by (destruct Hab as [H _]; by injection H).
    rewrite Hid, Ha in Hbc. by eapply movedBy_compose.
  - subst b. rewrite Ha in Hbc. done.
Qed.

Lemma draggedBy_zero (sel : gset string) (dx dy : number) (el : DrawEvent) :
  (dx == 0)%Q → (dy == 0)%Q → draggedBy sel dx dy el el.
Proof.
  intros Hx Hy. unfold draggedBy. destruct (bool_decide _); [|done].
  split; [done|]. induction (points el); constructor; [split; lra | done].
Qed.

(** The updater of the drag does to every element what a drag by its step
    is to do. *)
Lemma translateSelected_draggedBy (sel : gset string) (dx dy : number)
    (l : list DrawEvent) :
  Forall2 (draggedBy sel dx dy) l (Pointer.translateSelected sel dx dy l).
Proof.
  unfold Pointer.translateSelected.
  induction l as [|el l IH]; [constructor|]. rewrite fmap_cons. constructor; [|exact IH].
  unfold draggedBy. destruct (bool_decide (id el ∈ sel)); [|done].
  split; [done|]. cbn [points withPoints].
  induction (points el) as [|p ps IHp]; [constructor|]. rewrite fmap_cons.
  constructor; [split; reflexivity | exact IHp].
Qed.

Lemma Forall2_draggedBy_compose (sel : gset string) (dx1 dy1 dx2 dy2 dx dy : number)
    (l1 l2 l3 : list DrawEvent) :
  Forall2 (draggedBy sel dx1 dy1) l1 l2 → Forall2 (draggedBy sel dx2 dy2) l2 l3 →
  (dx == dx1 + dx2)%Q → (dy == dy1 + dy2)%Q →
  Forall2 (draggedBy sel dx dy) l1 l3.
Proof.
  intros H12 H23 Hx Hy. revert l3 H23.
  induction H12 as [|a b l1 l2 Hab _ IH]; intros l3 H23.
  - inversion H23. constructor.
  - inversion H23; subst. constructor; [by eapply draggedBy_compose | by apply IH].
Qed.

(** The moves of a drag add up, element by element. *)
Lemma moves_dragging_by (es : list MouseEvent) :
  ∀ (ed : Editor) (start : Point),
  opt_tool options = lasso →
  isPanning (board ed) = false → isDragging (board ed) = true →
  dragStart (board ed) = Some start →
  let pos := List.last ((λ e, getMousePos (ev_clientX e) (ev_clientY e) (board ed)) <$> es)
                       start in
  ∃ ed',
    moves es ed = Some (ed', []) ∧
    Forall2 (draggedBy (selectedElementIds (board ed))
               (x pos - x start) (y pos - y start))
            (elements (board ed)) (elements (board ed')).
Proof.
  induction es as [|e es IH]; intros ed start Htool Hpan Hdrag Hstart pos.
  - exists ed. split; [done|]. subst pos. cbn [fmap list_fmap List.last].
    apply Forall2_same_length_lookup_2; [done|]. intros i a b Ha Hb.
    rewrite Ha in Hb. injection Hb as <-. apply draggedBy_zero; simpl; lra.
  - cbn [Pointer.moves].
    set (point := getMousePos (ev_clientX e) (ev_clientY e) (board ed)).
    set (ed1 := withBoard (λ w, setDragStart (Some point)
                                  (setElements
                                     (Pointer.translateSelected (selectedElementIds w)
                                        (x point - x start) (y point - y start)) w))
                  (setLastMousePos point ed)).
    assert (handleMouseMove e ed = Some (ed1, [])) as ->.
    { unfold Pointer.handleMouseMove, Pointer.handleMouseMove_hover.
      rewrite Hpan, Htool, Hdrag, Hstart. reflexivity. }
    destruct (IH ed1 point) as (ed' & -> & Hel); [done..|].
    cbn [board ed1 withBoard setLastMousePos selectedElementIds elements
         setDragStart setElements] in Hel.
    exists ed'. split; [done|].
    eapply Forall2_draggedBy_compose;
      [apply translateSelected_draggedBy | exact Hel | |].
    + subst pos. rewrite fmap_cons, last_cons_default.
      change (λ e0 : MouseEvent,
                getMousePos (ev_clientX e0) (ev_clientY e0)
                  (setDragStart _ (setElements _ (board ed))))
        with (λ e0 : MouseEvent,
                getMousePos (ev_clientX e0) (ev_clientY e0) (board ed)).
      fold point. ring.
    + subst pos. rewrite fmap_cons, last_cons_default.
      change (λ e0 : MouseEvent,
                getMousePos (ev_clientX e0) (ev_clientY e0)
                  (setDragStart _ (setElements _ (board ed))))
        with (λ e0 : MouseEvent,
                getMousePos (ev_clientX e0) (ev_clientY e0) (board ed)).
      fold point. ring.
Qed.

(** X14.  Dragging a lasso selection.  While the selected elements are dragged,
    each move translates them by the step from the previous position, and
    the steps add up.  After any number of moves and the release, the list
    has the elements it had, place by place: an element whose id is selected
    has every one of its points displaced by the vector from the point where
    the drag started to the last position of the pointer, and nothing else
    of it changed; an element whose id is not selected is as it was.  The
    release sends every selected element, in list order, and ends the drag;
    nothing is sent during the moves. *)
Theorem lasso_drag_translates (es : list MouseEvent) (now : number) (newId : string)
    (ed : Editor) (start : Point) :
  opt_tool options = lasso →
  isPanning (board ed) = false → isDragging (board ed) = true →
  dragStart (board ed) = Some start →
  let pos := List.last ((λ e, getMousePos (ev_clientX e) (ev_clientY e) (board ed)) <$> es)
                       start in
  ∃ ed1 ed',
    moves es ed = Some (ed1, []) ∧
    handleMouseUp now newId ed1 =
      (ed', SendDraw <$> List.filter
                           (λ el, bool_decide (id el ∈ selectedElementIds (board ed)))
                           (elements (board ed'))) ∧
    Forall2 (λ el el',
               if bool_decide (id el ∈ selectedElementIds (board ed)) then
                 withPoints [] el' = withPoints [] el ∧
                 Forall2 (λ p p', (x p' == x p + (x pos - x start))%Q ∧
                                  (y p' == y p + (y pos - y start))%Q)
                         (points el) (points el')
               else el' = el)
            (elements (board ed)) (elements (board ed')) ∧
    Forall2 eventEq (elements (board ed'))
      (Pointer.translateSelected (selectedElementIds (board ed))
         (x pos - x start) (y pos - y start) (elements (board ed))) ∧
    id <$> elements (board ed') = id <$> elements (board ed) ∧
    isDragging (board ed') = false ∧ dragStart (board ed') = None ∧
    selectedElementIds (board ed') = selectedElementIds (board ed).
Proof.
  intros Htool Hpan Hdrag Hstart pos.
  destruct (moves_dragging es ed start Htool Hpan Hdrag Hstart)
    as (ed1 & pos' & Hm & Hpos & Hel & Hb).
  destruct (moves_dragging_by es ed start Htool Hpan Hdrag Hstart)
    as (ed1' & Hm' & Hby).
  rewrite Hm in Hm'. injection Hm' as <-.
  subst pos'. fold pos in Hel, Hb, Hby.
  assert (isPanning (board ed1) = false) as Hpan1 by (by rewrite Hb).
  assert (isDragging (board ed1) = true) as Hdrag1 by (by rewrite Hb).
  assert (selectedElementIds (board ed1) = selectedElementIds (board ed)) as Hsel1
    by (by rewrite Hb).
  exists ed1,
    (withBoard (λ _, setDragStart None (setIsDragging false (board ed1))) ed1).
  split; [exact Hm|].
  unfold Pointer.handleMouseUp, Gesture.handleMouseUp.
  rewrite Hpan1, Htool, Hdrag1, Hsel1. simpl.
  split; [reflexivity|]. simpl. split; [exact Hby|]. split; [exact Hel|]. split; [|done].
  rewrite (Forall2_eventEq_ids _ _ Hel). apply translateSelected_ids.
Qed.

(** X15.  The object eraser.  Pointer down deletes the topmost element under the
    pointer (the last one in the list that the hit-test accepts, with
    threshold 15): every element with its id leaves the list, one delete is
    sent for it, and the id opens the set of ids deleted in this gesture;
    when nothing is under the pointer, nothing is deleted or sent.  While
    the gesture lasts, a move over an element deletes it in the same way
    unless its id is already in that set, in which case nothing is sent. *)
Theorem object_eraser_deletes_topmost (e : MouseEvent) (ed : Editor) :
  opt_tool options = object_eraser →
  isPanning (board ed) = false →
  let point := getMousePos (ev_clientX e) (ev_clientY e) (board ed) in
  let hit := λ el, Geometry.isPointNearElement sqrt ctx point el 15 in
  (ev_button e = 0%Z → ev_shiftKey e = false →
   let r := handleMouseDown e ed in
   isDrawing (board r.1) = true ∧
   (Forall (λ el, hit el = false) (elements (board ed)) →
      r.2 = [] ∧ elements (board r.1) = elements (board ed) ∧
      deletedElements (board r.1) = ∅) ∧
   (∀ l1 el l2,
      elements (board ed) = l1 ++ el :: l2 → hit el = true →
      Forall (λ el', hit el' = false) l2 →
      r.2 = [SendDelete (id el)] ∧
      elements (board r.1) = Reconciler.removeById (id el) (elements (board ed)) ∧
      (id el ∉ id <$> elements (board r.1)) ∧
      deletedElements (board r.1) = {[ id el ]}))
  ∧ (isDrawing (board ed) = true →
     ∃ ed' sent,
       handleMouseMove_hover e ed = Pointer.Drawing point (ed', sent) ∧
       (Forall (λ el, hit el = false) (elements (board ed)) →
          sent = [] ∧ elements (board ed') = elements (board ed)) ∧
       (∀ l1 el l2,
          elements (board ed) = l1 ++ el :: l2 → hit el = true →
          Forall (λ el', hit el' = false) l2 →
          if bool_decide (id el ∈ deletedElements (board ed)) then
            sent = [] ∧ elements (board ed') = elements (board ed) ∧
            deletedElements (board ed') = deletedElements (board ed)
          else
            sent = [SendDelete (id el)] ∧
            elements (board ed') = Reconciler.removeById (id el) (elements (board ed)) ∧
            (id el ∉ id <$> elements (board ed')) ∧
            deletedElements (board ed') = {[ id el ]} ∪ deletedElements (board ed))).
Proof.
  intros Htool Hpan point hit. split.
  - intros Hbtn Hshift r. subst r. unfold Pointer.handleMouseDown.
    rewrite Hbtn, Hshift, Htool. cbn [bool_decide decide_rel orb andb negb].
    rewrite (bool_decide_eq_false_2 (0%Z = 1%Z)) by done.
    rewrite (bool_decide_eq_true_2 (0%Z = 0%Z)) by done. cbn [orb andb negb].
    fold point. fold hit.
    destruct (Pointer.topmost hit (elements (board ed))) as [clicked|] eqn:Htop.
    + split; [done|]. split.
      * intros Hnone. apply find_rev_None in Hnone.
        unfold Pointer.topmost in Htop. congruence.
      * intros l1 el l2 Heq Hhit Hrest.
        assert (Pointer.topmost hit (elements (board ed)) = Some el) as Hel
          by (apply find_rev_Some; eauto).
        rewrite Htop in Hel. injection Hel as ->.
        split; [done|]. split; [done|]. split; [apply removeById_ids | done].
    + split; [done|]. split; [done|].
      intros l1 el l2 Heq Hhit Hrest.
      assert (Pointer.topmost hit (elements (board ed)) = Some el) as Hel
        by (apply find_rev_Some; eauto).
      congruence.
  - intros Hdraw. unfold Pointer.handleMouseMove_hover.
    rewrite Hpan, Htool, Hdraw. rewrite (bool_decide_eq_false_2 (_ = lasso)) by done.
    cbn [andb negb]. fold point. fold hit.
    destruct (Pointer.topmost hit (elements (board ed))) as [hovered|] eqn:Htop.
    + destruct (bool_decide (id hovered ∈ deletedElements (board ed))) eqn:Hdel;
        cbn [negb andb]; eexists _, _; (split; [reflexivity|]); split.
      * intros Hnone. apply find_rev_None in Hnone.
        unfold Pointer.topmost in Htop. congruence.
      * intros l1 el l2 Heq Hhit Hrest.
        assert (Pointer.topmost hit (elements (board ed)) = Some el) as Hel
          by (apply find_rev_Some; eauto).
        rewrite Htop in Hel. injection Hel as <-. rewrite Hdel. done.
      * intros Hnone. apply find_rev_None in Hnone.
        unfold Pointer.topmost in Htop. congruence.
      * intros l1 el l2 Heq Hhit Hrest.
        assert (Pointer.topmost hit (elements (board ed)) = Some el) as Hel
          by (apply find_rev_Some; eauto).
        rewrite Htop in Hel. injection Hel as <-. rewrite Hdel.
        split; [done|]. split; [done|]. split; [apply removeById_ids | done].
    + eexists _, _. split; [reflexivity|]. split; [done|].
      intros l1 el l2 Heq Hhit Hrest.
      assert (Pointer.topmost hit (elements (board ed)) = Some el) as Hel
        by (apply find_rev_Some; eauto).
      congruence.
Qed.

End PointerProperties.

(** ** Text input *)

Lemma replaceById_ids (ident : string) (replacement : DrawEvent) (prev : list DrawEvent) :
  id replacement = ident → id <$> replaceById ident replacement prev = id <$> prev.
Proof.
  intros Hid. unfold replaceById. rewrite <- list_fmap_compose.
  apply list_fmap_ext. intros i el _. simpl.
  destruct (String.eqb (id el) ident) eqn:He; [|done].
  apply String.eqb_eq in He. congruence.
Qed.

Lemma replaceById_elem (ident : string) (replacement el : DrawEvent)
    (prev : list DrawEvent) :
  el ∈ replaceById ident replacement prev → el ∈ prev ∨ el = replacement.
Proof.
  unfold replaceById. intros Hin. apply list_elem_of_fmap in Hin as (el0 & -> & Hel0).
  destruct (String.eqb (id el0) ident); auto.
Qed.

Section TextProperties.

Variable isBlank : string → bool.
Variable options : ToolOptions.

(** X16.  Submitting the text input, in the mouse/touch revision.  Nothing happens
    when the input is not open.  Otherwise the input closes, and an empty
    text is never stored: every element of the new list was in the old one
    or is a text element that carries the submitted, non-blank text at the
    position of the input.  A blank text sends no draw event and only ever
    removes elements; when it edits an element, the element is deleted and
    one delete is sent.  Ids that were pairwise distinct stay so, given a
    fresh id for a new text. *)
Theorem handleTextSubmit_never_stores_blank (now : number) (newId : string)
    (ed : Editor) :
  let r := TextEdit.handleTextSubmit isBlank options now newId ed in
  (textInputPos ed = None → r = (ed, []))
  ∧ (∀ pos, textInputPos ed = Some pos →
     (textInputPos r.1 = None ∧ textInputValue r.1 = ""%string ∧ editingTextId r.1 = None)
     ∧ (∀ el, el ∈ elements (board r.1) →
              el ∈ elements (board ed) ∨
              (tool el = text_tool ∧ text el = Some (textInputValue ed) ∧
               isBlank (textInputValue ed) = false ∧ points el = [pos]))
     ∧ (isBlank (textInputValue ed) = true →
          (∀ ev, SendDraw ev ∉ r.2) ∧
          sublist (elements (board r.1)) (elements (board ed)) ∧
          (∀ ident, TextEdit.editing ed = Some ident →
                    (ident ∉ id <$> elements (board r.1)) ∧ r.2 = [SendDelete ident]))
     ∧ (NoDup (id <$> elements (board ed)) →
        (newId ∉ id <$> elements (board ed)) →
        NoDup (id <$> elements (board r.1)))).
Proof.
  intros r. subst r. unfold TextEdit.handleTextSubmit. split.
  { by intros ->. }
  intros pos ->.
  destruct (isBlank (textInputValue ed)) eqn:Hblank;
    destruct (TextEdit.editing ed) as [ident|] eqn:Hed; simpl.
  - split; [done|]. split.
    { intros el Hel. left. by apply removeById_elem in Hel as [? _]. }
    split.
    { intros _. split.
      - intros ev Hin. apply list_elem_of_singleton in Hin. discriminate.
      - split; [apply removeById_sublist|].
        intros ident' [= <-]. split; [apply removeById_ids | done]. }
    intros Hnd _. eapply sublist_NoDup; [exact Hnd|].
    apply fmap_sublist, removeById_sublist.
  - split; [done|]. split; [by left|]. split.
    { intros _. split; [intros ev Hin; by apply elem_of_nil in Hin|].
      split; [done|]. intros ident' [=]. }
    by intros Hnd _.
  - split; [done|]. split.
    { intros el Hel. apply replaceById_elem in Hel as [Hel| ->]; [by left|].
      right. by repeat split. }
    split; [discriminate|].
    intros Hnd _. by rewrite replaceById_ids.
  - split; [done|]. split.
    { intros el Hel. apply elem_of_app in Hel as [Hel|Hel]; [by left|].
      apply list_elem_of_singleton in Hel as ->. right. by repeat split. }
    split; [discriminate|].
    intros Hnd Hfresh. rewrite fmap_app. apply NoDup_app. split; [done|]. split.
    + intros i Hi Hi'. apply list_elem_of_singleton in Hi'. simpl in Hi'. by subst.
    + apply NoDup_singleton.
Qed.

End TextProperties.

Lemma find_by_id (l : list DrawEvent) (i : nat) (el : DrawEvent) :
  NoDup (id <$> l) → l !! i = Some el →
  List.find (λ e, String.eqb (id e) (id el)) l = Some el.
Proof.
  revert i. induction l as [|a l IH]; intros i Hnd Hi; [done|].
  rewrite fmap_cons in Hnd. apply NoDup_cons in Hnd as [Ha Hnd].
  destruct i as [|i]; simpl in Hi.
  - injection Hi as ->. simpl. by rewrite String.eqb_refl.
  - simpl. destruct (String.eqb (id a) (id el)) eqn:He.
    + apply String.eqb_eq in He. exfalso. apply Ha. rewrite He.
      apply list_elem_of_fmap. exists el. split; [done|].
      by eapply list_elem_of_lookup_2.
    + by eapply IH.
Qed.

Lemma replaceById_lookup (ident : string) (replacement : DrawEvent)
    (prev : list DrawEvent) (i : nat) (el : DrawEvent) :
  prev !! i = Some el →
  replaceById ident replacement prev !! i
  = Some (if String.eqb (id el) ident then replacement else el).
Proof.
  intros Hi. unfold replaceById. by rewrite list_lookup_fmap, Hi.
Qed.

Lemma removeById_lookup_other (ident : string) (prev : list DrawEvent) (el : DrawEvent) :
  el ∈ prev → id el ≠ ident → el ∈ Reconciler.removeById ident prev.
Proof.
  intros Hel Hne. apply removeById_elem. by split.
Qed.

Section CaptionProperties.

Variable isBlank : string → bool.
Variable options : ToolOptions.

(** X17.  Submitting the text input, in the gesture revision, never removes or
    reshapes a shape.  With pairwise distinct ids, every element that is
    not a text element is still in the list afterwards, with everything
    but its caption and the caption's font size as before; it is left as
    it is unless it is the element being edited, whose caption becomes the
    submitted text, or nothing when that text is blank; and no delete is
    sent for it. *)
Theorem caption_submit_keeps_shapes (now : number) (newId : string) (ed : Editor)
    (i : nat) (el : DrawEvent) :
  NoDup (id <$> elements (board ed)) →
  elements (board ed) !! i = Some el →
  tool el ≠ text_tool →
  let r := TextEdit.handleTextSubmit_gesture isBlank options now newId ed in
  (SendDelete (id el) ∉ r.2)
  ∧ ∃ el', el' ∈ elements (board r.1)
      ∧ withFontSize None (withText None el') = withFontSize None (withText None el)
      ∧ (textInputPos ed = None ∨ TextEdit.editing ed ≠ Some (id el) → el' = el)
      ∧ (textInputPos ed ≠ None → TextEdit.editing ed = Some (id el) →
         text el' = if isBlank (textInputValue ed) then None
                    else Some (textInputValue ed)).
Proof.
  intros Hnd Hi Hshape r. subst r. unfold TextEdit.handleTextSubmit_gesture.
  assert (Hel : el ∈ elements (board ed)) by by eapply list_elem_of_lookup_2.
  destruct (textInputPos ed) as [pos|] eqn:Hpos.
  2:{ split; [apply not_elem_of_nil|]. exists el. split; [done|]. split; [done|].
      split; [done|]. by intros []. }
  destruct (TextEdit.editing ed) as [ident|] eqn:Hed.
  2:{ destruct (isBlank (textInputValue ed)); simpl.
      - split; [apply not_elem_of_nil|]. exists el. by repeat split.
      - split. { intros Hin. apply list_elem_of_singleton in Hin. discriminate. }
        exists el. split; [|by repeat split].
        apply elem_of_app. by left. }
  destruct (String.eqb (id el) ident) eqn:Hid.
  - (* the edited element is this shape *)
    apply String.eqb_eq in Hid. subst ident.
    rewrite (find_by_id _ _ _ Hnd Hi).
    rewrite (bool_decide_eq_false_2 (tool el = text_tool)) by done.
    destruct (isBlank (textInputValue ed)); simpl.
    + split. { intros Hin. apply list_elem_of_singleton in Hin. discriminate. }
      eexists. split.
      { eapply list_elem_of_lookup_2. erewrite replaceById_lookup by exact Hi.
        by rewrite String.eqb_refl. }
      split; [done|]. split; [by intros [|]|]. done.
    + split. { intros Hin. apply list_elem_of_singleton in Hin. discriminate. }
      eexists. split.
      { eapply list_elem_of_lookup_2. erewrite replaceById_lookup by exact Hi.
        by rewrite String.eqb_refl. }
      split; [done|]. split; [by intros [|]|]. done.
  - (* another element, if any, is edited *)
    assert (Hne : id el ≠ ident) by by apply String.eqb_neq.
    assert (Hkeep : ∀ r0, el ∈ replaceById ident r0 (elements (board ed))).
    { intros r0. eapply list_elem_of_lookup_2.
      erewrite replaceById_lookup by exact Hi. by rewrite Hid. }
    assert (Hnodel : SendDelete (id el) ∉ [SendDelete ident]).
    { intros Hin. apply list_elem_of_singleton in Hin. by injection Hin. }
    assert (Hnodraw : ∀ ev, SendDelete (id el) ∉ [SendDraw ev]).
    { intros ev Hin. apply list_elem_of_singleton in Hin. discriminate. }
    assert (Hrest :
      withFontSize None (withText None el) = withFontSize None (withText None el)
      ∧ (Some pos = None ∨ Some ident ≠ Some (id el) → el = el)
      ∧ (Some pos ≠ None → Some ident = Some (id el) →
         text el = if isBlank (textInputValue ed) then None
                   else Some (textInputValue ed))).
    { split; [done|]. split; [done|]. intros _ [= ->]. done. }
    destruct (isBlank (textInputValue ed)) eqn:Hblank;
      destruct (List.find _ (elements (board ed))) as [found|] eqn:Hfind;
      try destruct (bool_decide (tool found = text_tool)) eqn:Htool; simpl;
      (split; [first [exact Hnodel | apply Hnodraw | apply not_elem_of_nil]|]);
      exists el; (split; [|exact Hrest]);
      first [apply Hkeep | by apply removeById_lookup_other | exact Hel].
Qed.

End CaptionProperties.

(** ** Deleting the selection *)

(** X18.  [deleteSelectedItems] removes exactly the selected elements: an element
    is in the list afterwards if and only if it was there and its id is not
    selected, the remaining elements keep their order, the selection is
    empty afterwards, and exactly one delete is sent for every selected id
    and nothing else. *)
Theorem deleteSelectedItems_exact (w : Whiteboard) :
  let r := Selection.deleteSelectedItems w in
  selectedElementIds r.1 = ∅
  ∧ (∀ el, el ∈ elements r.1 ↔ el ∈ elements w ∧ id el ∉ selectedElementIds w)
  ∧ sublist (elements r.1) (elements w)
  ∧ (∀ o, o ∈ r.2 ↔ ∃ ident, o = SendDelete ident ∧ ident ∈ selectedElementIds w)
  ∧ NoDup r.2
  ∧ length r.2 = size (selectedElementIds w).
Proof.
  intros r. subst r. unfold Selection.deleteSelectedItems.
  destruct (size (selectedElementIds w) =? 0)%nat eqn:Hsz.
  - apply Nat.eqb_eq in Hsz. pose proof Hsz as Hsz'.
    apply size_empty_inv in Hsz. apply leibniz_equiv in Hsz. simpl.
    split; [done|]. split.
    { intros el. rewrite Hsz. split; [intros ?; split; [done|set_solver]|by intros []]. }
    split; [done|]. split.
    { intros o. split; [intros Hin; by apply elem_of_nil in Hin|].
      intros (ident & _ & Hin). rewrite Hsz in Hin. set_solver. }
    split; [apply NoDup_nil_2|]. by rewrite Hsz'.
  - simpl. split; [done|]. split.
    { intros el. rewrite !list_elem_of_In, filter_In, negb_true_iff.
      by rewrite bool_decide_eq_false. }
    split.
    { induction (elements w) as [|el l IH]; simpl; [constructor|].
      destruct (negb _); by constructor. }
    split.
    { intros o. rewrite list_elem_of_fmap. split.
      - intros (ident & -> & Hin). exists ident. split; [done|].
        by apply elem_of_elements in Hin.
      - intros (ident & -> & Hin). exists ident. split; [done|].
        by apply elem_of_elements. }
    split.
    + apply NoDup_fmap_2; [by intros a b [= ->]|]. apply NoDup_elements.
    + by rewrite length_fmap.
Qed.

(** X19.  The Delete and Backspace keys delete the selection, but never while the
    text input is open; any other key leaves the whiteboard alone and sends
    nothing. *)
Theorem handleKeyDown_guard (key : string) (typing : bool) (w : Whiteboard) :
  (typing = true ∨ (key ≠ "Delete" ∧ key ≠ "Backspace")%string →
   Selection.handleKeyDown key typing w = (w, []))
  ∧ (typing = false → (key = "Delete" ∨ key = "Backspace")%string →
     Selection.handleKeyDown key typing w = Selection.deleteSelectedItems w).
Proof.
  unfold Selection.handleKeyDown. split.
  - intros [-> | [Hd Hb]].
    + by destruct (_ && _).
    + apply String.eqb_neq in Hd, Hb. by rewrite Hd, Hb.
  - intros -> Hkey.
    assert ((String.eqb key "Delete" || String.eqb key "Backspace") = true) as ->.
    { destruct Hkey as [-> | ->]; [done|]. by rewrite String.eqb_refl, orb_true_r. }
    simpl. destruct (0 <? size (selectedElementIds w))%nat eqn:Hsz; [done|].
    apply Nat.ltb_ge in Hsz. unfold Selection.deleteSelectedItems.
    assert (size (selectedElementIds w) = 0)%nat as -> by lia. done.
Qed.

(** X20.  Switching to a tool other than the lasso drops the selection, the lasso
    path and a drag in progress, keeps the elements, and so disarms the
    Delete key; switching to the lasso changes nothing. *)
Theorem onToolChange_disarms_delete (t : Tool) (key : string) (typing : bool)
    (w : Whiteboard) :
  let w' := Selection.onToolChange t w in
  elements w' = elements w
  ∧ (t = lasso → w' = w)
  ∧ (t ≠ lasso →
     selectedElementIds w' = ∅ ∧ lassoPath w' = [] ∧ isDragging w' = false
     ∧ dragStart w' = None
     ∧ Selection.handleKeyDown key typing w' = (w', [])).
Proof.
  intros w'. subst w'. unfold Selection.onToolChange.
  destruct (bool_decide (t = lasso)) eqn:Ht; simpl.
  - apply bool_decide_eq_true in Ht. split; [done|]. split; [done|]. done.
  - apply bool_decide_eq_false in Ht. split; [done|]. split; [done|].
    intros _. repeat split.
    unfold Selection.handleKeyDown.
    change (selectedElementIds _) with (∅ : gset string).
    by rewrite size_empty, andb_false_r.
Qed.

(** ** From one client to its peers *)

Lemma dispatch_delete (elementId : string) (w : Whiteboard) :
  Transport.dispatch (Transport.mkMessage "delete" None (Some elementId)) w
  = Some (Reconciler.onRemoteDeleteEvent elementId w).
Proof. reflexivity. Qed.

Lemma filter_notin_nil (l : list DrawEvent) :
  List.filter (λ el, negb (bool_decide (id el ∈ @nil string))) l = l.
Proof.
  induction l as [|el l IH]; [done|]. cbn [List.filter].
  rewrite (bool_decide_eq_false_2 (id el ∈ [])) by apply not_elem_of_nil.
  cbn [negb]. by f_equal.
Qed.

Lemma filter_notin_cons (i : string) (ids : list string) (l : list DrawEvent) :
  List.filter (λ el, negb (bool_decide (id el ∈ ids))) (Reconciler.removeById i l)
  = List.filter (λ el, negb (bool_decide (id el ∈ i :: ids))) l.
Proof.
  unfold Reconciler.removeById.
  induction l as [|el l IH]; [done|]. cbn [List.filter].
  destruct (String.eqb (id el) i) eqn:He; cbn [negb].
  - apply String.eqb_eq in He.
    rewrite (bool_decide_eq_true_2 (id el ∈ i :: ids)) by (rewrite He; left).
    cbn [negb]. exact IH.
  - apply String.eqb_neq in He. cbn [List.filter].
    destruct (bool_decide (id el ∈ ids)) eqn:Hin.
    + apply bool_decide_eq_true in Hin.
      rewrite (bool_decide_eq_true_2 (id el ∈ i :: ids)) by by right.
      cbn [negb]. exact IH.
    + apply bool_decide_eq_false in Hin.
      rewrite (bool_decide_eq_false_2 (id el ∈ i :: ids)).
      2:{ intros Hc. apply elem_of_cons in Hc as [?|?]; done. }
      cbn [negb]. by f_equal.
Qed.

Lemma replay_deletes (clientId : string) (ids : list string) (w : Whiteboard) :
  Transport.replay ((SendDelete <$> ids) ≫= Transport.transmit true clientId) w
  = Some (setElements
            (λ prev, List.filter (λ el, negb (bool_decide (id el ∈ ids))) prev) w).
Proof.
  revert w. induction ids as [|i ids IH]; intros w.
  - cbn [fmap list_fmap mbind list_bind Transport.replay]. f_equal.
    destruct w. unfold setElements. cbn -[List.filter].
    by rewrite filter_notin_nil.
  - rewrite fmap_cons, bind_cons.
    cbn [Transport.transmit Transport.deleteElement Transport.sendMessage app
         Transport.replay].
    rewrite dispatch_delete, IH. f_equal.
    destruct w. unfold setElements, Reconciler.onRemoteDeleteEvent.
    cbn -[List.filter Reconciler.removeById]. by rewrite filter_notin_cons.
Qed.

(** X21.  Deleting the selection converges: a peer that replays the messages
    [deleteSelectedItems] sends loses exactly the selected elements and
    nothing else of its state changes, so a peer that had the same elements
    has the same elements afterwards; while the socket is not open nothing
    is sent. *)
Theorem delete_selection_converges (clientId : string) (w peer : Whiteboard) :
  let r := Selection.deleteSelectedItems w in
  Transport.replay (r.2 ≫= Transport.transmit true clientId) peer
  = Some (setElements
            (λ prev, List.filter
                       (λ el, negb (bool_decide (id el ∈ selectedElementIds w))) prev)
            peer)
  ∧ (elements peer = elements w →
     ∃ peer', Transport.replay (r.2 ≫= Transport.transmit true clientId) peer = Some peer'
              ∧ elements peer' = elements r.1)
  ∧ r.2 ≫= Transport.transmit false clientId = [].
Proof.
  intros r.
  assert (Hfilter : ∀ l : list DrawEvent,
            List.filter (λ el, negb (bool_decide (id el ∈ base.elements (selectedElementIds w)))) l
            = List.filter (λ el, negb (bool_decide (id el ∈ selectedElementIds w))) l).
  { intros l. induction l as [|el l IH]; [done|]. cbn [List.filter].
    rewrite IH. by rewrite (bool_decide_ext _ _ (elem_of_elements _ (id el))). }
  assert (Hreplay :
    Transport.replay (r.2 ≫= Transport.transmit true clientId) peer
    = Some (setElements
              (λ prev, List.filter
                         (λ el, negb (bool_decide (id el ∈ selectedElementIds w))) prev)
              peer)).
  { subst r. unfold Selection.deleteSelectedItems.
    destruct (size (selectedElementIds w) =? 0)%nat eqn:Hsz.
    - apply Nat.eqb_eq, size_empty_inv, leibniz_equiv in Hsz.
      cbn [snd mbind list_bind Transport.replay]. f_equal.
      destruct peer. unfold setElements. cbn -[List.filter]. f_equal.
      rewrite <- Hfilter, Hsz, elements_empty. by rewrite filter_notin_nil.
    - cbn [snd]. rewrite replay_deletes. destruct peer. unfold setElements.
      cbn -[List.filter]. by rewrite Hfilter. }
  split; [exact Hreplay|]. split.
  - intros Heq. eexists. split; [exact Hreplay|].
    subst r. unfold Selection.deleteSelectedItems.
    destruct (size (selectedElementIds w) =? 0)%nat eqn:Hsz.
    + apply Nat.eqb_eq, size_empty_inv, leibniz_equiv in Hsz.
      cbn -[List.filter]. rewrite Heq, <- Hfilter, Hsz, elements_empty.
      by rewrite filter_notin_nil.
    + cbn -[List.filter]. by rewrite Heq.
  - subst r. unfold Selection.deleteSelectedItems.
    destruct (size (selectedElementIds w) =? 0)%nat; [done|].
    cbn [snd]. clear Hfilter Hreplay.
    induction (base.elements (selectedElementIds w)) as [|i l IH]; [done|].
    rewrite fmap_cons, bind_cons, IH. reflexivity.
Qed.

Lemma upsert_elem (event : DrawEvent) (prev : list DrawEvent) :
  event ∈ Reconciler.upsert event prev.
Proof.
  unfold Reconciler.upsert. destruct (findIndex _ prev) as [i|] eqn:Hf.
  - destruct (findIndex_Some _ _ _ Hf) as (a & Hl & _).
    apply lookup_lt_Some in Hl.
    eapply list_elem_of_lookup_2. by apply list_lookup_insert_eq.
  - apply elem_of_app. right. apply list_elem_of_singleton. done.
Qed.

(** X22.  What [sendDrawEvent] builds is tagged ['laser'] exactly for the events
    the whiteboard treats as laser strokes, and it carries the event with
    the sender's client id.  A peer that handles the message stores that
    event in its laser map and leaves its elements alone when it is a laser
    stroke; otherwise it stores it in its elements, by replace-or-append,
    and leaves the laser map alone.  Nothing is sent while the socket is not
    open. *)
Theorem sent_event_reaches_peer (clientId : string) (event : DrawEvent)
    (peer : Whiteboard) :
  let event' := Transport.withClientId clientId event in
  let peer' := Reconciler.onRemoteDrawEvent event' peer in
  (∃ m, Transport.sendDrawEvent true clientId event = [m]
        ∧ (Transport.msg_type m = "laser"%string ↔ Reconciler.isLaserEvent event = true)
        ∧ Transport.msg_data m = Some event'
        ∧ Transport.dispatch m peer = Some peer')
  ∧ (Reconciler.isLaserEvent event = true →
     elements peer' = elements peer
     ∧ laserElements peer' !! id event = Some (mkLaserEntry event' 1))
  ∧ (Reconciler.isLaserEvent event = false →
     laserElements peer' = laserElements peer
     ∧ elements peer' = Reconciler.upsert event' (elements peer)
     ∧ event' ∈ elements peer')
  ∧ Transport.sendDrawEvent false clientId event = [].
Proof.
  intros event' peer'.
  assert (Hsame : Reconciler.isLaserEvent event' = Reconciler.isLaserEvent event)
    by reflexivity.
  split; [|split; [|split; [|reflexivity]]].
  - eexists. split; [reflexivity|]. cbn [Transport.msg_type Transport.msg_data].
    fold (Reconciler.isLaserEvent event).
    destruct (Reconciler.isLaserEvent event) eqn:Hl.
    + split; [done|]. split; [done|]. reflexivity.
    + split; [split; discriminate|]. split; [done|]. reflexivity.
  - intros Hl. subst peer'. unfold Reconciler.onRemoteDrawEvent.
    rewrite Hsame, Hl. split; [done|].
    cbn [laserElements setLaserElements].
    change (id event') with (id event). apply lookup_insert_eq.
  - intros Hl. subst peer'. unfold Reconciler.onRemoteDrawEvent.
    rewrite Hsame, Hl. split; [done|]. split; [done|].
    cbn [elements setElements]. apply upsert_elem.
Qed.

(** X23.  A message whose type is none of ['init'], ['draw'], ['laser'],
    ['delete'], ['clear'] and ['undo'] goes to the handlers and leaves the
    whiteboard as it is, and so does an ['undo'] without an element id, which
    is what the [undo] of the hook itself sends.  An ['init'] message is
    kept by the hook and reaches no handler. *)
Theorem dispatch_ignores_unknown (m : Transport.Message) (w : Whiteboard) :
  (Transport.msg_type m ∉ ["init"; "draw"; "laser"; "delete"; "clear"; "undo"]%string →
   Transport.onmessage m w = Transport.Handled (Some w)
   ∧ Transport.dispatch m w = Some w)
  ∧ (Transport.msg_type m = "undo"%string →
     truthy_str (Transport.msg_elementId m) = false →
     Transport.onmessage m w = Transport.Handled (Some w)
     ∧ Transport.dispatch m w = Some w)
  ∧ (∀ m', m' ∈ Transport.undo true →
           Transport.onmessage m' w = Transport.Handled (Some w)
           ∧ Transport.dispatch m' w = Some w)
  ∧ (Transport.msg_type m = "init"%string →
     Transport.onmessage m w = Transport.KeptByHook)
  ∧ (Transport.msg_type m ≠ "init"%string →
     Transport.onmessage m w = Transport.Handled (Transport.dispatch m w)).
Proof.
  split; [|split; [|split; [|split]]].
  - intros Hnot.
    assert (Hne : ∀ s, s ∈ ["init"; "draw"; "laser"; "delete"; "clear"; "undo"]%string →
                       String.eqb (Transport.msg_type m) s = false).
    { intros s Hs. apply String.eqb_neq. intros Heq. apply Hnot. by rewrite Heq. }
    unfold Transport.onmessage, Transport.dispatch, Transport.drawHandler,
      Transport.undoHandler, Transport.clearHandler, Transport.deleteHandler.
    rewrite !Hne by set_solver. done.
  - intros Ht Hid. destruct m as [ty data eid]. simpl in Ht, Hid. subst ty.
    unfold Transport.onmessage, Transport.dispatch, Transport.drawHandler,
      Transport.undoHandler, Transport.clearHandler, Transport.deleteHandler.
    cbn. by rewrite Hid.
  - intros m' Hm'. apply list_elem_of_singleton in Hm'. by subst m'.
  - intros Ht. unfold Transport.onmessage. by rewrite Ht.
  - intros Ht. unfold Transport.onmessage.
    apply String.eqb_neq in Ht. by rewrite Ht.
Qed.

(** ** Resizing *)

Section ResizeProperties.

Variable ctx : option (number → string → number).

(** X24.  One step of a corner resize of a rectangle or a circle that carries
    no image and has bounds changes only the points of the element, to two
    corners.  The left and top edges are where the handle puts them: at the
    pointer when the handle holds that edge, where they were otherwise.  So
    are the right and bottom edges as long as that leaves the box at least
    10 wide and 10 high; otherwise they are put 10 from the left and top
    edges.  The bounds of the resized element are this box, so they are
    never narrower or lower than 10. *)
Theorem resize_box_min_size (h : Resize.ResizeHandle) (point : Point)
    (el : DrawEvent) (bounds : Bounds) :
  Geometry.getElementBounds ctx el = Some bounds →
  tool el = rectangle ∨ tool el = circle →
  truthy_str (imageData el) = false →
  h ∈ [Resize.tl; Resize.tr; Resize.bl; Resize.br] →
  let el' := Resize.resized ctx h point el in
  let left := if bool_decide (h = Resize.tl ∨ h = Resize.bl)
              then x point else minX bounds in
  let top := if bool_decide (h = Resize.tl ∨ h = Resize.tr)
             then y point else minY bounds in
  let right := if bool_decide (h = Resize.tr ∨ h = Resize.br)
               then x point else maxX bounds in
  let bottom := if bool_decide (h = Resize.bl ∨ h = Resize.br)
                then y point else maxY bounds in
  withPoints [] el' = withPoints [] el
  ∧ ∃ q, points el' = [mkPoint left top; q]
      ∧ (left + 10 <= x q)%Q ∧ (top + 10 <= y q)%Q
      ∧ ((left + 10 <= right)%Q → x q = right)
      ∧ ((top + 10 <= bottom)%Q → y q = bottom)
      ∧ ((right < left + 10)%Q → x q = (left + 10)%Q)
      ∧ ((bottom < top + 10)%Q → y q = (top + 10)%Q)
      ∧ ∃ bounds',
          Geometry.getElementBounds ctx el' = Some bounds'
          ∧ (minX bounds' == left)%Q ∧ (minY bounds' == top)%Q
          ∧ (maxX bounds' == x q)%Q ∧ (maxY bounds' == y q)%Q
          ∧ (10 <= maxX bounds' - minX bounds')%Q
          ∧ (10 <= maxY bounds' - minY bounds')%Q.
Proof.
  intros Hb Htool Himg Hh el' left top right bottom.
  assert (Hbox : bool_decide (tool el = rectangle) || bool_decide (tool el = circle)
                 || truthy_str (imageData el) = true).
  { destruct Htool as [-> | ->]; reflexivity. }
  assert (Htext : bool_decide (tool el = text_tool) && truthy_str (text el) = false).
  { destruct Htool as [-> | ->]; reflexivity. }
  assert (Hbounds : ∀ l t r b : Q, (l + 10 <= r)%Q → (t + 10 <= b)%Q →
            ∃ bounds',
              Geometry.getElementBounds ctx (withPoints [mkPoint l t; mkPoint r b] el)
              = Some bounds'
              ∧ (minX bounds' == l)%Q ∧ (minY bounds' == t)%Q
              ∧ (maxX bounds' == r)%Q ∧ (maxY bounds' == b)%Q
              ∧ (10 <= maxX bounds' - minX bounds')%Q
              ∧ (10 <= maxY bounds' - minY bounds')%Q).
  { intros l t r b Hlr Htb. unfold Geometry.getElementBounds.
    cbn [points withPoints imageData tool text]. rewrite Himg, Htext.
    eexists. split; [reflexivity|].
    cbn [fold_left Geometry.growBounds minX minY maxX maxY x y].
    rewrite (Q.min_l l r), (Q.min_l t b), (Q.max_r l r), (Q.max_r t b) by lra.
    repeat split; lra. }
  subst el'. unfold Resize.resized. rewrite Hb, Hbox.
  split; [done|].
  assert (Hcases : h = Resize.tl ∨ h = Resize.tr ∨ h = Resize.bl ∨ h = Resize.br).
  { repeat (apply elem_of_cons in Hh as [Hh|Hh]; [tauto|]). by apply elem_of_nil in Hh. }
  clear Hh.
  destruct Hcases as [-> | [-> | [-> | ->]]];
    subst left top right bottom; cbn [Resize.handleName Resize.includes points withPoints];
    repeat match goal with
    | |- context [bool_decide ?P] =>
        first [ rewrite (bool_decide_eq_true_2 P) by (solve [by left | by right])
              | rewrite (bool_decide_eq_false_2 P) by (intros [?|?]; discriminate) ]
    end;
    eexists; (split; [reflexivity|]); cbn [x y];
    match goal with
    | |- context [Qltb ?a 10] =>
        destruct (Qltb a 10) eqn:Hx; [apply Qltb_lt in Hx | apply Qltb_ge in Hx]
    end;
    match goal with
    | |- context [Qltb ?a 10] =>
        destruct (Qltb a 10) eqn:Hy; [apply Qltb_lt in Hy | apply Qltb_ge in Hy]
    end;
    cbn -[Geometry.getElementBounds withPoints Qplus Qminus Qle Qlt Qeq] in Hx, Hy |- *;
    (split; [lra|]); (split; [lra|]);
    (split; [intros; first [reflexivity | lra]|]);
    (split; [intros; first [reflexivity | lra]|]);
    (split; [intros; first [reflexivity | lra]|]);
    (split; [intros; first [reflexivity | lra]|]);
    apply Hbounds; lra.
Qed.

(** An image is only moved by a resize: its bounds come from its first point
    and its own width and height, which the resize leaves alone. *)
Example resize_image_keeps_size :
  Geometry.getElementBounds None Scenes.imageSmall = Some (mkBounds 0 0 5 5) ∧
  points (Resize.resized None Resize.br (mkPoint 100 100) Scenes.imageSmall)
    = [mkPoint 0 0; mkPoint 100 100] ∧
  Geometry.getElementBounds None
    (Resize.resized None Resize.br (mkPoint 100 100) Scenes.imageSmall)
    = Some (mkBounds 0 0 5 5).
Proof. repeat split; reflexivity. Qed.

End ResizeProperties.

Lemma near_true (a t : Q) : (Qabs a <? t)%Q = true ↔ (- t < a ∧ a < t)%Q.
Proof. rewrite Qltb_lt. apply Qabs_Qlt_condition. Qed.

Lemma near_false (a t : Q) : (Qabs a <? t)%Q = false ↔ (a <= - t ∨ t <= a)%Q.
Proof.
  rewrite Qltb_ge. split.
  - intros H. destruct (Qlt_le_dec a 0) as [Hn|Hp].
    + left. rewrite Qabs_neg in H by lra. lra.
    + right. rewrite Qabs_pos in H by lra. lra.
  - intros [H|H].
    + destruct (Qlt_le_dec a 0) as [Hn|Hp].
      * rewrite Qabs_neg by lra. lra.
      * pose proof (Qabs_nonneg a). rewrite Qabs_pos by lra. lra.
    + destruct (Qlt_le_dec a 0) as [Hn|Hp].
      * rewrite Qabs_neg by lra. lra.
      * rewrite Qabs_pos by lra. lra.
Qed.

Lemma threshold_pos (zoom : Q) : (0 < zoom)%Q → (0 < 15 / zoom)%Q.
Proof.
  intros Hz. unfold Qdiv. apply Qmult_lt_0_compat; [reflexivity|].
  by apply Qinv_lt_0_compat.
Qed.

Ltac near_cases :=
  repeat match goal with
  | |- context [Qltb (Qabs ?a) ?t] =>
      let H := fresh "Hnear" in
      destruct (Qltb (Qabs a) t) eqn:H;
      [apply near_true in H | apply near_false in H]
  end.

Section ResizeHandles.

Variable ctx : option (number → string → number).

(** X25.  The corner handles of an element that is not a line or an arrow.  When
    the bounds are at least the grab distance [15 / zoom] wide and high,
    the handle found at each corner of the bounds is the handle of that
    corner.  Whatever the size, a handle that is found is a corner handle
    and the point is closer than the grab distance to that corner, in both
    coordinates. *)
Theorem resize_handles_at_corners (zoom : number) (el : DrawEvent) (bounds : Bounds) :
  (0 < zoom)%Q →
  tool el ≠ line → tool el ≠ arrow →
  Geometry.getElementBounds ctx el = Some bounds →
  let handleAt := λ px py,
    Resize.getResizeHandleAtPoint ctx zoom (mkPoint px py) el in
  ((15 / zoom <= maxX bounds - minX bounds)%Q →
   (15 / zoom <= maxY bounds - minY bounds)%Q →
   handleAt (minX bounds) (minY bounds) = Some (Some Resize.tl)
   ∧ handleAt (maxX bounds) (minY bounds) = Some (Some Resize.tr)
   ∧ handleAt (minX bounds) (maxY bounds) = Some (Some Resize.bl)
   ∧ handleAt (maxX bounds) (maxY bounds) = Some (Some Resize.br))
  ∧ (∀ px py h, handleAt px py = Some (Some h) →
       h ∈ [Resize.tl; Resize.tr; Resize.bl; Resize.br]
       ∧ (Qabs (px - (if bool_decide (h = Resize.tl ∨ h = Resize.bl)
                      then minX bounds else maxX bounds)) < 15 / zoom)%Q
       ∧ (Qabs (py - (if bool_decide (h = Resize.tl ∨ h = Resize.tr)
                      then minY bounds else maxY bounds)) < 15 / zoom)%Q).
Proof.
  intros Hz Hl Ha Hb handleAt. subst handleAt.
  pose proof (threshold_pos zoom Hz) as Ht.
  unfold Resize.getResizeHandleAtPoint.
  rewrite (bool_decide_eq_false_2 (tool el = line)) by done.
  rewrite (bool_decide_eq_false_2 (tool el = arrow)) by done.
  rewrite Hb. cbn [orb x y]. set (t := (15 / zoom)%Q) in *. split.
  - intros Hw Hh. repeat split; near_cases; cbn [andb]; try reflexivity; exfalso; lra.
  - intros px py h.
    destruct (Qltb (Qabs (px - minX bounds)) t) eqn:H1;
      destruct (Qltb (Qabs (py - minY bounds)) t) eqn:H2;
      destruct (Qltb (Qabs (px - maxX bounds)) t) eqn:H3;
      destruct (Qltb (Qabs (py - maxY bounds)) t) eqn:H4;
      cbn [andb]; intros [= <-];
      rewrite ?Qltb_lt in *;
      (split; [set_solver|]);
      repeat match goal with
      | |- context [bool_decide ?P] =>
          first [ rewrite (bool_decide_eq_true_2 P) by (solve [by left | by right])
                | rewrite (bool_decide_eq_false_2 P) by (intros [?|?]; discriminate) ]
      end; by split.
Qed.

(** X26.  Resizing a line or an arrow by an end handle moves that end to the
    pointer and keeps every other point: the start handle replaces the first
    point, the end handle the last; whatever the handle, the number of
    points and everything but the points stay as they were.  The start
    handle is the one found at the first point. *)
Theorem resize_line_endpoint (point : Point) (el : DrawEvent) :
  tool el = line ∨ tool el = arrow →
  truthy_str (imageData el) = false →
  (∀ p0 rest, points el = p0 :: rest →
     points (Resize.resized ctx Resize.start point el) = point :: rest
     ∧ ∀ zoom, (0 < zoom)%Q →
         Resize.getResizeHandleAtPoint ctx zoom p0 el = Some (Some Resize.start))
  ∧ (∀ front pl, points el = front ++ [pl] →
     points (Resize.resized ctx Resize.end_ point el) = front ++ [point])
  ∧ (∀ h, length (points (Resize.resized ctx h point el)) = length (points el)
          ∧ withPoints [] (Resize.resized ctx h point el) = withPoints [] el).
Proof.
  intros Htool Himg.
  assert (Hnb : bool_decide (tool el = rectangle) || bool_decide (tool el = circle)
                || truthy_str (imageData el) = false).
  { rewrite Himg. destruct Htool as [-> | ->]; reflexivity. }
  assert (Hla : bool_decide (tool el = line) || bool_decide (tool el = arrow) = true).
  { destruct Htool as [-> | ->]; reflexivity. }
  assert (Htext : bool_decide (tool el = text_tool) && truthy_str (text el) = false).
  { destruct Htool as [-> | ->]; reflexivity. }
  assert (Hbounds : ∀ p0 rest, points el = p0 :: rest →
            ∃ b, Geometry.getElementBounds ctx el = Some b).
  { intros p0 rest Hp. unfold Geometry.getElementBounds.
    rewrite Hp, Himg, Htext. eauto. }
  split; [|split].
  - intros p0 rest Hp. destruct (Hbounds _ _ Hp) as [b Hb]. split.
    + unfold Resize.resized. rewrite Hb, Hnb, Hla. cbn [points withPoints].
      by rewrite Hp.
    + intros zoom Hz. pose proof (threshold_pos zoom Hz) as Ht.
      unfold Resize.getResizeHandleAtPoint. rewrite Hla, Hp.
      near_cases; cbn [andb]; try reflexivity; exfalso; lra.
  - intros front pl Hp.
    assert (∃ p0 rest, points el = p0 :: rest) as (p0 & rest & Hp').
    { rewrite Hp. destruct front; simpl; eauto. }
    destruct (Hbounds _ _ Hp') as [b Hb].
    unfold Resize.resized. rewrite Hb, Hnb, Hla. cbn [points withPoints].
    by rewrite Hp, removelast_last.
  - intros h. unfold Resize.resized.
    destruct (Geometry.getElementBounds ctx el) as [b|] eqn:Hb; [|done].
    rewrite Hnb, Hla. cbn [points withPoints]. split; [|done].
    destruct h; try done.
    + destruct (points el) as [|p0 rest] eqn:Hp; [|done].
      unfold Geometry.getElementBounds in Hb. by rewrite Hp in Hb.
    + destruct (points el) as [|p0 rest] eqn:Hp.
      { unfold Geometry.getElementBounds in Hb. by rewrite Hp in Hb. }
      rewrite length_app, removelast_firstn_len, length_firstn. simpl. lia.
Qed.

End ResizeHandles.

(** ** Pasting *)

Lemma fit_bounds (width height : Q) :
  (0 < width)%Q → (0 < height)%Q →
  let s := Paste.fit width height in
  (0 < s.1 ∧ s.1 <= 800 ∧ 0 < s.2 ∧ s.2 <= 800)%Q
  ∧ (s.1 * height == s.2 * width)%Q
  ∧ ((width <= 800)%Q → (height <= 800)%Q → s = (width, height))
  ∧ ((800 < width ∨ 800 < height)%Q → (Qmax s.1 s.2 == 800)%Q).
Proof.
  intros Hw Hh s. subst s. unfold Paste.fit.
  destruct (width >? 800)%Q eqn:H1; [apply Qgtb_gt in H1 | apply Qgtb_le in H1];
    (destruct (height >? 800)%Q eqn:H2; [apply Qgtb_gt in H2 | apply Qgtb_le in H2]);
    cbn [orb fst snd];
    try (destruct (width >? height)%Q eqn:H3;
         [apply Qgtb_gt in H3 | apply Qgtb_le in H3]; cbn [fst snd]).
  all: try (assert (Hr : (0 < height / width ∧ height / width <= 1)%Q);
            [ split; [apply Qlt_shift_div_l; lra | apply Qle_shift_div_r; lra] | ]).
  all: try (assert (Hr' : (0 < width / height ∧ width / height <= 1)%Q);
            [ split; [apply Qlt_shift_div_l; lra | apply Qle_shift_div_r; lra] | ]).
  all: repeat split; try lra; try (intros; lra);
    try (field; lra);
    try (intros _; apply Q.max_l; lra);
    try (intros _; apply Q.max_r; lra).
Qed.

(** X27.  A pasted image is appended to the elements and sent once.  It is at
    most 800 wide and high, keeps the proportions of the image, keeps its
    size when that is at most 800 both ways and has its longer side at 800
    otherwise; its bounds are centred on the last mouse position, so the
    image is hit there. *)
Theorem pasted_image_fits_under_pointer (sqrt : number → number)
    (ctx : option (number → string → number)) (options : ToolOptions)
    (data : string) (imgWidth imgHeight now : number) (newId : string)
    (ed : Editor) (threshold : number) :
  data ≠ ""%string →
  (0 < imgWidth)%Q → (0 < imgHeight)%Q → (0 <= threshold)%Q →
  let r := Paste.pasteImage options (Some data) imgWidth imgHeight now newId ed in
  ∃ el width height,
    elements (board r.1) = elements (board ed) ++ [el]
    ∧ r.2 = [SendDraw el]
    ∧ id el = newId
    ∧ imageWidth el = Some width ∧ imageHeight el = Some height
    ∧ (0 < width ∧ width <= 800 ∧ 0 < height ∧ height <= 800)%Q
    ∧ (width * imgHeight == height * imgWidth)%Q
    ∧ ((imgWidth <= 800)%Q → (imgHeight <= 800)%Q →
       width = imgWidth ∧ height = imgHeight)
    ∧ ((800 < imgWidth ∨ 800 < imgHeight)%Q → (Qmax width height == 800)%Q)
    ∧ (∃ bounds, Geometry.getElementBounds ctx el = Some bounds
         ∧ ((minX bounds + maxX bounds) / 2 == x (lastMousePos ed))%Q
         ∧ ((minY bounds + maxY bounds) / 2 == y (lastMousePos ed))%Q
         ∧ (maxX bounds - minX bounds == width)%Q
         ∧ (maxY bounds - minY bounds == height)%Q)
    ∧ Geometry.isPointNearElement sqrt ctx (lastMousePos ed) el threshold = true.
Proof.
  intros Hdata Hw Hh Ht r. subst r. unfold Paste.pasteImage.
  assert (Htruthy : truthy_str (Some data) = true).
  { simpl. apply negb_true_iff. by apply String.eqb_neq. }
  rewrite Htruthy. cbn [negb].
  destruct (fit_bounds imgWidth imgHeight Hw Hh) as (Hrange & Hratio & Hsame & Hmax).
  destruct (Paste.fit imgWidth imgHeight) as [width height]. cbn [fst snd] in *.
  assert (Hnw : num_or (Some width) 100 = width).
  { unfold num_or. destruct (width =? 0)%Q eqn:He; [|done].
    apply Qeq_bool_iff in He. lra. }
  assert (Hnh : num_or (Some height) 100 = height).
  { unfold num_or. destruct (height =? 0)%Q eqn:He; [|done].
    apply Qeq_bool_iff in He. lra. }
  eexists _, width, height.
  split; [reflexivity|]. split; [reflexivity|]. split; [reflexivity|].
  split; [reflexivity|]. split; [reflexivity|]. split; [exact Hrange|].
  split; [exact Hratio|]. split.
  { intros H1 H2. specialize (Hsame H1 H2). by injection Hsame. }
  split; [exact Hmax|]. split.
  - unfold Geometry.getElementBounds.
    cbn [points imageData imageWidth imageHeight]. rewrite Htruthy, Hnw, Hnh.
    eexists. split; [reflexivity|]. cbn [minX maxX minY maxY x y].
    repeat split; unfold Qdiv; change (/ 2)%Q with (1 # 2)%Q; lra.
  - unfold Geometry.isPointNearElement.
    cbn [points imageData imageWidth imageHeight]. rewrite Htruthy, Hnw, Hnh.
    cbn [x y]. apply box_test.
    repeat split; unfold Qdiv; change (/ 2)%Q with (1 # 2)%Q; lra.
Qed.

(** ** The background pattern *)

Lemma loop_complete (fuel : nat) (v e j : Z) :
  (0 <= j)%Z → (v + 50 * j <= e)%Z → (e - v + 1 <= Z.of_nat fuel)%Z →
  (v + 50 * j)%Z ∈ Background.loop fuel v e.
Proof.
  revert v j. induction fuel as [|fuel IH]; intros v j Hj Hle Hfuel; [lia|].
  cbn [Background.loop].
  destruct (v <=? e)%Z eqn:Hv; [|apply Z.leb_gt in Hv; lia].
  destruct (decide (j = 0%Z)) as [->|Hne].
  - rewrite Z.mul_0_r, Z.add_0_r. left.
  - right. replace (v + 50 * j)%Z with ((v + 50) + 50 * (j - 1))%Z by lia.
    apply IH; lia.
Qed.

Lemma loop_sound (fuel : nat) (v e u : Z) :
  u ∈ Background.loop fuel v e → ∃ j, (0 <= j)%Z ∧ u = (v + 50 * j)%Z ∧ (u <= e)%Z.
Proof.
  revert v. induction fuel as [|fuel IH]; intros v Hin; [by apply elem_of_nil in Hin|].
  cbn [Background.loop] in Hin.
  destruct (v <=? e)%Z eqn:Hv; [|by apply elem_of_nil in Hin].
  apply Z.leb_le in Hv. apply elem_of_cons in Hin as [->|Hin].
  - exists 0%Z. lia.
  - destruct (IH _ Hin) as (j & Hj & -> & Hle). exists (j + 1)%Z. lia.
Qed.

Lemma steps_complete (a b k : Z) :
  (a <= k)%Z → (k <= b)%Z → (50 * k)%Z ∈ Background.steps (a * 50) (b * 50).
Proof.
  intros Ha Hb. unfold Background.steps.
  replace (50 * k)%Z with (a * 50 + 50 * (k - a))%Z by lia.
  apply loop_complete; lia.
Qed.

Lemma steps_sound (a b u : Z) :
  u ∈ Background.steps (a * 50) (b * 50) → (50 | u)%Z.
Proof.
  intros Hin. apply loop_sound in Hin as (j & _ & -> & _).
  exists (a + j)%Z. lia.
Qed.

Lemma floor50 (a : Q) :
  (inject_Z (Qfloor (a / 50) * 50) <= a)%Q
  ∧ ∀ k, (a <= inject_Z (50 * k))%Q → (Qfloor (a / 50) <= k)%Z.
Proof.
  split.
  - rewrite inject_Z_mult. pose proof (Qfloor_le (a / 50)) as H.
    set (f := inject_Z (Qfloor (a / 50))) in *.
    unfold Qdiv in H. change (/ 50)%Q with (1 # 50)%Q in H.
    change (inject_Z 50) with 50%Q. lra.
  - intros k Hk. rewrite inject_Z_mult in Hk. change (inject_Z 50) with 50%Q in Hk.
    rewrite <- (Qfloor_Z k). apply Qfloor_resp_le.
    unfold Qdiv. change (/ 50)%Q with (1 # 50)%Q. lra.
Qed.

Lemma ceil50 (b : Q) :
  (b <= inject_Z (Qceiling (b / 50) * 50))%Q
  ∧ ∀ k, (inject_Z (50 * k) <= b)%Q → (k <= Qceiling (b / 50))%Z.
Proof.
  split.
  - rewrite inject_Z_mult. pose proof (Qle_ceiling (b / 50)) as H.
    set (c := inject_Z (Qceiling (b / 50))) in *.
    unfold Qdiv in H. change (/ 50)%Q with (1 # 50)%Q in H.
    change (inject_Z 50) with 50%Q. lra.
  - intros k Hk. rewrite inject_Z_mult in Hk. change (inject_Z 50) with 50%Q in Hk.
    rewrite <- (Qceiling_Z k). apply Qceiling_resp_le.
    unfold Qdiv. change (/ 50)%Q with (1 # 50)%Q. lra.
Qed.

Lemma visible_range (width height : Q) (offset : Point) (zoom : Q) (world : Point) :
  (0 < zoom)%Q →
  Background.visible width height offset zoom world →
  (- x offset / zoom <= x world ∧ x world <= (width - x offset) / zoom
   ∧ - y offset / zoom <= y world ∧ y world <= (height - y offset) / zoom)%Q.
Proof.
  intros Hz (H1 & H2 & H3 & H4). simpl in *.
  repeat split.
  - apply Qle_shift_div_r; [done|]. lra.
  - apply Qle_shift_div_l; [done|]. lra.
  - apply Qle_shift_div_r; [done|]. lra.
  - apply Qle_shift_div_l; [done|]. lra.
Qed.

(** X28.  The background pattern is fixed to the world and covers the canvas.
    For a positive zoom [drawBackground] draws, on top of the fill, only
    segments and dots at multiples of 50 in world coordinates, every segment
    vertical or horizontal; the blank style draws nothing.  With the grid,
    every vertical line of the lattice that shows on the canvas is drawn,
    from above to below every point of it that shows; so is every horizontal
    line with the grid and with the lines; and with the dots every lattice
    point that shows gets its dot. *)
Theorem background_covers_viewport (style : Background.BackgroundStyle)
    (width height : number) (offset : Point) (zoom : number) :
  (0 < zoom)%Q →
  ∃ strokes,
    Background.drawBackground style width height offset zoom = Some strokes
    ∧ (style = Background.blank → strokes = [])
    ∧ (∀ s, s ∈ strokes →
         match s with
         | Background.Segment x0 y0 x1 y1 =>
           (50 | x0)%Z ∧ (50 | y0)%Z ∧ (50 | x1)%Z ∧ (50 | y1)%Z ∧ (x0 = x1 ∨ y0 = y1)
         | Background.Dot cx cy => (50 | cx)%Z ∧ (50 | cy)%Z
         end)
    ∧ (style = Background.grid →
       ∀ k wy,
         Background.visible width height offset zoom (mkPoint (inject_Z (50 * k)) wy) →
         ∃ y0 y1, Background.Segment (50 * k) y0 (50 * k) y1 ∈ strokes
                  ∧ (inject_Z y0 <= wy ∧ wy <= inject_Z y1)%Q)
    ∧ (style = Background.grid ∨ style = Background.lines →
       ∀ k wx,
         Background.visible width height offset zoom (mkPoint wx (inject_Z (50 * k))) →
         ∃ x0 x1, Background.Segment x0 (50 * k) x1 (50 * k) ∈ strokes
                  ∧ (inject_Z x0 <= wx ∧ wx <= inject_Z x1)%Q)
    ∧ (style = Background.dots →
       ∀ kx ky,
         Background.visible width height offset zoom
           (mkPoint (inject_Z (50 * kx)) (inject_Z (50 * ky))) →
         Background.Dot (50 * kx) (50 * ky) ∈ strokes).
Proof.
  intros Hz. unfold Background.drawBackground.
  assert (Hnz : (zoom =? 0)%Q = false) by (apply Qeqb_neq; lra).
  rewrite Hnz.
  destruct (floor50 (- x offset / zoom)) as [HsX HkX].
  destruct (floor50 (- y offset / zoom)) as [HsY HkY].
  destruct (ceil50 ((width - x offset) / zoom)) as [HeX HjX].
  destruct (ceil50 ((height - y offset) / zoom)) as [HeY HjY].
  set (fX := Qfloor (- x offset / zoom / 50)) in *.
  set (fY := Qfloor (- y offset / zoom / 50)) in *.
  set (cX := Qceiling ((width - x offset) / zoom / 50)) in *.
  set (cY := Qceiling ((height - y offset) / zoom / 50)) in *.
  assert (Hvert : ∀ k wy,
    Background.visible width height offset zoom (mkPoint (inject_Z (50 * k)) wy) →
    (50 * k)%Z ∈ Background.steps (fX * 50) (cX * 50)
    ∧ (inject_Z (fY * 50) <= wy ∧ wy <= inject_Z (cY * 50))%Q).
  { intros k wy Hv. apply visible_range in Hv as (H1 & H2 & H3 & H4); [|done].
    cbn [x y] in *. split; [apply steps_complete; auto|]. split; lra. }
  assert (Hhoriz : ∀ k wx,
    Background.visible width height offset zoom (mkPoint wx (inject_Z (50 * k))) →
    (50 * k)%Z ∈ Background.steps (fY * 50) (cY * 50)
    ∧ (inject_Z (fX * 50) <= wx ∧ wx <= inject_Z (cX * 50))%Q).
  { intros k wx Hv. apply visible_range in Hv as (H1 & H2 & H3 & H4); [|done].
    cbn [x y] in *. split; [apply steps_complete; auto|]. split; lra. }
  assert (HdivX : ∀ a : Z, (50 | a * 50)%Z) by (intros a; exists a; lia).
  destruct style; eexists; (split; [reflexivity|]).
  - (* blank *)
    split; [done|]. split; [intros s Hs; by apply elem_of_nil in Hs|].
    split; [discriminate|]. split; [intros [|]; discriminate|]. discriminate.
  - (* grid *)
    split; [discriminate|]. split.
    { intros s Hs. apply elem_of_app in Hs as [Hs|Hs];
        apply list_elem_of_fmap in Hs as (v & -> & Hv); apply steps_sound in Hv;
        repeat split; auto. }
    split.
    { intros _ k wy Hv. destruct (Hvert _ _ Hv) as [Hin Hr].
      eexists _, _. split; [|exact Hr].
      apply elem_of_app. left. apply list_elem_of_fmap. eexists. split; [reflexivity|done]. }
    split; [|discriminate].
    intros _ k wx Hv. destruct (Hhoriz _ _ Hv) as [Hin Hr].
    eexists _, _. split; [|exact Hr].
    apply elem_of_app. right. apply list_elem_of_fmap. eexists. split; [reflexivity|done].
  - (* dots *)
    split; [discriminate|]. split.
    { intros s Hs. apply list_elem_of_bind in Hs as (vx & Hs & Hvx).
      apply list_elem_of_bind in Hs as (vy & Hs & Hvy).
      apply list_elem_of_singleton in Hs as ->.
      apply steps_sound in Hvx, Hvy. by split. }
    split; [discriminate|]. split; [intros [|]; discriminate|].
    intros _ kx ky Hv.
    destruct (Hvert _ _ Hv) as [Hx _]. destruct (Hhoriz _ _ Hv) as [Hy _].
    apply list_elem_of_bind. exists (50 * kx)%Z. split; [|done].
    apply list_elem_of_bind. exists (50 * ky)%Z. split; [|done].
    by apply list_elem_of_singleton.
  - (* lines *)
    split; [discriminate|]. split.
    { intros s Hs. apply list_elem_of_fmap in Hs as (v & -> & Hv).
      apply steps_sound in Hv. repeat split; auto. }
    split; [discriminate|]. split; [|discriminate].
    intros _ k wx Hv. destruct (Hhoriz _ _ Hv) as [Hin Hr].
    eexists _, _. split; [|exact Hr].
    apply list_elem_of_fmap. eexists. split; [reflexivity|done].
Qed.

(** ** The zoom buttons *)

(** X29.  The zoom buttons compose.  From a viewport whose zoom is not 0, setting
    the zoom to a value that is not 0 and then to a second value gives the
    viewport that setting it to the second value at once gives.  So, within
    the zoom range, zoom-in followed by zoom-out gives the viewport back
    when the zoom-in did not reach the upper limit 5, and zoom-out followed
    by zoom-in gives it back when the zoom-out did not reach the lower limit
    0.1. *)
Theorem zoom_buttons_round_trip (rect : DOMRect) (w : Whiteboard) :
  Viewport.zoomInRange w →
  (∀ z1 z2, ¬ (z1 == 0)%Q →
     let w12 := Viewport.handleZoomChange (Some rect) z2
                  (Viewport.handleZoomChange (Some rect) z1 w) in
     let w2 := Viewport.handleZoomChange (Some rect) z2 w in
     zoom w12 = zoom w2 ∧ Viewport.pointEq (offset w12) (offset w2))
  ∧ ((zoom w * 1.2 <= 5)%Q →
     let w' := Viewport.handleZoomOut (Some rect) (Viewport.handleZoomIn (Some rect) w) in
     (zoom w' == zoom w)%Q ∧ Viewport.pointEq (offset w') (offset w))
  ∧ ((0.12 <= zoom w)%Q →
     let w' := Viewport.handleZoomIn (Some rect) (Viewport.handleZoomOut (Some rect) w) in
     (zoom w' == zoom w)%Q ∧ Viewport.pointEq (offset w') (offset w)).
Proof.
  intros [Hlo Hhi].
  assert (Hz : ¬ (zoom w == 0)%Q) by lra.
  split; [|split].
  - intros z1 z2 Hz1 w12 w2. subst w12 w2. split; [reflexivity|].
    split; simpl; field; by split.
  - intros Hin w'. subst w'.
    unfold Viewport.handleZoomOut, Viewport.handleZoomIn, Viewport.handleZoomChange.
    cbn [zoom offset setZoom setOffset x y].
    set (n1 := Qmin (zoom w * 1.2) 5).
    assert (Hn1 : (n1 == zoom w * 1.2)%Q) by (apply Q.min_l; lra).
    set (n2 := Qmax (n1 / 1.2) 0.1).
    assert (Hn2 : (n2 == zoom w)%Q).
    { subst n2. rewrite Q.max_l.
      - rewrite Hn1. field.
      - rewrite Hn1. unfold Qdiv. change (/ 1.2)%Q with (10 # 12)%Q. lra. }
    split; [exact Hn2|].
    split; cbn [x y]; rewrite Hn2, Hn1; field; lra.
  - intros Hout w'. subst w'.
    unfold Viewport.handleZoomOut, Viewport.handleZoomIn, Viewport.handleZoomChange.
    cbn [zoom offset setZoom setOffset x y].
    set (n1 := Qmax (zoom w / 1.2) 0.1).
    assert (Hn1 : (n1 == zoom w / 1.2)%Q).
    { apply Q.max_l. unfold Qdiv. change (/ 1.2)%Q with (10 # 12)%Q. lra. }
    set (n2 := Qmin (n1 * 1.2) 5).
    assert (Hn2 : (n2 == zoom w)%Q).
    { subst n2. rewrite Q.min_l.
      - rewrite Hn1. field.
      - rewrite Hn1. unfold Qdiv. change (/ 1.2)%Q with (10 # 12)%Q. lra. }
    split; [exact Hn2|].
    split; cbn [x y]; rewrite Hn2, Hn1; field; lra.
Qed.

(** ** Circles under the select tool *)

(** X30.  The centre of a circle.  In the gesture revision, with the select tool
    or the text tool active, the centre of every circle is hit, as the whole
    disc is; with any other tool the gesture revision answers as the
    mouse/touch revision does, for which the centre is hit only when the
    radius is smaller than the threshold plus the line width: a circle is
    then hit on its border only. *)
Theorem circle_centre_hit (sqrt : number → number)
    (ctx : option (number → string → number)) (activeTool : Tool)
    (element : DrawEvent) (centre : Point) (rest : list Point) (threshold : number) :
  (∀ a, (a == 0)%Q → (sqrt a == 0)%Q) →
  (∀ a, (0 <= sqrt a)%Q) →
  tool element = circle →
  truthy_str (imageData element) = false →
  points element = centre :: rest →
  (0 <= threshold)%Q →
  let radius := Geometry.distance sqrt (List.last (points element) centre) centre in
  (activeTool = select ∨ activeTool = text_tool →
   Geometry.isPointNearElement_gesture sqrt ctx activeTool centre element threshold = true)
  ∧ (activeTool ≠ select → activeTool ≠ text_tool →
     Geometry.isPointNearElement_gesture sqrt ctx activeTool centre element threshold
     = Geometry.isPointNearElement sqrt ctx centre element threshold)
  ∧ (Geometry.isPointNearElement sqrt ctx centre element threshold = true
     ↔ (radius < threshold + lineWidth element)%Q).
Proof.
  intros Hzero Hpos Htool Himg Hpts Ht radius.
  assert (Hdist : (Geometry.distance sqrt centre centre == 0)%Q).
  { unfold Geometry.distance. apply Hzero. unfold Math_pow2. ring. }
  assert (Hrad : (0 <= radius)%Q) by apply Hpos.
  unfold Geometry.isPointNearElement_gesture, Geometry.isPointNearElement.
  rewrite Himg, Htool, Hpts.
  rewrite (bool_decide_eq_false_2 (circle = text_tool)) by discriminate.
  cbn [points]. rewrite <- Hpts. fold radius.
  split; [|split].
  - intros Hsel.
    assert (bool_decide (activeTool = select) || bool_decide (activeTool = text_tool)
            = true) as ->.
    { destruct Hsel as [-> | ->]; reflexivity. }
    apply Qle_bool_iff. lra.
  - intros H1 H2.
    rewrite (bool_decide_eq_false_2 (activeTool = select)) by done.
    rewrite (bool_decide_eq_false_2 (activeTool = text_tool)) by done.
    reflexivity.
  - rewrite near_true. split; [intros [H1 H2]|intros H]; [|split]; lra.
Qed.

(** * Worked examples for the further properties *)

Lemma approxSqrt_zero (a : Q) : (a == 0)%Q → (Samples.approxSqrt a == 0)%Q.
Proof.
  intros Ha. unfold Samples.approxSqrt. rewrite (Qred_complete a 0 Ha). reflexivity.
Qed.

Lemma approxSqrt_nonneg (a : Q) : (0 <= Samples.approxSqrt a)%Q.
Proof.
  unfold Samples.approxSqrt. apply Qle_shift_div_l; [reflexivity|].
  rewrite Qmult_0_l. unfold Qle. simpl.
  pose proof (Z.sqrt_nonneg (Qnum (Qred a) * QDen (Qred a))). lia.
Qed.

Lemma draw_after_delete_recreates_witness :
  Reconciler.isLaserEvent Samples.lineA = false ∧
  elements (Reconciler.onRemoteDrawEvent Samples.lineA
              (Reconciler.onRemoteDeleteEvent (id Samples.lineA)
                 (initialState [Samples.penA; Samples.penB])))
  = Reconciler.removeById (id Samples.lineA) [Samples.penA; Samples.penB]
    ++ [Samples.lineA].
Proof.
  split; [reflexivity|].
  exact (proj1 (draw_after_delete_recreates Samples.lineA
                  (initialState [Samples.penA; Samples.penB]) eq_refl)).
Defined.

Lemma onRemoteDrawEvent_last_writer_wins_witness :
  id Samples.penA = id Samples.lineA ∧
  Reconciler.isLaserEvent Samples.penA = Reconciler.isLaserEvent Samples.lineA ∧
  Reconciler.onRemoteDrawEvent Samples.lineA
    (Reconciler.onRemoteDrawEvent Samples.penA (initialState [Samples.penB]))
  = Reconciler.onRemoteDrawEvent Samples.lineA (initialState [Samples.penB]).
Proof.
  split; [reflexivity|]. split; [reflexivity|].
  exact (onRemoteDrawEvent_last_writer_wins Samples.penA Samples.lineA
           (initialState [Samples.penB]) eq_refl eq_refl).
Defined.

Lemma getElementBounds_minmax_witness :
  truthy_str (imageData Samples.penB) = false ∧
  bool_decide (tool Samples.penB = text_tool) && truthy_str (text Samples.penB) = false ∧
  points Samples.penB ≠ [] ∧
  ∃ bounds, Geometry.getElementBounds None Samples.penB = Some bounds
            ∧ (minX bounds <= maxX bounds)%Q ∧ (minY bounds <= maxY bounds)%Q.
Proof.
  split; [reflexivity|]. split; [reflexivity|]. split; [discriminate|].
  destruct (getElementBounds_minmax None Samples.penB eq_refl eq_refl)
    as (bounds & Hb & _ & _ & _ & _ & _ & Hx & Hy); [discriminate|].
  exists bounds. split; [exact Hb|]. split; [exact Hx | exact Hy].
Defined.

Lemma no_points_no_hit_witness :
  points Scenes.emptyStroke = [] ∧
  Geometry.getElementBounds None Scenes.emptyStroke = None ∧
  ∀ point threshold,
    Geometry.isPointNearElement Samples.approxSqrt None point Scenes.emptyStroke threshold
    = false.
Proof.
  split; [reflexivity|].
  pose proof (no_points_no_hit Samples.approxSqrt None Scenes.emptyStroke eq_refl) as H.
  split; [exact (proj1 H) | exact (proj1 (proj2 H))].
Defined.

Lemma image_text_hit_iff_in_bounds_witness :
  (truthy_str (imageData Scenes.image) = true ∨
   (tool Scenes.image = text_tool ∧ truthy_str (text Scenes.image) = true)) ∧
  (Geometry.isPointNearElement Samples.approxSqrt None (mkPoint 20 15) Scenes.image 0 = true ↔
   ∃ bounds,
     Geometry.getElementBounds None Scenes.image = Some bounds ∧
     (minX bounds - 0 <= x (mkPoint 20 15))%Q ∧ (x (mkPoint 20 15) <= maxX bounds + 0)%Q ∧
     (minY bounds - 0 <= y (mkPoint 20 15))%Q ∧ (y (mkPoint 20 15) <= maxY bounds + 0)%Q).
Proof.
  assert (H : truthy_str (imageData Scenes.image) = true ∨
              (tool Scenes.image = text_tool ∧ truthy_str (text Scenes.image) = true))
    by (left; reflexivity).
  split; [exact H|].
  exact (image_text_hit_iff_in_bounds Samples.approxSqrt None (mkPoint 20 15)
           Scenes.image 0 H).
Defined.

Lemma rectangle_hit_region_witness :
  tool Samples.rectHundred = rectangle ∧
  truthy_str (imageData Samples.rectHundred) = false ∧
  Geometry.rectangleBox Samples.rectHundred = Some (mkBounds 0 0 100 100) ∧
  Geometry.isPointNearElement_gesture Samples.approxSqrt None select (mkPoint 0 50)
    Samples.rectHundred 10
  = Geometry.isPointNearElement Samples.approxSqrt None (mkPoint 0 50)
      Samples.rectHundred 10.
Proof.
  split; [reflexivity|]. split; [reflexivity|]. split; [reflexivity|].
  exact (proj1 (proj2 (rectangle_hit_region Samples.approxSqrt None select (mkPoint 0 50)
                         Samples.rectHundred 10 (mkBounds 0 0 100 100)
                         eq_refl eq_refl eq_refl))).
Defined.


Lemma pan_follows_pointer_witness :
  (ev_button Scenes.middleDown = 1%Z ∨
   (ev_button Scenes.middleDown = 0%Z ∧ ev_shiftKey Scenes.middleDown = true)) ∧
  ∃ ed',
    Pointer.gesture Samples.approxSqrt None (Some Samples.canvasRect) Scenes.penOptions
      Scenes.middleDown ([Scenes.moveTo 20 20] ++ [Scenes.moveTo 30 40]) 0 "n"
      (initialEditor [Samples.penA]) = Some (ed', [])
    ∧ isPanning (board ed') = false
    ∧ elements (board ed') = [Samples.penA].
Proof.
  assert (H : ev_button Scenes.middleDown = 1%Z ∨
              (ev_button Scenes.middleDown = 0%Z ∧ ev_shiftKey Scenes.middleDown = true))
    by (left; reflexivity).
  split; [exact H|].
  destruct (pan_follows_pointer Samples.approxSqrt None (Some Samples.canvasRect)
              Scenes.penOptions Scenes.middleDown [Scenes.moveTo 20 20]
              (Scenes.moveTo 30 40) 0 "n" (initialEditor [Samples.penA]) H)
    as (ed' & Hg & _ & Hpan & _ & Hels & _).
  exists ed'. split; [exact Hg|]. split; [exact Hpan | exact Hels].
Defined.

Lemma draw_gesture_commits_witness :
  drawsElement (opt_tool Scenes.penOptions) ∧
  ev_button Scenes.leftDown = 0%Z ∧ ev_shiftKey Scenes.leftDown = false ∧
  isPanning (board (initialEditor [Samples.penB])) = false ∧
  ∃ ed' drawEvent,
    Pointer.gesture Samples.approxSqrt None (Some Samples.canvasRect) Scenes.penOptions
      Scenes.leftDown [Scenes.moveTo 20 20; Scenes.moveTo 30 40] 0 "n"
      (initialEditor [Samples.penB]) = Some (ed', [SendDraw drawEvent])
    ∧ elements (board ed') = [Samples.penB] ++ [drawEvent]
    ∧ length (points drawEvent) = 3%nat.
Proof.
  assert (H : drawsElement (opt_tool Scenes.penOptions)) by (left; reflexivity).
  split; [exact H|]. split; [reflexivity|]. split; [reflexivity|]. split; [reflexivity|].
  destruct (draw_gesture_commits Samples.approxSqrt None (Some Samples.canvasRect)
              Scenes.penOptions Scenes.leftDown
              [Scenes.moveTo 20 20; Scenes.moveTo 30 40] 0 "n"
              (initialEditor [Samples.penB]) H eq_refl eq_refl eq_refl)
    as (ed' & Hg & Hels & _ & _ & _ & Hlen).
  eexists ed', _. split; [exact Hg|]. split; [exact Hels | exact Hlen].
Defined.

Lemma lasso_drag_translates_witness :
  opt_tool Samples.lassoOptions = lasso ∧
  isPanning (board Scenes.dragging) = false ∧
  isDragging (board Scenes.dragging) = true ∧
  dragStart (board Scenes.dragging) = Some (mkPoint 0 0) ∧
  ∃ ed1 ed' a',
    Pointer.moves Samples.approxSqrt None (Some Samples.canvasRect) Samples.lassoOptions
      [Scenes.moveTo 15 25] Scenes.dragging = Some (ed1, [])
    ∧ elements (board ed') = [a'; Samples.penB]
    ∧ id a' = "a"%string
    ∧ Forall2 (λ p p', (x p' == x p + 15)%Q ∧ (y p' == y p + 25)%Q)
              [mkPoint 0 0; mkPoint 1 1] (points a')
    ∧ isDragging (board ed') = false.
Proof.
  split; [reflexivity|]. split; [reflexivity|]. split; [reflexivity|].
  split; [reflexivity|].
  destruct (lasso_drag_translates Samples.approxSqrt None (Some Samples.canvasRect)
              Samples.lassoOptions [Scenes.moveTo 15 25] 0 "n" Scenes.dragging
              (mkPoint 0 0) eq_refl eq_refl eq_refl eq_refl)
    as (ed1 & ed' & Hm & _ & Hby & _ & _ & Hdrag & _).
  change (elements (board Scenes.dragging)) with [Samples.penA; Samples.penB] in Hby.
  destruct (elements (board ed')) as [|a' [|b' [|c' rest]]] eqn:Hels;
    [ exfalso; inversion Hby
    | exfalso; inversion Hby as [|? ? ? ? _ Hrest]; inversion Hrest
    |
    | exfalso; inversion Hby as [|? ? ? ? _ Hrest];
      inversion Hrest as [|? ? ? ? _ Hrest']; inversion Hrest' ].
  apply Forall2_cons_1 in Hby as [Ha Hrest].
  apply Forall2_cons_1 in Hrest as [Hb _].
  assert (Hsel : id Samples.penA ∈ selectedElementIds (board Scenes.dragging))
    by (apply (bool_decide_unpack _); vm_compute; exact I).
  assert (Hnot : id Samples.penB ∉ selectedElementIds (board Scenes.dragging)).
  { intros Hin. apply (bool_decide_pack _) in Hin. vm_compute in Hin. exact Hin. }
  cbv beta in Ha, Hb.
  rewrite bool_decide_eq_true_2 in Ha by exact Hsel.
  rewrite bool_decide_eq_false_2 in Hb by exact Hnot.
  destruct Ha as [Hrest' Hpts]. subst b'.
  exists ed1, ed', a'. split; [exact Hm|]. split; [exact Hels|].
  split; [by injection Hrest'|]. split; [|exact Hdrag].
  eapply Forall2_impl; [exact Hpts|]. intros p p' [Hx Hy].
  split; [rewrite Hx | rewrite Hy]; vm_compute; reflexivity.
Defined.

Lemma object_eraser_deletes_topmost_witness :
  opt_tool Scenes.eraserOptions = object_eraser ∧
  isPanning (board Scenes.erasing) = false ∧
  isDrawing
    (board (Pointer.handleMouseDown Samples.approxSqrt None (Some Samples.canvasRect)
              Scenes.eraserOptions Scenes.leftDown Scenes.erasing).1) = true.
Proof.
  split; [reflexivity|]. split; [reflexivity|].
  exact (proj1 (proj1 (object_eraser_deletes_topmost Samples.approxSqrt None
                         (Some Samples.canvasRect) Scenes.eraserOptions Scenes.leftDown
                         Scenes.erasing eq_refl eq_refl) eq_refl eq_refl)).
Defined.

Lemma caption_submit_keeps_shapes_witness :
  NoDup (id <$> elements (board Scenes.captioning)) ∧
  elements (board Scenes.captioning) !! 0%nat = Some Samples.rectSmall ∧
  tool Samples.rectSmall ≠ text_tool ∧
  SendDelete (id Samples.rectSmall)
    ∉ (TextEdit.handleTextSubmit_gesture Scenes.blankIfEmpty Scenes.penOptions 0 "n"
         Scenes.captioning).2.
Proof.
  assert (Hnd : NoDup (id <$> elements (board Scenes.captioning))).
  { apply (bool_decide_unpack _). vm_compute. exact I. }
  assert (Hshape : tool Samples.rectSmall ≠ text_tool) by discriminate.
  split; [exact Hnd|]. split; [reflexivity|]. split; [exact Hshape|].
  exact (proj1 (caption_submit_keeps_shapes Scenes.blankIfEmpty Scenes.penOptions 0 "n"
                  Scenes.captioning 0%nat Samples.rectSmall Hnd eq_refl Hshape)).
Defined.

Lemma resize_box_min_size_witness :
  Geometry.getElementBounds None Samples.rectHundred = Some (mkBounds 0 0 100 100) ∧
  (tool Samples.rectHundred = rectangle ∨ tool Samples.rectHundred = circle) ∧
  truthy_str (imageData Samples.rectHundred) = false ∧
  Resize.br ∈ [Resize.tl; Resize.tr; Resize.bl; Resize.br] ∧
  withPoints [] (Resize.resized None Resize.br (mkPoint 150 120) Samples.rectHundred)
  = withPoints [] Samples.rectHundred ∧
  ∃ q bounds',
    points (Resize.resized None Resize.br (mkPoint 150 120) Samples.rectHundred)
    = [mkPoint 0 0; q]
    ∧ x q = 150%Q ∧ y q = 120%Q
    ∧ Geometry.getElementBounds None
        (Resize.resized None Resize.br (mkPoint 150 120) Samples.rectHundred)
      = Some bounds'
    ∧ (10 <= maxX bounds' - minX bounds')%Q.
Proof.
  assert (Hh : Resize.br ∈ [Resize.tl; Resize.tr; Resize.bl; Resize.br])
    by (repeat constructor).
  assert (Ht : tool Samples.rectHundred = rectangle ∨ tool Samples.rectHundred = circle)
    by (left; reflexivity).
  split; [reflexivity|]. split; [exact Ht|]. split; [reflexivity|]. split; [exact Hh|].
  destruct (resize_box_min_size None Resize.br (mkPoint 150 120) Samples.rectHundred
              (mkBounds 0 0 100 100) eq_refl Ht eq_refl Hh)
    as (Hrest & q & Hpts & _ & _ & Hx & Hy & _ & _ & bounds' & Hb' & _ & _ & _ & _ & Hw & _).
  split; [exact Hrest|]. exists q, bounds'.
  split; [exact Hpts|]. split; [apply Hx; vm_compute; discriminate|].
  split; [apply Hy; vm_compute; discriminate|]. split; [exact Hb' | exact Hw].
Defined.

Lemma resize_handles_at_corners_witness :
  (0 < 1)%Q ∧ tool Samples.rectHundred ≠ line ∧ tool Samples.rectHundred ≠ arrow ∧
  Geometry.getElementBounds None Samples.rectHundred = Some (mkBounds 0 0 100 100) ∧
  Resize.getResizeHandleAtPoint None 1 (mkPoint 100 100) Samples.rectHundred
  = Some (Some Resize.br).
Proof.
  assert (Hl : tool Samples.rectHundred ≠ line) by discriminate.
  assert (Ha : tool Samples.rectHundred ≠ arrow) by discriminate.
  split; [reflexivity|]. split; [exact Hl|]. split; [exact Ha|]. split; [reflexivity|].
  destruct (resize_handles_at_corners None 1 Samples.rectHundred (mkBounds 0 0 100 100)
              eq_refl Hl Ha eq_refl) as [H _].
  apply H; vm_compute; discriminate.
Defined.

Lemma resize_line_endpoint_witness :
  (tool Samples.lineA = line ∨ tool Samples.lineA = arrow) ∧
  truthy_str (imageData Samples.lineA) = false ∧
  points (Resize.resized None Resize.start (mkPoint 9 9) Samples.lineA)
  = [mkPoint 9 9; mkPoint 8 8].
Proof.
  assert (H : tool Samples.lineA = line ∨ tool Samples.lineA = arrow)
    by (left; reflexivity).
  split; [exact H|]. split; [reflexivity|].
  destruct (resize_line_endpoint None (mkPoint 9 9) Samples.lineA H eq_refl)
    as [Hstart _].
  exact (proj1 (Hstart (mkPoint 0 0) [mkPoint 8 8] eq_refl)).
Defined.

Lemma pasted_image_fits_under_pointer_witness :
  "img"%string ≠ ""%string ∧ (0 < 1600)%Q ∧ (0 < 800)%Q ∧ (0 <= 10)%Q ∧
  ∃ el width height,
    elements (board (Paste.pasteImage Scenes.penOptions (Some "img"%string) 1600 800 0 "n"
                       (initialEditor [Samples.penA])).1)
    = [Samples.penA] ++ [el]
    ∧ imageWidth el = Some width ∧ imageHeight el = Some height
    ∧ (width <= 800)%Q ∧ (height <= 800)%Q.
Proof.
  assert (Hd : "img"%string ≠ ""%string) by discriminate.
  assert (Ht : (0 <= 10)%Q) by discriminate.
  split; [exact Hd|]. split; [reflexivity|]. split; [reflexivity|].
  split; [exact Ht|].
  destruct (pasted_image_fits_under_pointer Samples.approxSqrt None Scenes.penOptions
              "img" 1600 800 0 "n" (initialEditor [Samples.penA]) 10
              Hd eq_refl eq_refl Ht)
    as (el & width & height & Hels & _ & _ & Hw & Hh & (_ & Hw' & _ & Hh') & _).
  exists el, width, height. split; [exact Hels|]. split; [exact Hw|].
  split; [exact Hh|]. split; [exact Hw' | exact Hh'].
Defined.

Lemma background_covers_viewport_witness :
  (0 < 1)%Q ∧
  ∃ strokes,
    Background.drawBackground Background.grid 800 600 (mkPoint 0 0) 1 = Some strokes
    ∧ ∀ k wy,
        Background.visible 800 600 (mkPoint 0 0) 1 (mkPoint (inject_Z (50 * k)) wy) →
        ∃ y0 y1, Background.Segment (50 * k) y0 (50 * k) y1 ∈ strokes
                 ∧ (inject_Z y0 <= wy ∧ wy <= inject_Z y1)%Q.
Proof.
  split; [reflexivity|].
  destruct (background_covers_viewport Background.grid 800 600 (mkPoint 0 0) 1 eq_refl)
    as (strokes & Hs & _ & _ & Hgrid & _).
  exists strokes. split; [exact Hs|]. exact (Hgrid eq_refl).
Defined.

Lemma zoom_buttons_round_trip_witness :
  Viewport.zoomInRange (initialState []) ∧
  (zoom (Viewport.handleZoomOut (Some Samples.canvasRect)
           (Viewport.handleZoomIn (Some Samples.canvasRect) (initialState [])))
   == zoom (initialState []))%Q.
Proof.
  assert (H : Viewport.zoomInRange (initialState []))
    by (split; vm_compute; discriminate).
  split; [exact H|].
  destruct (zoom_buttons_round_trip Samples.canvasRect (initialState []) H)
    as (_ & Hin & _).
  apply Hin. vm_compute. discriminate.
Defined.

Lemma circle_centre_hit_witness :
  (∀ a, (a == 0)%Q → (Samples.approxSqrt a == 0)%Q) ∧
  (∀ a, (0 <= Samples.approxSqrt a)%Q) ∧
  tool Scenes.circleBig = circle ∧
  truthy_str (imageData Scenes.circleBig) = false ∧
  points Scenes.circleBig = mkPoint 0 0 :: [mkPoint 30 40] ∧
  (0 <= 10)%Q ∧
  Geometry.isPointNearElement_gesture Samples.approxSqrt None select (mkPoint 0 0)
    Scenes.circleBig 10 = true.
Proof.
  assert (Ht : (0 <= 10)%Q) by discriminate.
  split; [exact approxSqrt_zero|]. split; [exact approxSqrt_nonneg|].
  split; [reflexivity|]. split; [reflexivity|]. split; [reflexivity|].
  split; [exact Ht|].
  destruct (circle_centre_hit Samples.approxSqrt None select Scenes.circleBig
              (mkPoint 0 0) [mkPoint 30 40] 10 approxSqrt_zero approxSqrt_nonneg
              eq_refl eq_refl eq_refl Ht) as [H _].
  apply H. left. reflexivity.
Defined.
